(** * Rasqal query results format registry (rasqal_result_formats.c)

    A shallow embedding of the query-results format class of Rasqal:
    registration of format factories in the world's sequence, selection of
    a factory by name / URI / MIME type / flags, and the content sniffer
    that guesses a format name.

    Conventions of the embedding.
    - A C string is a [string]; a pointer that may be NULL is an [option].
    - A NULL-terminated array of strings ([names], [uri_strings]) is the
      list of its entries before the terminator.
    - The static [raptor_type_q] table of a descriptor is the list of its
      entries together with the [q] field of its terminating entry (the
      entry whose [mime_type] is NULL): the sniffer reads that field.
    - [int] values are integers ([Z]); the additions and the subtraction
      done on scores are taken without overflow.
    - A run that dereferences NULL, reads freed memory or indexes outside
      an allocation is undefined in C; the embedding is total and ends
      such a run in [Crash]. *)

From Stdlib Require Import ZArith Lia Ascii String.
From Stdlib.Strings Require Import Byte.
From Stdlib Require Import DecimalString.
From stdpp Require Import base list strings sorting.

Local Open Scope string_scope.
Local Open Scope list_scope.
Local Open Scope Z_scope.

(** ** Outcomes *)

Inductive fault : Type :=
| NullNames          (* factory->desc.names is NULL and is indexed *)
| NullMimeTypes      (* factory->desc.mime_types is NULL and is indexed *)
| ScoresOutOfBounds  (* scores[k] read outside the calloc'ed array *)
| BufferOutOfBounds  (* buffer[FIRSTN] outside the caller's buffer *)
| UseAfterFree.      (* a freed factory is read through the sequence *)

Inductive outcome (A : Type) : Type :=
| Ret (a : A)
| Crash (e : fault).
Arguments Ret {A} a.
Arguments Crash {A} e.

Definition bind {A B : Type} (m : outcome A) (k : A -> outcome B) : outcome B :=
  match m with
  | Ret a => k a
  | Crash e => Crash e
  end.

Notation "x <- m ;; k" := (bind m (fun x => k))
  (at level 100, m at next level, right associativity).

(** ** Data model *)

(** Modelled from the spec: the two flag constants are declared in rasqal.h,
    which is not part of the sources at hand; the spec describes [flags] as
    the bitset {READER, WRITER}.  The header gives them the values 1 and 2. *)
Definition RASQAL_QUERY_RESULTS_FORMAT_FLAG_READER : Z := 1.
Definition RASQAL_QUERY_RESULTS_FORMAT_FLAG_WRITER : Z := 2.

(** One entry of a MIME type table: (mime_type, mime_type_len, q).  The
    field [q] is a small unsigned integer in raptor2.h; no fact below needs
    its range. *)
Record raptor_type_q : Type := {
  mime_type : string;
  mime_type_len : nat;
  q : Z
}.

(** A table [{ {"a/b", 3, 10}, ..., {NULL, 0, q0} }]. *)
Record type_q_table : Type := {
  entries : list raptor_type_q;
  terminator_q : Z
}.

Record raptor_syntax_description : Type := {
  names : option (list string);
  label : option string;
  mime_types : option type_q_table;
  uri_strings : option (list string);
  flags : Z
}.

(** Arguments that [recognise_syntax] receives after the factory itself:
    buffer, len, identifier, suffix, mime_type. *)
Record recognise_args : Type := {
  arg_buffer : option (list byte);
  arg_len : nat;
  arg_identifier : option string;
  arg_suffix : option string;
  arg_mime_type : option string
}.

(** The behaviours whose body is outside this file are kept as opaque code
    addresses: only their presence is tested here. *)
Definition code_ptr : Type := positive.

Record rasqal_query_results_format_factory : Type := {
  desc : raptor_syntax_description;
  context_length : Z;
  init : option code_ptr;
  finish : option code_ptr;
  write : option code_ptr;
  get_rowsource : option code_ptr;
  recognise_syntax : option (recognise_args -> Z)
}.
Abbreviation format_factory := rasqal_query_results_format_factory.

(** An element of the sequence [world->query_results_formats] is a pointer
    to a factory that the sequence owns; factories are never shared, so the
    cell holds the factory itself, or [Freed] once the object was released
    while the sequence still points at it. *)
Inductive factory_cell : Type :=
| Live (f : format_factory)
| Freed.

Record rasqal_world : Type := {
  query_results_formats : list factory_cell
}.

Definition set_flags (d : raptor_syntax_description) (fl : Z) : raptor_syntax_description :=
  {| names := names d; label := label d; mime_types := mime_types d;
     uri_strings := uri_strings d; flags := fl |}.

Definition set_desc (f : format_factory) (d : raptor_syntax_description) : format_factory :=
  {| desc := d; context_length := context_length f; init := init f;
     finish := finish f; write := write f; get_rowsource := get_rowsource f;
     recognise_syntax := recognise_syntax f |}.

(** [!strcmp(a, b)] *)
Definition streq (a b : string) : bool := String.eqb a b.

Definition is_set {A : Type} (p : option A) : bool :=
  match p with
  | Some _ => true
  | None => false
  end.

(** ** Selector: rasqal_get_query_results_formatter_factory *)

(** Lines 196-199: the flags of a candidate are recomputed from the
    behaviours it supplies. *)
Definition factory_flags (f : format_factory) : Z :=
  let ff := 0 in
  let ff := if is_set (get_rowsource f)
            then Z.lor ff RASQAL_QUERY_RESULTS_FORMAT_FLAG_READER else ff in
  let ff := if is_set (write f)
            then Z.lor ff RASQAL_QUERY_RESULTS_FORMAT_FLAG_WRITER else ff in
  ff.

(** Lines 213-216: does some entry of a NULL-terminated string array equal
    the key? *)
Fixpoint string_array_has (arr : list string) (key : string) : bool :=
  match arr with
  | [] => false
  | s :: rest => if streq s key then true else string_array_has rest key
  end.

(** Lines 239-242: does some entry before the terminator carry this MIME
    type? *)
Fixpoint type_q_has (es : list raptor_type_q) (key : string) : bool :=
  match es with
  | [] => false
  | e :: rest => if streq (mime_type e) key then true else type_q_has rest key
  end.

(** What one turn of the loop decides for its candidate. *)
Inductive verdict : Type :=
| Selected   (* return factory / break with factory set *)
| NextOne.   (* continue, or fall out of the loop body *)

(** The loop body, lines 196-243, for a candidate that is alive. *)
Definition examine_candidate (name uri mime_type : option string) (flags : Z)
    (f : format_factory) : outcome verdict :=
  if negb (flags =? 0) && negb (factory_flags f =? flags) then Ret NextOne
  else if negb (is_set name) && negb (is_set uri) then Ret Selected
  else
    by_name <- match name with
               | Some n =>
                   match names (desc f) with
                   | Some arr => Ret (string_array_has arr n)
                   | None => Crash NullNames
                   end
               | None => Ret false
               end;;
    if by_name then Ret Selected
    else
      let by_uri := match uri, uri_strings (desc f) with
                    | Some u, Some arr => string_array_has arr u
                    | _, _ => false
                    end in
      if by_uri then Ret Selected
      else
        match mime_type with
        | Some m =>
            match mime_types (desc f) with
            | Some tbl => Ret (if type_q_has (entries tbl) m then Selected else NextOne)
            | None => Crash NullMimeTypes
            end
        | None => Ret NextOne
        end.

(** The loop of lines 188-246 over the elements [i], [i+1], ... of the
    sequence; [raptor_sequence_get_at] gives NULL past the last element. *)
Fixpoint scan_factories (name uri mime_type : option string) (flags : Z)
    (cells : list factory_cell) : outcome (option format_factory) :=
  match cells with
  | [] => Ret None
  | Freed :: _ => Crash UseAfterFree
  | Live f :: rest =>
      v <- examine_candidate name uri mime_type flags f;;
      match v with
      | Selected => Ret (Some f)
      | NextOne => scan_factories name uri mime_type flags rest
      end
  end.

Definition rasqal_get_query_results_formatter_factory (world : rasqal_world)
    (name uri mime_type : option string) (flags : Z) : outcome (option format_factory) :=
  scan_factories name uri mime_type flags (query_results_formats world).

(** rasqal_query_results_formats_check, lines 262-276. *)
Definition rasqal_query_results_formats_check (world : rasqal_world)
    (name uri mime_type : option string) (flags : Z) : outcome bool :=
  r <- rasqal_get_query_results_formatter_factory world name uri mime_type flags;;
  Ret (is_set r).

(** ** Registration: rasqal_world_register_query_results_format_factory *)

(** The object that RASQAL_CALLOC returns: every field zero / NULL.  (The
    back pointer [factory->world] is not read in this file and is left
    out.) *)
Definition factory_calloc : format_factory :=
  {| desc := {| names := None; label := None; mime_types := None;
                uri_strings := None; flags := 0 |};
     context_length := 0; init := None; finish := None; write := None;
     get_rowsource := None; recognise_syntax := None |}.

(** raptor_sequence_push, when it succeeds: the pointer becomes the last
    element. *)
Definition raptor_sequence_push (seq : list factory_cell) (f : format_factory) :
    list factory_cell :=
  seq ++ [Live f].

Definition raptor_sequence_size (seq : list factory_cell) : nat := length seq.

(** Lines 88-92. *)
Definition derived_flags (f : format_factory) : Z :=
  let fl := 0 in
  let fl := if is_set (get_rowsource f)
            then Z.lor fl RASQAL_QUERY_RESULTS_FORMAT_FLAG_READER else fl in
  let fl := if is_set (write f)
            then Z.lor fl RASQAL_QUERY_RESULTS_FORMAT_FLAG_WRITER else fl in
  fl.

(** Line 81-82: [!names || !names[0] || !label]. *)
Definition missing_names_or_label (d : raptor_syntax_description) : bool :=
  match names d with
  | None => true
  | Some [] => true
  | Some (_ :: _) =>
      match label d with
      | None => true
      | Some _ => false
      end
  end.

(** rasqal_free_query_results_format_factory, lines 135-139, applied to the
    factory behind element [p]: the object is released and the element goes
    on pointing at it. *)
Definition rasqal_free_query_results_format_factory
    (seq : list factory_cell) (p : nat) : list factory_cell :=
  <[p := Freed]> seq.

(** Lines 59-132.  [calloc_ok] and [push_ok] say whether the allocation of
    the factory and the push onto the sequence succeed.  The registration
    function writes into the factory it is handed and returns an [int];
    that factory is, from line 73 on, the object the last element of the
    sequence points at, so every write to it is a write to that cell [p].
    The result is the new world and the returned pointer (NULL = [None]). *)
Definition rasqal_world_register_query_results_format_factory
    (world : rasqal_world) (calloc_ok push_ok : bool)
    (register_factory : format_factory -> Z * format_factory) :
    rasqal_world * option format_factory :=
  if negb calloc_ok then (world, None)
  else
    let factory := factory_calloc in
    if negb push_ok then (world, None)
    else
      let p := raptor_sequence_size (query_results_formats world) in
      let seq := raptor_sequence_push (query_results_formats world) factory in
      let '(rc, factory) := register_factory factory in
      let seq := <[p := Live factory]> seq in
      if negb (rc =? 0) then ({| query_results_formats := seq |}, None)
      else if missing_names_or_label (desc factory)
      then (* tidy *)
        ({| query_results_formats :=
              rasqal_free_query_results_format_factory seq p |}, None)
      else
        let factory := set_desc factory (set_flags (desc factory) (derived_flags factory)) in
        ({| query_results_formats := <[p := Live factory]> seq |}, Some factory).

(** One registration attempt, and a run of attempts in order (what the
    per-syntax initialisers called by rasqal_init_result_formats do). *)
Record attempt : Type := {
  calloc_ok : bool;
  push_ok : bool;
  register_factory : format_factory -> Z * format_factory
}.

Definition register_attempt (world : rasqal_world) (a : attempt) : rasqal_world :=
  fst (rasqal_world_register_query_results_format_factory
         world (calloc_ok a) (push_ok a) (register_factory a)).

Definition register_attempts (world : rasqal_world) (l : list attempt) : rasqal_world :=
  fold_left register_attempt l world.

(** rasqal_world_get_query_results_format_description, lines 414-431.  The
    function returns the address [&factory->desc] and reads nothing of the
    factory, so it returns for a released factory as for any other.  The
    result is the returned pointer (NULL = [None]), given as what a read
    through it yields. *)
Definition rasqal_world_get_query_results_format_description
    (world : rasqal_world) (counter : nat) : option (outcome raptor_syntax_description) :=
  match query_results_formats world !! counter with
  | None => None
  | Some (Live f) => Some (Ret (desc f))
  | Some Freed => Some (Crash UseAfterFree)
  end.

(** The factories of the registry that are alive, in order. *)
Fixpoint live_factories (cells : list factory_cell) : list format_factory :=
  match cells with
  | [] => []
  | Live f :: rest => f :: live_factories rest
  | Freed :: rest => live_factories rest
  end.

(** ** Suffix extraction (lines 573-598) *)

(** <ctype.h> in the C locale. *)
Definition isdigit (c : ascii) : bool :=
  ((48 <=? N_of_ascii c) && (N_of_ascii c <=? 57))%N.
Definition isupper (c : ascii) : bool :=
  ((65 <=? N_of_ascii c) && (N_of_ascii c <=? 90))%N.
Definition islower (c : ascii) : bool :=
  ((97 <=? N_of_ascii c) && (N_of_ascii c <=? 122))%N.
Definition isalpha (c : ascii) : bool := isupper c || islower c.
Definition tolower (c : ascii) : ascii :=
  if isupper c then ascii_of_N (N_of_ascii c + 32) else c.

(** strrchr(s, c) for a character c other than NUL: the tail of [s] that
    starts at the last occurrence of [c], NULL when there is none. *)
Fixpoint strrchr (s : string) (c : ascii) : option string :=
  match s with
  | EmptyString => None
  | String a rest =>
      match strrchr rest c with
      | Some p => Some p
      | None => if Ascii.eqb a c then Some s else None
      end
  end.

(** [p++] on a pointer into a string. *)
Definition next_char (p : string) : string :=
  match p with
  | EmptyString => EmptyString
  | String _ rest => rest
  end.

(** The copy loop of lines 584-596: [None] when the suffix was freed and
    set to NULL, otherwise the string written at [suffix]. *)
Fixpoint copy_suffix (from : string) : option string :=
  match from with
  | EmptyString => Some EmptyString
  | String c rest =>
      if negb (isalpha c) && negb (isdigit c) then None
      else
        match copy_suffix rest with
        | Some to => Some (String (if isupper c then tolower c else c) to)
        | None => None
        end
  end.

(** Does line 579 allocate?  Only when the identifier has a dot. *)
Definition suffix_is_allocated (identifier : option string) : bool :=
  match identifier with
  | Some id => is_set (strrchr id ".")
  | None => false
  end.

(** The value of [suffix] when line 600 is reached. *)
Definition extract_suffix (identifier : option string) : option string :=
  match identifier with
  | Some id =>
      match strrchr id "." with
      | Some p => copy_suffix (next_char p)
      | None => None
      end
  | None => None
  end.

(** ** Sniffer: rasqal_world_guess_query_results_format_name *)

Record syntax_score : Type := {
  score : Z;
  factory : option format_factory
}.

(** Lines 527-530.  The C function subtracts two [int]; its result is this
    difference as long as the difference stays within [int].  The same
    holds of the sum of line 649 in [guess_loop] below.  Facts that depend
    on the values of scores state that range. *)
Definition compare_syntax_score (a b : syntax_score) : Z := score b - score a.

Definition FIRSTN : nat := 1024.

(** What the sniffer can change outside its own frame: the caller's buffer.
    [calls] is a ghost log of the arguments of every [recognise_syntax]
    call, in call order. *)
Record sniff_state : Type := {
  buffer : option (list byte);
  calls : list recognise_args
}.

(** [(char)c] for an [int] c. *)
Definition char_of_int (c : Z) : byte :=
  match Byte.of_N (Z.to_N (c mod 256)) with
  | Some b => b
  | None => x00
  end.

(** Lines 609-617.  [type_q = &mime_types[j]] is the address of an array
    element and is never NULL, so the loop stops either at the first entry
    whose string equals the supplied MIME type [key] or at the terminating
    entry, and the test [if(type_q)] of line 616 always succeeds: the result
    is the [q] of whichever entry the loop stopped at. *)
Fixpoint type_q_scan (es : list raptor_type_q) (term_q : Z) (key : string) : Z :=
  match es with
  | [] => term_q
  | e :: rest =>
      if streq key (mime_type e) then q e
      else type_q_scan rest term_q key
  end.

(** Lines 639-655: the call of [recognise_syntax] with the buffer cut at
    FIRSTN; gives the returned affinity. *)
Definition call_recognise_syntax (recognise : recognise_args -> Z) (len : nat)
    (identifier suffix mime_type : option string) (st : sniff_state) :
    outcome (Z * sniff_state) :=
  let c := -1 in
  cut <- match buffer st with
         | Some b =>
             if negb (len =? 0)%nat && (FIRSTN <? len)%nat then
               match b !! FIRSTN with
               | Some x => Ret (Z.of_N (Byte.to_N x), Some (<[FIRSTN := x00]> b))
               | None => Crash BufferOutOfBounds
               end
             else Ret (c, Some b)
         | None => Ret (c, None)
         end;;
  let c := fst cut in
  let args := {| arg_buffer := snd cut; arg_len := len;
                 arg_identifier := identifier; arg_suffix := suffix;
                 arg_mime_type := mime_type |} in
  let affinity := recognise args in
  let restored := if c >=? 0
                  then match snd cut with
                       | Some b => Some (<[FIRSTN := char_of_int c]> b)
                       | None => None
                       end
                  else snd cut in
  Ret (affinity, {| buffer := restored; calls := calls st ++ [args] |}).

(** How the loop of lines 600-662 ends: [reg_factory] is the variable
    [factory] (NULL when the sequence was exhausted), [reg_i] the counter,
    [reg_scores] the array. *)
Record loop_exit : Type := {
  reg_factory : option format_factory;
  reg_i : nat;
  reg_scores : list syntax_score;
  reg_state : sniff_state
}.

(** Lines 600-662, from element [i] of the sequence on; [cells] are the
    elements [i], [i+1], ... *)
Fixpoint guess_loop (uri mime_type : option string) (len : nat)
    (identifier suffix : option string)
    (cells : list factory_cell) (i : nat) (scores : list syntax_score)
    (st : sniff_state) : outcome loop_exit :=
  match cells with
  | [] => Ret {| reg_factory := None; reg_i := i; reg_scores := scores; reg_state := st |}
  | Freed :: _ => Crash UseAfterFree
  | Live f :: rest =>
      let stop := Ret {| reg_factory := Some f; reg_i := i;
                         reg_scores := scores; reg_state := st |} in
      let sc := -1 in
      let sc := match mime_type, mime_types (desc f) with
                | Some m, Some tbl => type_q_scan (entries tbl) (terminator_q tbl) m
                | _, _ => sc
                end in
      if sc >=? 10 then stop
      else
        let by_uri := match uri, uri_strings (desc f) with
                      | Some u, Some arr => string_array_has arr u
                      | _, _ => false
                      end in
        if by_uri then stop
        else
          r <- match recognise_syntax f with
               | Some recognise =>
                   a <- call_recognise_syntax recognise len identifier suffix mime_type st;;
                   Ret (sc + fst a, snd a)
               | None => Ret (sc, st)
               end;;
          let sc := fst r in
          let scores := <[i := {| score := if sc <? 10 then sc else 10;
                                  factory := Some f |}]> scores in
          guess_loop uri mime_type len identifier suffix rest (S i) scores (snd r)
  end.

Section Sniffer.

(** qsort(3) with [compare_syntax_score].  The C library fixes neither the
    algorithm nor the order of elements that compare equal; the facts
    below assume its contract only: the result is a permutation of the
    input, in which no element compares greater than a later one. *)
Variable qsort : list syntax_score -> list syntax_score.

(** Lines 664-669: entered with [factory] NULL. *)
Definition pick_top_score (i : nat) (scores : list syntax_score) :
    outcome (option format_factory) :=
  let scores := qsort (take i scores) ++ drop i scores in
  match scores !! 0%nat with
  | Some top => Ret (if score top >=? 0 then factory top else None)
  | None => Crash ScoresOutOfBounds
  end.

(** Line 676. *)
Definition first_name (f : option format_factory) : outcome (option string) :=
  match f with
  | Some f =>
      match names (desc f) with
      | Some arr => Ret (arr !! 0%nat)
      | None => Crash NullNames
      end
  | None => Ret None
  end.

(** Lines 553-676.  [scores_ok] and [suffix_ok] say whether the RASQAL_CALLOC
    of line 567 and the RASQAL_MALLOC of line 579 succeed.  The result is
    the returned name (NULL = [None]) and the state the call leaves. *)
Definition rasqal_world_guess_query_results_format_name
    (world : rasqal_world) (scores_ok suffix_ok : bool)
    (uri mime_type : option string) (buffer : option (list byte)) (len : nat)
    (identifier : option string) : outcome (option string * sniff_state) :=
  let st := {| buffer := buffer; calls := [] |} in
  if negb scores_ok then Ret (None, st)
  else
    let scores :=
      replicate (raptor_sequence_size (query_results_formats world))
                {| score := 0; factory := None |} in
    if suffix_is_allocated identifier && negb suffix_ok then Ret (None, st)
    else
      let suffix := extract_suffix identifier in
      x <- guess_loop uri mime_type len identifier suffix
             (query_results_formats world) 0%nat scores st;;
      chosen <- match reg_factory x with
                | Some f => Ret (Some f)
                | None => pick_top_score (reg_i x) (reg_scores x)
                end;;
      name <- first_name chosen;;
      Ret (name, reg_state x).

End Sniffer.

(** ** Vocabulary of the properties *)

(** The candidate passes the flag test of line 202. *)
Definition flags_accepted (flags : Z) (f : format_factory) : Prop :=
  flags = 0 \/ factory_flags f = flags.

Definition matches_name (name : option string) (f : format_factory) : Prop :=
  exists n arr, name = Some n /\ names (desc f) = Some arr /\ n ∈ arr.

Definition matches_uri (uri : option string) (f : format_factory) : Prop :=
  exists u arr, uri = Some u /\ uri_strings (desc f) = Some arr /\ u ∈ arr.

Definition matches_mime_type (mime : option string) (f : format_factory) : Prop :=
  exists m tbl e, mime = Some m /\ mime_types (desc f) = Some tbl /\
                  e ∈ entries tbl /\ mime_type e = m.

(** The arrays that the selector indexes for this request are there. *)
Definition arrays_present (name mime : option string) (f : format_factory) : Prop :=
  (is_Some name -> is_Some (names (desc f))) /\
  (is_Some mime -> is_Some (mime_types (desc f))).

(** A candidate the selector moves past: its flags are refused, or it
    matches none of the criteria (and its arrays can be read). *)
Definition passed_over (name uri mime : option string) (flags : Z)
    (f : format_factory) : Prop :=
  flags_accepted flags f ->
  ~ matches_name name f /\ ~ matches_uri uri f /\ ~ matches_mime_type mime f /\
  arrays_present name mime f.

(** A candidate at which the selector stops. *)
Definition taken (name uri mime : option string) (flags : Z)
    (f : format_factory) : Prop :=
  flags_accepted flags f /\
  (matches_name name f \/
   (is_Some name -> is_Some (names (desc f))) /\
   (matches_uri uri f \/ matches_mime_type mime f)).

(** The reading of the selector in which a name match anywhere in the
    registry wins over every URI match. *)
Definition name_beats_uri_everywhere : Prop :=
  forall (world : rasqal_world) (n u : string) (mime : option string) (flags : Z)
         (a : format_factory),
    Live a ∈ query_results_formats world ->
    matches_name (Some n) a ->
    rasqal_get_query_results_formatter_factory world (Some n) (Some u) mime flags
    = Ret (Some a).

(** The reading of registration in which a failed attempt leaves no trace
    in the registry. *)
Definition failed_registration_leaves_no_trace : Prop :=
  forall (world : rasqal_world) (reg : format_factory -> Z * format_factory),
    fst (reg factory_calloc) <> 0 \/
    missing_names_or_label (desc (snd (reg factory_calloc))) = true ->
    rasqal_world_register_query_results_format_factory world true true reg
    = (world, None).

(** The first table entry whose string is the supplied MIME type. *)
Definition declared_entry (tbl : type_q_table) (m : string) : option raptor_type_q :=
  find (fun e => bool_decide (mime_type e = m)) (entries tbl).

(** The sniffer's authoritative MIME match: the entry found for the MIME
    type has quality 10 or more. *)
Definition authoritative_mime (m : string) (f : format_factory) : Prop :=
  exists tbl e, mime_types (desc f) = Some tbl /\
                declared_entry tbl m = Some e /\ 10 <= q e.

(** Static tables end with the entry [{NULL, 0, 0}]; all that matters below
    is that the quality written in the terminator is under 10. *)
Definition plain_terminator (f : format_factory) : Prop :=
  forall tbl, mime_types (desc f) = Some tbl -> terminator_q tbl < 10.

(** The length argument does not exceed the buffer it describes. *)
Definition buffer_holds (buffer : option (list byte)) (len : nat) : Prop :=
  match buffer with
  | Some b => (len <= length b)%nat
  | None => True
  end.

(** What [recognise_syntax] is shown of a buffer of [len] bytes. *)
Definition cut_buffer (buffer : option (list byte)) (len : nat) : option (list byte) :=
  match buffer with
  | Some b => if (FIRSTN <? len)%nat then Some (<[FIRSTN := x00]> b) else Some b
  | None => None
  end.

Definition not_chosen_directly (uri : option string) (m : string)
    (f : format_factory) : Prop :=
  ~ matches_uri uri f /\ ~ authoritative_mime m f /\ plain_terminator f.

(** A registry whose every element is alive and declares both a names
    array and a MIME type table. *)
Definition all_arrays_declared (cells : list factory_cell) : Prop :=
  Forall (fun c => exists f, c = Live f /\ is_Some (names (desc f)) /\
                             is_Some (mime_types (desc f))) cells.

(** Every live factory of the registry carries the derived flags. *)
Definition registry_flags_derived (cells : list factory_cell) : Prop :=
  Forall (fun f => flags (desc f) = derived_flags f) (live_factories cells).

(** The flag bits of a factory tell which behaviours it supplies. *)
Definition flags_tell_behaviours (f : format_factory) : Prop :=
  (Z.land (flags (desc f)) RASQAL_QUERY_RESULTS_FORMAT_FLAG_READER <> 0
   <-> is_Some (get_rowsource f)) /\
  (Z.land (flags (desc f)) RASQAL_QUERY_RESULTS_FORMAT_FLAG_WRITER <> 0
   <-> is_Some (write f)).

(** The reading of the flags invariant in which it covers every factory
    present in the registry once a registration has succeeded. *)
Definition every_present_factory_has_derived_flags : Prop :=
  forall (attempts : list attempt) (reg : format_factory -> Z * format_factory)
         (world' : rasqal_world) (f g : format_factory),
    rasqal_world_register_query_results_format_factory
      (register_attempts {| query_results_formats := [] |} attempts) true true reg
    = (world', Some f) ->
    Live g ∈ query_results_formats world' ->
    flags_tell_behaviours g.

(** A factory that is in the registry because the registration function of
    one of the attempts reported failure: it is as that function left it. *)
Definition left_by_failed_registration (attempts : list attempt)
    (f : format_factory) : Prop :=
  exists a, a ∈ attempts /\
            fst (register_factory a factory_calloc) <> 0 /\
            f = snd (register_factory a factory_calloc).

(** Spec side of suffix extraction. *)
Fixpoint has_char (c : ascii) (s : string) : bool :=
  match s with
  | EmptyString => false
  | String a rest => Ascii.eqb a c || has_char c rest
  end.

Definition isalnum (c : ascii) : bool := isalpha c || isdigit c.

Fixpoint all_alnum (s : string) : bool :=
  match s with
  | EmptyString => true
  | String a rest => isalnum a && all_alnum rest
  end.

Fixpoint lower_case (s : string) : string :=
  match s with
  | EmptyString => EmptyString
  | String a rest => String (tolower a) (lower_case rest)
  end.

(** ** Sample data *)

Definition sample_factory (ns : list string) (tbl : option type_q_table)
    (uris : option (list string)) (w g : option code_ptr)
    (r : option (recognise_args -> Z)) : format_factory :=
  {| desc := {| names := Some ns; label := Some "sample"; mime_types := tbl;
                uri_strings := uris; flags := 0 |};
     context_length := 0; init := None; finish := None;
     write := w; get_rowsource := g; recognise_syntax := r |}.

Definition table_of (l : list (string * Z)) : type_q_table :=
  {| entries := map (fun p => {| mime_type := fst p;
                                 mime_type_len := String.length (fst p);
                                 q := snd p |}) l;
     terminator_q := 0 |}.

Definition xml_factory : format_factory :=
  sample_factory ["xml"] (Some (table_of [("application/sparql-results+xml", 10)]))
                 (Some ["http://www.w3.org/2005/sparql-results#"])
                 (Some 1%positive) (Some 2%positive) None.

Definition json_factory : format_factory :=
  sample_factory ["json"] (Some (table_of [("application/json", 10)]))
                 None (Some 3%positive) None None.

Definition csv_factory : format_factory :=
  sample_factory ["csv"] (Some (table_of [("text/csv", 8)]))
                 None (Some 4%positive) None None.

Definition reader_factory : format_factory :=
  sample_factory ["rdfxml"] None None None (Some 5%positive) None.

(** A sniff-only factory that is very sure about every buffer whose byte
    1024 is NUL. *)
Definition eager_factory : format_factory :=
  sample_factory ["html"] None None None None
    (Some (fun a => match arg_buffer a with
                    | Some b => match b !! FIRSTN with
                                | Some x00 => 100
                                | _ => 7
                                end
                    | None => 0
                    end)).

(** Registration functions to try the registry with: one that fails after
    writing half a descriptor, one that succeeds but names nothing. *)
Definition failing_registration (f : format_factory) : Z * format_factory :=
  (1, set_desc f {| names := Some ["half"]; label := None; mime_types := None;
                    uri_strings := None; flags := 2 |}).

Definition nameless_registration (f : format_factory) : Z * format_factory :=
  (0, set_desc f {| names := Some []; label := Some "no name"; mime_types := None;
                    uri_strings := None; flags := 0 |}).

(** A registration function that claims WRITER in [flags] but supplies a
    row source only. *)
Definition mislabelled_registration (f : format_factory) : Z * format_factory :=
  (0, {| desc := {| names := Some ["rows"]; label := Some "rows only";
                    mime_types := None; uri_strings := None; flags := 2 |};
         context_length := 0; init := None; finish := None; write := None;
         get_rowsource := Some 9%positive; recognise_syntax := None |}).

(** A buffer longer than FIRSTN bytes. *)
Definition long_buffer : list byte := replicate 1100 x41.

(** A sort that meets the contract of qsort, to run the sniffer with. *)
Definition score_order (a b : syntax_score) : Prop := compare_syntax_score a b <= 0.

#[local] Instance score_order_dec : RelDecision score_order.
Proof. intros a b. unfold score_order. apply Z_le_dec. Defined.

Definition sort_scores : list syntax_score -> list syntax_score :=
  merge_sort score_order.

(** ** Formatters (lines 299-517) *)

(** A formatter: the factory it is bound to and its context buffer (NULL
    when the factory asks for no context). *)
Record rasqal_query_results_formatter : Type := {
  formatter_factory : format_factory;
  context : option (list byte)
}.

(** The calls made through the [init] and [finish] pointers of a factory,
    with the formatter they were handed. *)
Inductive callback : Type :=
| CalledInit (p : code_ptr) (fm : rasqal_query_results_formatter) (name : option string)
| CalledFinish (p : code_ptr) (fm : rasqal_query_results_formatter).

(** rasqal_free_query_results_formatter, lines 389-402: the calls it makes. *)
Definition rasqal_free_query_results_formatter
    (formatter : option rasqal_query_results_formatter) : list callback :=
  match formatter with
  | None => []
  | Some fm =>
      match finish (formatter_factory fm) with
      | Some p => [CalledFinish p fm]
      | None => []
      end
  end.

Section Formatter.

(** The code behind an [init] pointer: the [int] it returns and the context
    it leaves.  The code behind a [get_rowsource] pointer: the rows that the
    row source it builds will yield before it is exhausted, or NULL. *)
Variable run_init :
  code_ptr -> rasqal_query_results_formatter -> option string -> Z * option (list byte).
Variable row : Type.
Variable iostream : Type.
Variable run_get_rowsource :
  code_ptr -> rasqal_query_results_formatter -> iostream -> option string ->
  option (list row).
Variable qsort : list syntax_score -> list syntax_score.

(** rasqal_new_query_results_formatter, lines 299-341.  [formatter_ok] and
    [context_ok] say whether the two RASQAL_CALLOCs succeed.  The result is
    the formatter (NULL = [None]) and the calls made. *)
Definition rasqal_new_query_results_formatter (world : rasqal_world)
    (formatter_ok context_ok : bool) (name mime_type format_uri : option string) :
    outcome (option rasqal_query_results_formatter * list callback) :=
  let flags := 0 in
  found <- rasqal_get_query_results_formatter_factory world name format_uri
             mime_type flags;;
  match found with
  | None => Ret (None, [])
  | Some factory =>
      if negb formatter_ok then Ret (None, [])
      else
        let formatter := {| formatter_factory := factory; context := None |} in
        if negb (context_length factory =? 0) && negb context_ok
        then Ret (None, rasqal_free_query_results_formatter (Some formatter))
        else
          let formatter :=
            if context_length factory =? 0 then formatter
            else {| formatter_factory := factory;
                    context := Some (replicate (Z.to_nat (context_length factory)) x00) |} in
          match init factory with
          | Some p =>
              let r := run_init p formatter name in
              let after := {| formatter_factory := factory; context := snd r |} in
              if negb (fst r =? 0)
              then Ret (None, CalledInit p formatter name
                              :: rasqal_free_query_results_formatter (Some after))
              else Ret (Some after, [CalledInit p formatter name])
          | None => Ret (Some formatter, [])
          end
  end.

(** rasqal_new_query_results_formatter_for_content, lines 363-380. *)
Definition rasqal_new_query_results_formatter_for_content (world : rasqal_world)
    (scores_ok suffix_ok formatter_ok context_ok : bool)
    (uri mime_type : option string) (buffer : option (list byte)) (len : nat)
    (identifier : option string) :
    outcome (option rasqal_query_results_formatter * list callback * sniff_state) :=
  g <- rasqal_world_guess_query_results_format_name qsort world scores_ok suffix_ok
         uri mime_type buffer len identifier;;
  match fst g with
  | Some name =>
      r <- rasqal_new_query_results_formatter world formatter_ok context_ok
             (Some name) None None;;
      Ret (r, snd g)
  | None => Ret (None, [], snd g)
  end.

(** The loop of lines 506-511 over the rows the row source yields. *)
Fixpoint drain_rowsource (rowsource : list row) (results : list row) : list row :=
  match rowsource with
  | [] => results
  | r :: rest => drain_rowsource rest (results ++ [r])
  end.

(** rasqal_query_results_formatter_read, lines 482-517, called with all its
    pointer arguments present: the returned [int] and the rows of the
    result set afterwards. *)
Definition rasqal_query_results_formatter_read (iostr : iostream)
    (formatter : rasqal_query_results_formatter) (results : list row)
    (base_uri : string) : Z * list row :=
  match get_rowsource (formatter_factory formatter) with
  | None => (1, results)
  | Some p =>
      match run_get_rowsource p formatter iostr (Some base_uri) with
      | None => (1, results)
      | Some rowsource => (0, drain_rowsource rowsource results)
      end
  end.

End Formatter.

Definition is_lower_alnum (c : ascii) : bool := islower c || isdigit c.

Fixpoint all_chars (test : ascii -> bool) (s : string) : bool :=
  match s with
  | EmptyString => true
  | String a rest => test a && all_chars test rest
  end.

(** ** XSD datatypes (rasqal_xsd_datatypes.c) *)

(** rasqal_xsd_check_boolean_format, lines 66-82. *)
Definition rasqal_xsd_check_boolean_format (s : string) (flags : Z) : Z :=
  if streq s "true" || streq s "TRUE" || streq s "1" ||
     streq s "false" || streq s "FALSE" || streq s "0"
  then 1 else 0.

(** The loops of lines 129 and 138: step over digits. *)
Fixpoint skip_digits (p : string) : string :=
  match p with
  | EmptyString => EmptyString
  | String c rest => if isdigit c then skip_digits rest else p
  end.

(** rasqal_xsd_check_decimal_format, lines 116-145.  ADVANCE_OR_DIE steps
    over the sign and returns 0 when the string ends there. *)
Definition rasqal_xsd_check_decimal_format (s : string) (flags : Z) : Z :=
  let after_sign :=
    match s with
    | String c rest =>
        if Ascii.eqb c "+" || Ascii.eqb c "-"
        then match rest with
             | EmptyString => None
             | String _ _ => Some rest
             end
        else Some s
    | EmptyString => Some s
    end in
  match after_sign with
  | None => 0
  | Some p =>
      match skip_digits p with
      | EmptyString => 1
      | String c rest =>
          if negb (Ascii.eqb c ".") then 0
          else match skip_digits rest with
               | EmptyString => 1
               | String _ _ => 0
               end
      end
  end.

Definition INTEGER_BUFFER_SIZE : nat := 20.

(** snprintf(string, size, "%d", i): the decimal digits of [i], a minus
    sign first when it is negative, cut to [size - 1] characters. *)
Definition snprintf_d (size : nat) (i : Z) : string :=
  substring 0 (size - 1) (NilZero.string_of_int (Z.to_int i)).

(** rasqal_xsd_format_integer, lines 241-263: the new string and the length
    stored through [len_p], or NULL when the allocation fails. *)
Definition rasqal_xsd_format_integer (malloc_ok : bool) (i : Z) : option (string * nat) :=
  if negb malloc_ok then None
  else
    let str := snprintf_d (INTEGER_BUFFER_SIZE + 1) i in
    Some (str, String.length str).

(** The enumerators of rasqal_literal_type are declared in rasqal.h, which
    is not among the sources.  The values below are the ones the positional
    tables of this file ([sparql_xsd_names], [parent_xsd_type]) spell out:
    their comments name the enumerator of every index. *)
Definition RASQAL_LITERAL_UNKNOWN : Z := 0.
Definition RASQAL_LITERAL_BLANK : Z := 1.
Definition RASQAL_LITERAL_URI : Z := 2.
Definition RASQAL_LITERAL_STRING : Z := 3.
Definition RASQAL_LITERAL_XSD_STRING : Z := 4.
Definition RASQAL_LITERAL_BOOLEAN : Z := 5.
Definition RASQAL_LITERAL_INTEGER : Z := 6.
Definition RASQAL_LITERAL_FLOAT : Z := 7.
Definition RASQAL_LITERAL_DOUBLE : Z := 8.
Definition RASQAL_LITERAL_DECIMAL : Z := 9.
Definition RASQAL_LITERAL_DATETIME : Z := 10.
Definition RASQAL_LITERAL_UDT : Z := 11.
Definition RASQAL_LITERAL_PATTERN : Z := 12.
Definition RASQAL_LITERAL_QNAME : Z := 13.
Definition RASQAL_LITERAL_VARIABLE : Z := 14.
Definition RASQAL_LITERAL_FIRST_XSD : Z := RASQAL_LITERAL_XSD_STRING.
Definition RASQAL_LITERAL_LAST_XSD : Z := RASQAL_LITERAL_DATETIME.

Definition XSD_INTEGER_DERIVED_COUNT : Z := 12.
Definition XSD_INTEGER_DERIVED_FIRST : Z := RASQAL_LITERAL_LAST_XSD + 1.
Definition XSD_INTEGER_DERIVED_LAST : Z :=
  RASQAL_LITERAL_LAST_XSD + XSD_INTEGER_DERIVED_COUNT - 1.
Definition SPARQL_XSD_NAMES_COUNT : Z :=
  RASQAL_LITERAL_LAST_XSD + 1 + XSD_INTEGER_DERIVED_COUNT.

(** Lines 381-401. *)
Definition sparql_xsd_names : list (option string) :=
  [ None; None; None; None;
    Some "string"; Some "boolean"; Some "integer"; Some "float"; Some "double";
    Some "decimal"; Some "dateTime";
    Some "nonPositiveInteger"; Some "negativeInteger";
    Some "long"; Some "int"; Some "short"; Some "byte";
    Some "nonNegativeInteger"; Some "unsignedLong"; Some "postiveInteger";
    Some "unsignedInt"; Some "unsignedShort"; Some "unsignedByte";
    None ].

(** Lines 512-536. *)
Definition parent_xsd_type : list Z :=
  [ RASQAL_LITERAL_UNKNOWN; RASQAL_LITERAL_UNKNOWN; RASQAL_LITERAL_UNKNOWN;
    RASQAL_LITERAL_UNKNOWN; RASQAL_LITERAL_UNKNOWN;
    RASQAL_LITERAL_INTEGER; RASQAL_LITERAL_FLOAT; RASQAL_LITERAL_DOUBLE;
    RASQAL_LITERAL_DECIMAL; RASQAL_LITERAL_UNKNOWN; RASQAL_LITERAL_UNKNOWN;
    RASQAL_LITERAL_UNKNOWN; RASQAL_LITERAL_UNKNOWN; RASQAL_LITERAL_UNKNOWN;
    RASQAL_LITERAL_UNKNOWN ].

(** The part of the world this file uses.  A raptor URI is kept as its
    string: raptor_new_uri_from_uri_local_name appends the local name to
    the namespace string and raptor_uri_equals compares the strings. *)
Record xsd_world : Type := {
  xsd_namespace_uri : option string;
  xsd_datatype_uris : option (list (option string))
}.

Definition raptor_uri_equals (a b : option string) : bool :=
  match a, b with
  | Some x, Some y => streq x y
  | None, None => true
  | _, _ => false
  end.

(** The loop of lines 450-457 over the indices still to fill; [uri_ok i]
    says whether the URI of index [i] can be allocated. *)
Fixpoint fill_datatype_uris (ns : string) (uri_ok : nat -> bool)
    (indices : list nat) (uris : list (option string)) : Z * list (option string) :=
  match indices with
  | [] => (0, uris)
  | i :: rest =>
      match (if uri_ok i
             then option_map (String.append ns) (nth i sparql_xsd_names None)
             else None) with
      | Some u => fill_datatype_uris ns uri_ok rest (<[i := Some u]> uris)
      | None => (1, uris)
      end
  end.

(** rasqal_xsd_init, lines 436-460; [ns] is the XML Schema datatypes
    namespace string of raptor. *)
Definition rasqal_xsd_init (ns : string) (ns_ok table_ok : bool)
    (uri_ok : nat -> bool) : Z * xsd_world :=
  if negb ns_ok
  then (1, {| xsd_namespace_uri := None; xsd_datatype_uris := None |})
  else if negb table_ok
  then (1, {| xsd_namespace_uri := Some ns; xsd_datatype_uris := None |})
  else
    let r := fill_datatype_uris ns uri_ok
               (seq (Z.to_nat RASQAL_LITERAL_FIRST_XSD)
                    (Z.to_nat (SPARQL_XSD_NAMES_COUNT - RASQAL_LITERAL_FIRST_XSD)))
               (replicate (Z.to_nat (SPARQL_XSD_NAMES_COUNT + 1)) None) in
    (fst r, {| xsd_namespace_uri := Some ns; xsd_datatype_uris := Some (snd r) |}).

(** rasqal_xsd_datatype_type_to_uri, lines 508-515. *)
Definition rasqal_xsd_datatype_type_to_uri (world : xsd_world) (type : Z) :
    option string :=
  match xsd_datatype_uris world with
  | Some uris =>
      if (RASQAL_LITERAL_FIRST_XSD <=? type) && (type <=? RASQAL_LITERAL_LAST_XSD)
      then nth (Z.to_nat type) uris None
      else None
  | None => None
  end.

(** rasqal_xsd_datatype_is_numeric, lines 558-563 (the [int] as a [bool]);
    rasqal_xsd_datatype_parent_type, lines 590-599; the loop of
    rasqal_xsd_datatype_uri_to_type, lines 495-504. *)
Section XsdTypes.

Variable RASQAL_LITERAL_INTEGER_SUBTYPE : Z.

Definition rasqal_xsd_datatype_is_numeric (type : Z) : bool :=
  ((RASQAL_LITERAL_BOOLEAN <=? type) && (type <=? RASQAL_LITERAL_DECIMAL)) ||
  (type =? RASQAL_LITERAL_INTEGER_SUBTYPE).

Definition rasqal_xsd_datatype_parent_type (type : Z) : Z :=
  if type =? RASQAL_LITERAL_INTEGER_SUBTYPE then RASQAL_LITERAL_INTEGER
  else if (RASQAL_LITERAL_FIRST_XSD <=? type) && (type <=? RASQAL_LITERAL_LAST_XSD)
  then nth (Z.to_nat type) parent_xsd_type RASQAL_LITERAL_UNKNOWN
  else RASQAL_LITERAL_UNKNOWN.

(** Indices [i], [i+1], ... up to XSD_INTEGER_DERIVED_LAST; [steps] is the
    number of turns left. *)
Fixpoint scan_datatype_uris (uris : list (option string)) (uri : string)
    (i : Z) (steps : nat) : Z :=
  match steps with
  | O => RASQAL_LITERAL_UNKNOWN
  | S k =>
      if raptor_uri_equals (Some uri) (nth (Z.to_nat i) uris None)
      then (if XSD_INTEGER_DERIVED_FIRST <=? i
            then RASQAL_LITERAL_INTEGER_SUBTYPE else i)
      else scan_datatype_uris uris uri (i + 1) k
  end.

(** rasqal_xsd_datatype_uri_to_type, lines 486-505. *)
Definition rasqal_xsd_datatype_uri_to_type (world : xsd_world) (uri : option string) : Z :=
  match uri, xsd_datatype_uris world with
  | Some u, Some uris =>
      scan_datatype_uris uris u RASQAL_LITERAL_FIRST_XSD
        (Z.to_nat (XSD_INTEGER_DERIVED_LAST - RASQAL_LITERAL_FIRST_XSD + 1))
  | _, _ => RASQAL_LITERAL_UNKNOWN
  end.

(** rasqal_xsd_is_datatype_uri, lines 551-555. *)
Definition rasqal_xsd_is_datatype_uri (world : xsd_world) (uri : option string) : bool :=
  negb (rasqal_xsd_datatype_uri_to_type world uri =? RASQAL_LITERAL_UNKNOWN).

End XsdTypes.

(** rasqal_xsd_datatype_check, lines 528-541, with its table
    [sparql_xsd_checkfns] of lines 424-433.  The integer, double, float and
    dateTime checks hand the string to strtol, strtod and
    rasqal_xsd_datetime_check, which are not part of the sources; they are
    taken as given functions. *)
Section XsdCheck.

Variable rasqal_xsd_check_integer_format : string -> Z -> Z.
Variable rasqal_xsd_check_double_format : string -> Z -> Z.
Variable rasqal_xsd_check_float_format : string -> Z -> Z.
Variable rasqal_xsd_check_dateTime_format : string -> Z -> Z.

Definition sparql_xsd_checkfns : list (option (string -> Z -> Z)) :=
  [ None;
    Some rasqal_xsd_check_boolean_format;
    Some rasqal_xsd_check_integer_format;
    Some rasqal_xsd_check_double_format;
    Some rasqal_xsd_check_float_format;
    Some rasqal_xsd_check_decimal_format;
    Some rasqal_xsd_check_dateTime_format ].

Definition rasqal_xsd_datatype_check (native_type : Z) (s : string) (flags : Z) : Z :=
  let checkidx := native_type - RASQAL_LITERAL_FIRST_XSD in
  if (checkidx <? 0) || (checkidx >=? Z.of_nat (length sparql_xsd_checkfns))
  then 1
  else
    match nth (Z.to_nat checkidx) sparql_xsd_checkfns None with
    | None => 1
    | Some check => check s flags
    end.

End XsdCheck.

(** The check from the first character after the sign. *)
Definition decimal_body (p : string) : Z :=
  match skip_digits p with
  | EmptyString => 1
  | String c rest =>
      if negb (Ascii.eqb c ".") then 0
      else match skip_digits rest with
           | EmptyString => 1
           | String _ _ => 0
           end
  end.

(** The lexical space that the decimal check accepts: an optional sign,
    digits, and optionally a dot followed by digits; after a sign the
    string must go on. *)
Definition all_digits (s : string) : bool := all_chars isdigit s.

Definition decimal_shape (s : string) : Prop :=
  exists sign whole rest : string,
    s = (sign ++ whole ++ rest)%string /\
    (sign = ""%string \/ sign = "+"%string \/ sign = "-"%string) /\
    all_digits whole = true /\
    (rest = ""%string \/
     exists frac, rest = String "." frac /\ all_digits frac = true) /\
    (sign <> ""%string -> (whole ++ rest)%string <> ""%string).

(** ** Vocabulary of the further properties *)

(** The flag test of line 202, as the candidate passing it. *)
Definition accepts (flags : Z) (f : format_factory) : bool :=
  (flags =? 0) || (factory_flags f =? flags).

Definition lists_name (n : string) (f : format_factory) : bool :=
  match names (desc f) with
  | Some arr => string_array_has arr n
  | None => false
  end.

Definition names_declared (f : format_factory) : Prop := is_Some (names (desc f)).

(** The score that the MIME type earns a factory at lines 606-618: the
    quality of the entry found for it, the quality written in the
    terminating entry when no entry carries it, and -1 when no MIME type
    is supplied or the factory declares no table. *)
Definition mime_points (mime : option string) (f : format_factory) : Z :=
  match mime, mime_types (desc f) with
  | Some m, Some tbl =>
      match declared_entry tbl m with
      | Some e => q e
      | None => terminator_q tbl
      end
  | _, _ => -1
  end.

(** The arguments every [recognise_syntax] call of one sniff receives. *)
Definition shown_args (buf : option (list byte)) (len : nat)
    (identifier mime : option string) : recognise_args :=
  {| arg_buffer := cut_buffer buf len; arg_len := len;
     arg_identifier := identifier; arg_suffix := extract_suffix identifier;
     arg_mime_type := mime |}.

Definition affinity (a : recognise_args) (f : format_factory) : Z :=
  match recognise_syntax f with
  | Some recognise => recognise a
  | None => 0
  end.

Definition recorded_score (mime : option string) (a : recognise_args)
    (f : format_factory) : Z :=
  Z.min 10 (mime_points mime f + affinity a f).

(** The two ways a factory ends the scan of the sniffer. *)
Definition stops_scan (uri mime : option string) (f : format_factory) : Prop :=
  10 <= mime_points mime f \/ matches_uri uri f.

Definition recognisers (fs : list format_factory) : nat :=
  length (List.filter (fun f => is_set (recognise_syntax f)) fs).

Definition first_name_of (f : format_factory) : option string :=
  match names (desc f) with
  | Some arr => arr !! 0%nat
  | None => None
  end.

Definition score_entry (mime : option string) (a : recognise_args)
    (f : format_factory) : syntax_score :=
  {| score := recorded_score mime a f; factory := Some f |}.

Definition tsv_registration (f : format_factory) : Z * format_factory :=
  (0, sample_factory ["tsv"; "tab-separated-values"] None None (Some 6%positive) None None).

Definition finish_calls (trace : list callback) : nat :=
  length (List.filter (fun c => match c with
                                | CalledFinish _ _ => true
                                | CalledInit _ _ _ => false
                                end) trace).

(** The context a new formatter starts with: [context_length] zero bytes,
    or NULL when the factory asks for none. *)
Definition fresh_formatter (f : format_factory) : rasqal_query_results_formatter :=
  {| formatter_factory := f;
     context := if context_length f =? 0 then None
                else Some (replicate (Z.to_nat (context_length f)) x00) |}.

(** A factory with an alias that is the first name of the XML factory. *)
Definition alias_factory : format_factory :=
  {| desc := {| names := Some ["rs"; "xml"]; label := Some "alias";
                mime_types := None; uri_strings := None; flags := 0 |};
     context_length := 4; init := Some 11%positive; finish := Some 12%positive;
     write := Some 13%positive; get_rowsource := None; recognise_syntax := None |}.

Definition sample_init (p : code_ptr) (fm : rasqal_query_results_formatter)
    (name : option string) : Z * option (list byte) :=
  (0, context fm).

Definition refusing_init (p : code_ptr) (fm : rasqal_query_results_formatter)
    (name : option string) : Z * option (list byte) :=
  (1, context fm).

(** The range of the C type [int]. *)
Definition INT_MIN : Z := -2147483648.
Definition INT_MAX : Z := 2147483647.

Definition fits_int (z : Z) : Prop := INT_MIN <= z <= INT_MAX.

(** The subtraction of line 529 stays within [int] for every two elements
    of the array; only then is [compare_syntax_score] the order that qsort
    is given. *)
Definition compare_within_int (l : list syntax_score) : Prop :=
  forall a b, a ∈ l -> b ∈ l -> fits_int (compare_syntax_score a b).

(** The sum of line 649 stays within [int], and far enough above INT_MIN
    for the subtraction of line 529 to stay within [int] against any
    recorded score (none exceeds 10). *)
Definition score_within_int (mime : option string) (a : recognise_args)
    (f : format_factory) : Prop :=
  INT_MIN + 11 <= mime_points mime f + affinity a f <= INT_MAX.

(** Two outcomes of the loop, or of the sniffer, that differ at most in the
    buffer they hand back. *)
Definition same_exit (r r' : outcome loop_exit) : Prop :=
  match r, r' with
  | Ret x, Ret x' =>
      reg_factory x = reg_factory x' /\ reg_i x = reg_i x' /\
      reg_scores x = reg_scores x' /\ calls (reg_state x) = calls (reg_state x')
  | Crash e, Crash e' => e = e'
  | _, _ => False
  end.

Definition same_answer (r r' : outcome (option string * sniff_state)) : Prop :=
  match r, r' with
  | Ret (name, st), Ret (name', st') => name = name' /\ calls st = calls st'
  | Crash e, Crash e' => e = e'
  | _, _ => False
  end.

(** A factory whose MIME table lists one type at quality 5 and ends with an
    entry [{NULL, 0, 10}]. *)
Definition loud_factory : format_factory :=
  sample_factory ["loud"]
    (Some {| entries := [ {| mime_type := "text/loud"; mime_type_len := 9; q := 5 |} ];
             terminator_q := 10 |})
    None (Some 7%positive) None None.

(** A sniff-only factory that answers 8 to every buffer. *)
Definition steady_factory : format_factory :=
  sample_factory ["plain"] None None None None (Some (fun _ => 8)).

(** * Facts about the selector *)

Lemma string_array_has_true (arr : list string) (k : string) :
  string_array_has arr k = true <-> k ∈ arr.
Proof.
  induction arr as [|s rest IH]; simpl.
  - split; [discriminate | intros H; inversion H].
  - unfold streq. destruct (String.eqb_spec s k) as [->|Hne].
    + split; [intros _; apply list_elem_of_here | reflexivity].
    + rewrite IH, elem_of_cons. split; [tauto | intros [->|H]; [congruence | exact H]].
Qed.

Lemma string_array_has_false (arr : list string) (k : string) :
  string_array_has arr k = false <-> k ∉ arr.
Proof.
  rewrite <- string_array_has_true. destruct (string_array_has arr k); split; congruence.
Qed.

Lemma type_q_has_true (es : list raptor_type_q) (k : string) :
  type_q_has es k = true <-> exists e, e ∈ es /\ mime_type e = k.
Proof.
  induction es as [|e rest IH]; simpl.
  - split; [discriminate | intros (e & H & _); inversion H].
  - unfold streq. destruct (String.eqb_spec (mime_type e) k) as [Heq|Hne].
    + split; [intros _; exists e; split; [apply list_elem_of_here | exact Heq] | reflexivity].
    + rewrite IH. split.
      * intros (e' & Hin & He'). exists e'. split; [apply list_elem_of_further, Hin | exact He'].
      * intros (e' & Hin & He'). apply elem_of_cons in Hin as [->|Hin]; [congruence|].
        exists e'. split; assumption.
Qed.

Lemma flag_test_accepts (flags : Z) (f : format_factory) :
  negb (flags =? 0) && negb (factory_flags f =? flags) = false <-> flags_accepted flags f.
Proof.
  unfold flags_accepted.
  destruct (Z.eqb_spec flags 0), (Z.eqb_spec (factory_flags f) flags); simpl;
    split; try tauto; try discriminate; intros [?|?]; congruence.
Qed.

Lemma flag_test_refuses (flags : Z) (f : format_factory) :
  flags <> 0 -> factory_flags f <> flags ->
  negb (flags =? 0) && negb (factory_flags f =? flags) = true.
Proof.
  intros H0 Hne.
  destruct (Z.eqb_spec flags 0), (Z.eqb_spec (factory_flags f) flags); simpl; congruence.
Qed.

Lemma not_both_null (name uri : option string) :
  is_Some name \/ is_Some uri -> negb (is_set name) && negb (is_set uri) = false.
Proof.
  intros [[x ->]|[x ->]]; simpl; [reflexivity | apply andb_false_r].
Qed.

Lemma by_uri_true (uri : option string) (f : format_factory) :
  match uri, uri_strings (desc f) with
  | Some u, Some arr => string_array_has arr u
  | _, _ => false
  end = true <-> matches_uri uri f.
Proof.
  unfold matches_uri. destruct uri as [u|], (uri_strings (desc f)) as [arr|].
  - rewrite string_array_has_true. split.
    + intros H. exists u, arr. auto.
    + intros (u' & arr' & [= <-] & [= <-] & H). exact H.
  - split; [discriminate | intros (? & ? & _ & [=] & _)].
  - split; [discriminate | intros (? & ? & [=] & _)].
  - split; [discriminate | intros (? & ? & [=] & _)].
Qed.

Lemma examine_refused (name uri mime : option string) (flags : Z) (f : format_factory) :
  flags <> 0 -> factory_flags f <> flags ->
  examine_candidate name uri mime flags f = Ret NextOne.
Proof.
  intros H0 Hne. unfold examine_candidate.
  rewrite flag_test_refuses by assumption. reflexivity.
Qed.

Lemma examine_passed_over (name uri mime : option string) (flags : Z) (f : format_factory) :
  is_Some name \/ is_Some uri ->
  passed_over name uri mime flags f ->
  examine_candidate name uri mime flags f = Ret NextOne.
Proof.
  intros Hgiven Hpass. unfold examine_candidate.
  destruct (negb (flags =? 0) && negb (factory_flags f =? flags)) eqn:Hfl; [reflexivity|].
  apply flag_test_accepts in Hfl.
  destruct (Hpass Hfl) as (Hn & Hu & Hm & Hnames & Hmimes).
  rewrite not_both_null by assumption.
  assert (Hname : match name with
                  | Some n => match names (desc f) with
                              | Some arr => Ret (string_array_has arr n)
                              | None => Crash NullNames
                              end
                  | None => Ret false
                  end = Ret false).
  { destruct name as [n|]; [|reflexivity].
    destruct Hnames as [arr Harr]; [eexists; reflexivity|]. rewrite Harr. f_equal.
    apply string_array_has_false. intros Hin. apply Hn. exists n, arr. auto. }
  rewrite Hname. simpl.
  destruct (match uri, uri_strings (desc f) with
            | Some u, Some arr => string_array_has arr u
            | _, _ => false
            end) eqn:Huri.
  { apply by_uri_true in Huri. contradiction. }
  destruct mime as [m|]; [|reflexivity].
  destruct Hmimes as [tbl Htbl]; [eexists; reflexivity|]. rewrite Htbl.
  destruct (type_q_has (entries tbl) m) eqn:Hhas; [|reflexivity].
  apply type_q_has_true in Hhas as (e & Hin & He).
  exfalso. apply Hm. exists m, tbl, e. auto.
Qed.

Lemma examine_taken (name uri mime : option string) (flags : Z) (f : format_factory) :
  is_Some name \/ is_Some uri ->
  taken name uri mime flags f ->
  examine_candidate name uri mime flags f = Ret Selected.
Proof.
  intros Hgiven [Hfl Hmatch]. unfold examine_candidate.
  apply flag_test_accepts in Hfl. rewrite Hfl.
  rewrite not_both_null by assumption.
  destruct Hmatch as [(n & arr & -> & Harr & Hin) | [Hnames Hother]].
  - rewrite Harr. apply string_array_has_true in Hin. rewrite Hin. reflexivity.
  - destruct name as [n|]; simpl.
    + destruct Hnames as [arr Harr]; [eexists; reflexivity|]. rewrite Harr. simpl.
      destruct (string_array_has arr n); [reflexivity|].
      destruct Hother as [Hu | (m & tbl & e & -> & Htbl & Hin & He)].
      * apply by_uri_true in Hu. rewrite Hu. reflexivity.
      * destruct (match uri, uri_strings (desc f) with
                  | Some u, Some arr => string_array_has arr u
                  | _, _ => false
                  end); [reflexivity|].
        rewrite Htbl.
        assert (Hhas : type_q_has (entries tbl) m = true)
          by (apply type_q_has_true; eauto).
        rewrite Hhas. reflexivity.
    + destruct Hother as [Hu | (m & tbl & e & -> & Htbl & Hin & He)].
      * apply by_uri_true in Hu. rewrite Hu. reflexivity.
      * destruct (match uri, uri_strings (desc f) with
                  | Some u, Some arr => string_array_has arr u
                  | _, _ => false
                  end); [reflexivity|].
        rewrite Htbl.
        assert (Hhas : type_q_has (entries tbl) m = true)
          by (apply type_q_has_true; eauto).
        rewrite Hhas. reflexivity.
Qed.

Lemma examine_selected_accepted (name uri mime : option string) (flags : Z)
    (f : format_factory) :
  examine_candidate name uri mime flags f = Ret Selected -> flags_accepted flags f.
Proof.
  unfold examine_candidate. intros H.
  destruct (negb (flags =? 0) && negb (factory_flags f =? flags)) eqn:Hfl; [discriminate|].
  apply flag_test_accepts in Hfl. exact Hfl.
Qed.

Lemma scan_past (name uri mime : option string) (flags : Z)
    (pre : list format_factory) (rest : list factory_cell) :
  Forall (fun f => examine_candidate name uri mime flags f = Ret NextOne) pre ->
  scan_factories name uri mime flags (map Live pre ++ rest)
  = scan_factories name uri mime flags rest.
Proof.
  induction 1 as [|f pre Hf _ IH]; simpl; [reflexivity|].
  rewrite Hf. simpl. exact IH.
Qed.

Lemma scan_selected (name uri mime : option string) (flags : Z)
    (cells : list factory_cell) (f : format_factory) :
  scan_factories name uri mime flags cells = Ret (Some f) ->
  Live f ∈ cells /\ flags_accepted flags f.
Proof.
  induction cells as [|[g|] rest IH]; simpl; try discriminate.
  destruct (examine_candidate name uri mime flags g) as [[|]|e] eqn:Hex; simpl;
    try discriminate.
  - intros [= ->]. split; [apply list_elem_of_here | eapply examine_selected_accepted, Hex].
  - intros H. destruct (IH H) as [Hin Hacc]. split; [apply list_elem_of_further, Hin | exact Hacc].
Qed.

Lemma examine_next_passed_over (name uri mime : option string) (flags : Z)
    (f : format_factory) :
  is_Some name \/ is_Some uri ->
  examine_candidate name uri mime flags f = Ret NextOne ->
  passed_over name uri mime flags f.
Proof.
  intros Hgiven Hex Hacc. unfold examine_candidate in Hex.
  apply flag_test_accepts in Hacc. rewrite Hacc in Hex.
  rewrite not_both_null in Hex by assumption.
  assert (Hn : ~ matches_name name f /\ (is_Some name -> is_Some (names (desc f))) /\
               match mime with
               | Some m => match mime_types (desc f) with
                           | Some tbl => type_q_has (entries tbl) m = false
                           | None => False
                           end
               | None => True
               end /\ ~ matches_uri uri f).
  { destruct name as [n|]; simpl in Hex.
    - destruct (names (desc f)) as [arr|] eqn:Harr; simpl in Hex; [|discriminate].
      destruct (string_array_has arr n) eqn:Hhas; [discriminate|].
      split; [|split; [intros _; eexists; reflexivity|]].
      + intros (n' & arr' & [= <-] & Harr' & Hin). rewrite Harr in Harr'.
        injection Harr' as <-. apply string_array_has_true in Hin. congruence.
      + destruct (match uri, uri_strings (desc f) with
                  | Some u, Some arr => string_array_has arr u
                  | _, _ => false
                  end) eqn:Hu; [discriminate|].
        split; [|rewrite <- by_uri_true; congruence].
        destruct mime as [m|]; [|exact I].
        destruct (mime_types (desc f)) as [tbl|]; [|discriminate].
        destruct (type_q_has (entries tbl) m); [discriminate | reflexivity].
    - split; [intros (? & ? & [=] & _)|]. split; [intros [? [=]]|].
      destruct (match uri, uri_strings (desc f) with
                | Some u, Some arr => string_array_has arr u
                | _, _ => false
                end) eqn:Hu; [discriminate|].
      split; [|rewrite <- by_uri_true; congruence].
      destruct mime as [m|]; [|exact I].
      destruct (mime_types (desc f)) as [tbl|]; [|discriminate].
      destruct (type_q_has (entries tbl) m); [discriminate | reflexivity]. }
  destruct Hn as (Hname & Hnames & Hmime & Huri).
  split; [exact Hname|]. split; [exact Huri|]. split.
  - intros (m & tbl & e & -> & Htbl & Hin & He). rewrite Htbl in Hmime.
    assert (type_q_has (entries tbl) m = true) by (apply type_q_has_true; eauto).
    congruence.
  - split; [exact Hnames|]. intros [m ->].
    destruct (mime_types (desc f)); [eexists; reflexivity | contradiction].
Qed.

Lemma examine_returns (name uri mime : option string) (flags : Z) (f : format_factory) :
  is_Some (names (desc f)) -> is_Some (mime_types (desc f)) ->
  exists v, examine_candidate name uri mime flags f = Ret v.
Proof.
  intros [arr Harr] [tbl Htbl]. unfold examine_candidate. rewrite Harr, Htbl.
  destruct (negb (flags =? 0) && negb (factory_flags f =? flags)); [eauto|].
  destruct (negb (is_set name) && negb (is_set uri)); [eauto|].
  destruct name as [n|]; simpl.
  - destruct (string_array_has arr n); [eauto|].
    destruct (match uri with Some u => _ | None => _ end); [eauto|].
    destruct mime; eauto.
  - destruct (match uri with Some u => _ | None => _ end); [eauto|].
    destruct mime; eauto.
Qed.

Lemma scan_returns (name uri mime : option string) (flags : Z) (cells : list factory_cell) :
  all_arrays_declared cells ->
  exists r, scan_factories name uri mime flags cells = Ret r.
Proof.
  induction 1 as [|c rest (f & -> & Hn & Hm) _ IH]; simpl; [eauto|].
  destruct (examine_returns name uri mime flags f Hn Hm) as [v Hv]. rewrite Hv. simpl.
  destruct v; eauto.
Qed.

(** C6: with a non-zero flags request, a candidate whose derived flags
    are not equal to the request is skipped by the loop body, and the
    factory that the selector returns always has derived flags equal to the
    request; a request for exactly READER therefore never returns a factory
    that supplies both a row source and a writer. *)
Theorem resolve_flags_strict_equality :
  forall (world : rasqal_world) (name uri mime : option string) (flags : Z),
    flags <> 0 ->
    (forall g, factory_flags g <> flags ->
               examine_candidate name uri mime flags g = Ret NextOne) /\
    (forall f,
        rasqal_get_query_results_formatter_factory world name uri mime flags
        = Ret (Some f) ->
        Live f ∈ query_results_formats world /\
        factory_flags f = flags /\
        (flags = RASQAL_QUERY_RESULTS_FORMAT_FLAG_READER ->
         ~ (is_Some (get_rowsource f) /\ is_Some (write f)))).
Proof.
  intros world name uri mime flags Hnz. split.
  - intros g Hg. apply examine_refused; assumption.
  - intros f Hres. apply scan_selected in Hres as [Hin [Hz|Hfl]]; [contradiction|].
    split; [exact Hin|]. split; [exact Hfl|].
    intros -> [[g Hg] [w Hw]]. unfold factory_flags in Hfl.
    rewrite Hg, Hw in Hfl. discriminate Hfl.
Qed.

Lemma resolve_flags_strict_equality_witness :
  rasqal_get_query_results_formatter_factory
    {| query_results_formats := [Live xml_factory; Live reader_factory] |}
    None None None RASQAL_QUERY_RESULTS_FORMAT_FLAG_READER
  = Ret (Some reader_factory) /\
  factory_flags reader_factory = RASQAL_QUERY_RESULTS_FORMAT_FLAG_READER /\
  examine_candidate None None None RASQAL_QUERY_RESULTS_FORMAT_FLAG_READER xml_factory
  = Ret NextOne.
Proof.
  assert (Hnz : RASQAL_QUERY_RESULTS_FORMAT_FLAG_READER <> 0) by discriminate.
  destruct (resolve_flags_strict_equality
              {| query_results_formats := [Live xml_factory; Live reader_factory] |}
              None None None RASQAL_QUERY_RESULTS_FORMAT_FLAG_READER Hnz)
    as [Hskip Hres].
  split; [reflexivity|]. split.
  - exact (proj1 (proj2 (Hres reader_factory eq_refl))).
  - apply Hskip. discriminate.
Defined.

(** C2 (as stated, refuted): a request for the name "json" and the URI of
    the XML format, on a registry where the XML factory was registered
    first, returns the XML factory, not the one named "json". *)
Lemma name_does_not_beat_earlier_uri : ~ name_beats_uri_everywhere.
Proof.
  intros H.
  specialize (H {| query_results_formats := [Live xml_factory; Live json_factory] |}
                "json" "http://www.w3.org/2005/sparql-results#" None 0 json_factory).
  assert (Hin : Live json_factory ∈ [Live xml_factory; Live json_factory])
    by (apply list_elem_of_further, list_elem_of_here).
  assert (Hname : matches_name (Some "json") json_factory).
  { exists "json", ["json"]. repeat split. apply list_elem_of_here. }
  specialize (H Hin Hname).
  apply (f_equal (fun r => match r with
                           | Ret (Some f) => names (desc f)
                           | _ => None
                           end)) in H.
  discriminate H.
Qed.

(** C2 (amended): for a request that supplies a name and a URI, the
    selector returns the first candidate in registration order whose flags
    are accepted and that matches the name, or else the URI, or else the
    MIME type; the name has priority over the URI only inside one
    candidate.  A factory whose names contain the requested name is thus
    returned when every candidate registered before it is passed over. *)
Theorem resolve_first_taken_candidate :
  forall (pre : list format_factory) (c : format_factory) (post : list factory_cell)
         (n u : string) (mime : option string) (flags : Z),
    Forall (passed_over (Some n) (Some u) mime flags) pre ->
    taken (Some n) (Some u) mime flags c ->
    rasqal_get_query_results_formatter_factory
      {| query_results_formats := map Live pre ++ Live c :: post |}
      (Some n) (Some u) mime flags
    = Ret (Some c).
Proof.
  intros pre c post n u mime flags Hpre Htaken.
  assert (Hgiven : is_Some (Some n) \/ is_Some (Some u)) by (left; eexists; reflexivity).
  unfold rasqal_get_query_results_formatter_factory. simpl.
  rewrite scan_past.
  - simpl. rewrite (examine_taken _ _ _ _ _ Hgiven Htaken). reflexivity.
  - eapply Forall_impl; [exact Hpre|]. intros f Hf. apply examine_passed_over; assumption.
Qed.

Lemma resolve_first_taken_candidate_witness :
  rasqal_get_query_results_formatter_factory
    {| query_results_formats := map Live [xml_factory; csv_factory] ++ Live json_factory :: [] |}
    (Some "json") (Some "http://example.org/other") (Some "application/json") 0
  = Ret (Some json_factory).
Proof.
  apply resolve_first_taken_candidate.
  - constructor;
      [apply examine_next_passed_over; [left; eexists; reflexivity | reflexivity]|].
    constructor;
      [apply examine_next_passed_over; [left; eexists; reflexivity | reflexivity]|].
    constructor.
  - split; [left; reflexivity|]. left.
    exists "json", ["json"]. repeat split. apply list_elem_of_here.
Defined.

(** C9: the MIME type scan of the selector indexes [mime_types] without
    testing it.  When a name or a URI is supplied together with a MIME type
    and the scan reaches a candidate whose flags are accepted, that declares
    no MIME types and matches neither the name nor the URI, the run ends in
    the NULL dereference; on a registry in which every factory declares its
    names and its MIME types the selector always returns. *)
Theorem resolve_indexes_absent_mime_types :
  (forall (pre : list format_factory) (c : format_factory) (post : list factory_cell)
          (name uri : option string) (m : string) (flags : Z),
      is_Some name \/ is_Some uri ->
      Forall (passed_over name uri (Some m) flags) pre ->
      flags_accepted flags c ->
      mime_types (desc c) = None ->
      ~ matches_name name c -> ~ matches_uri uri c ->
      (is_Some name -> is_Some (names (desc c))) ->
      rasqal_get_query_results_formatter_factory
        {| query_results_formats := map Live pre ++ Live c :: post |}
        name uri (Some m) flags
      = Crash NullMimeTypes) /\
  (forall (world : rasqal_world) (name uri mime : option string) (flags : Z),
      all_arrays_declared (query_results_formats world) ->
      exists r, rasqal_get_query_results_formatter_factory world name uri mime flags
                = Ret r).
Proof.
  split.
  - intros pre c post name uri m flags Hgiven Hpre Hacc Hnone Hname Huri Hnames.
    unfold rasqal_get_query_results_formatter_factory. simpl.
    rewrite scan_past.
    + simpl. unfold examine_candidate.
      apply flag_test_accepts in Hacc. rewrite Hacc.
      rewrite not_both_null by assumption.
      assert (Hn : match name with
                   | Some n => match names (desc c) with
                               | Some arr => Ret (string_array_has arr n)
                               | None => Crash NullNames
                               end
                   | None => Ret false
                   end = Ret false).
      { destruct name as [n|]; [|reflexivity].
        destruct Hnames as [arr Harr]; [eexists; reflexivity|]. rewrite Harr. f_equal.
        apply string_array_has_false. intros Hin. apply Hname. exists n, arr. auto. }
      rewrite Hn. simpl.
      destruct (match uri, uri_strings (desc c) with
                | Some u, Some arr => string_array_has arr u
                | _, _ => false
                end) eqn:Hu.
      { apply by_uri_true in Hu. contradiction. }
      rewrite Hnone. reflexivity.
    + eapply Forall_impl; [exact Hpre|]. intros f Hf. apply examine_passed_over; assumption.
  - intros world name uri mime flags Hall. apply scan_returns, Hall.
Qed.

Lemma resolve_indexes_absent_mime_types_witness :
  rasqal_get_query_results_formatter_factory
    {| query_results_formats := map Live [xml_factory] ++ Live reader_factory :: [Live json_factory] |}
    (Some "json") None (Some "application/json") 0
  = Crash NullMimeTypes.
Proof.
  apply (proj1 resolve_indexes_absent_mime_types).
  - left. eexists. reflexivity.
  - constructor; [|constructor].
    apply examine_next_passed_over; [left; eexists; reflexivity | reflexivity].
  - left. reflexivity.
  - reflexivity.
  - intros (n & arr & [= <-] & [= <-] & Hin).
    apply string_array_has_true in Hin. discriminate Hin.
  - intros (u & arr & [=] & _).
  - intros _. eexists. reflexivity.
Defined.

(** * Facts about suffix extraction *)

Lemma strrchr_absent (c : ascii) (s : string) :
  has_char c s = false -> strrchr s c = None.
Proof.
  induction s as [|a rest IH]; simpl; [reflexivity|].
  intros H. apply orb_false_iff in H as [Ha Hrest].
  rewrite (IH Hrest), Ha. reflexivity.
Qed.

Lemma strrchr_last (c : ascii) (pre suf : string) :
  has_char c suf = false ->
  strrchr (pre ++ String c suf)%string c = Some (String c suf).
Proof.
  intros Hsuf. induction pre as [|a pre IH]; simpl.
  - rewrite (strrchr_absent c suf Hsuf), Ascii.eqb_refl. reflexivity.
  - rewrite IH. reflexivity.
Qed.

Lemma tolower_of_other (c : ascii) : (if isupper c then tolower c else c) = tolower c.
Proof. unfold tolower. destruct (isupper c); reflexivity. Qed.

Lemma copy_suffix_all_or_nothing (s : string) :
  copy_suffix s = if all_alnum s then Some (lower_case s) else None.
Proof.
  induction s as [|c rest IH]; simpl; [reflexivity|].
  rewrite <- negb_orb. fold (isalnum c).
  destruct (isalnum c); simpl; [|reflexivity].
  rewrite IH, tolower_of_other. destruct (all_alnum rest); reflexivity.
Qed.

(** C7: the suffix is taken after the last dot of the identifier; it is
    the lower-cased text after that dot when every character there is
    alphanumeric, and there is no suffix at all when one character is not,
    or when the identifier has no dot.  "report.CSV" gives "csv",
    "no-dot-name" and "file.na-me" give no suffix. *)
Theorem suffix_extraction :
  (forall pre suf : string,
      has_char "." suf = false ->
      extract_suffix (Some (pre ++ String "." suf)%string)
      = if all_alnum suf then Some (lower_case suf) else None) /\
  (forall id : string,
      has_char "." id = false -> extract_suffix (Some id) = None) /\
  extract_suffix (Some "report.CSV") = Some "csv" /\
  extract_suffix (Some "no-dot-name") = None /\
  extract_suffix (Some "file.na-me") = None.
Proof.
  split; [|split; [|repeat split]].
  - intros pre suf Hsuf. unfold extract_suffix.
    rewrite (strrchr_last "." pre suf Hsuf). simpl.
    apply copy_suffix_all_or_nothing.
  - intros id Hid. unfold extract_suffix.
    rewrite (strrchr_absent "." id Hid). reflexivity.
Qed.

Lemma suffix_extraction_witness :
  extract_suffix (Some "archive.tar.GZ2") = Some "gz2" /\
  extract_suffix (Some "archive.tar.g_z") = None /\
  extract_suffix (Some "README") = None.
Proof.
  destruct suffix_extraction as (Hdot & Hnone & _).
  split; [|split].
  - exact (Hdot "archive.tar" "GZ2" eq_refl).
  - exact (Hdot "archive.tar" "g_z" eq_refl).
  - exact (Hnone "README" eq_refl).
Defined.

(** * Facts about registration *)

Lemma store_in_last_cell (seq : list factory_cell) (old new : factory_cell) :
  <[length seq := new]> (seq ++ [old]) = seq ++ [new].
Proof.
  rewrite insert_app_r_alt by lia. rewrite Nat.sub_diag. reflexivity.
Qed.

(** The three ways a registration can end once both allocations succeeded. *)
Lemma register_cases (world : rasqal_world)
    (reg : format_factory -> Z * format_factory) :
  rasqal_world_register_query_results_format_factory world true true reg
  = let rc := fst (reg factory_calloc) in
    let f := snd (reg factory_calloc) in
    if negb (rc =? 0)
    then ({| query_results_formats := query_results_formats world ++ [Live f] |}, None)
    else if missing_names_or_label (desc f)
    then ({| query_results_formats := query_results_formats world ++ [Freed] |}, None)
    else
      let f' := set_desc f (set_flags (desc f) (derived_flags f)) in
      ({| query_results_formats := query_results_formats world ++ [Live f'] |}, Some f').
Proof.
  unfold rasqal_world_register_query_results_format_factory, raptor_sequence_push,
    raptor_sequence_size, rasqal_free_query_results_format_factory.
  simpl. destruct (reg factory_calloc) as [rc f]. simpl.
  rewrite (store_in_last_cell (query_results_formats world) (Live factory_calloc) (Live f)).
  destruct (negb (rc =? 0)); [reflexivity|].
  destruct (missing_names_or_label (desc f)).
  - rewrite (store_in_last_cell (query_results_formats world) (Live f) Freed).
    reflexivity.
  - rewrite (store_in_last_cell (query_results_formats world) (Live f)
               (Live (set_desc f (set_flags (desc f) (derived_flags f))))).
    reflexivity.
Qed.

Lemma register_extends (world : rasqal_world) (c p : bool)
    (reg : format_factory -> Z * format_factory) :
  exists added,
    query_results_formats
      (fst (rasqal_world_register_query_results_format_factory world c p reg))
    = query_results_formats world ++ added.
Proof.
  destruct c; [|exists []; simpl; rewrite app_nil_r; reflexivity].
  destruct p; [|exists []; simpl; rewrite app_nil_r; reflexivity].
  rewrite register_cases. simpl.
  destruct (negb (fst (reg factory_calloc) =? 0)); [eexists; reflexivity|].
  destruct (missing_names_or_label (desc (snd (reg factory_calloc))));
    eexists; reflexivity.
Qed.

Lemma register_attempts_extend (l : list attempt) (world : rasqal_world) :
  exists added,
    query_results_formats (register_attempts world l)
    = query_results_formats world ++ added.
Proof.
  unfold register_attempts. revert world.
  induction l as [|a l IH]; intros world; simpl.
  - exists []. rewrite app_nil_r. reflexivity.
  - destruct (IH (register_attempt world a)) as [more Hmore].
    destruct (register_extends world (calloc_ok a) (push_ok a) (register_factory a))
      as [added Hadded].
    rewrite Hmore. unfold register_attempt at 1. rewrite Hadded, <- app_assoc.
    eexists. reflexivity.
Qed.

Lemma live_factories_app (l1 l2 : list factory_cell) :
  live_factories (l1 ++ l2) = live_factories l1 ++ live_factories l2.
Proof.
  induction l1 as [|[f|] l1 IH]; simpl; [reflexivity | rewrite IH; reflexivity | exact IH].
Qed.

(** C1 (as stated, refuted): a registration whose registration function
    fails leaves the factory it was handed in the registry, which is one
    element longer than before. *)
Lemma failed_registration_leaves_a_trace : ~ failed_registration_leaves_no_trace.
Proof.
  intros H.
  specialize (H {| query_results_formats := [] |} (fun f => (1, f))).
  assert (Hfails : fst ((fun f : format_factory => (1, f)) factory_calloc) <> 0 \/
                   missing_names_or_label
                     (desc (snd ((fun f : format_factory => (1, f)) factory_calloc))) = true)
    by (left; discriminate).
  specialize (H Hfails).
  apply (f_equal (fun r => length (query_results_formats (fst r)))) in H.
  discriminate H.
Qed.

(** C1 (amended): when the registration function fails, or the descriptor
    it filled in has no names array, an empty names array or no label, the
    registration returns no factory and every element the registry held
    before the call is unchanged at its index.  When the registration
    function fails the factory is not released: it stays in the registry as
    its new last element, as the registration function left it.  When the
    validation fails the factory is released and the live factories of the
    registry are the ones it had before. *)
Theorem failed_registration_outcome :
  forall (world : rasqal_world) (reg : format_factory -> Z * format_factory),
    fst (reg factory_calloc) <> 0 \/
    missing_names_or_label (desc (snd (reg factory_calloc))) = true ->
    let result := rasqal_world_register_query_results_format_factory world true true reg in
    snd result = None /\
    take (length (query_results_formats world)) (query_results_formats (fst result))
    = query_results_formats world /\
    (fst (reg factory_calloc) <> 0 ->
     query_results_formats (fst result)
     = query_results_formats world ++ [Live (snd (reg factory_calloc))]) /\
    (fst (reg factory_calloc) = 0 ->
     live_factories (query_results_formats (fst result))
     = live_factories (query_results_formats world)).
Proof.
  intros world reg Hfails result. subst result. rewrite register_cases. simpl.
  destruct (Z.eqb_spec (fst (reg factory_calloc)) 0) as [Hz|Hnz]; simpl.
  - destruct Hfails as [Hrc|Hmissing]; [contradiction|]. rewrite Hmissing. simpl.
    split; [reflexivity|]. split; [apply take_app_length|].
    split; [intros; contradiction|].
    intros _. rewrite live_factories_app. simpl. apply app_nil_r.
  - split; [reflexivity|]. split; [apply take_app_length|].
    split; [reflexivity | intros; contradiction].
Qed.

Lemma failed_registration_outcome_witness :
  (let result := rasqal_world_register_query_results_format_factory
                   {| query_results_formats := [Live csv_factory] |} true true
                   failing_registration in
   snd result = None /\
   query_results_formats (fst result)
   = [Live csv_factory; Live (snd (failing_registration factory_calloc))]) /\
  (let result := rasqal_world_register_query_results_format_factory
                   {| query_results_formats := [Live csv_factory] |} true true
                   nameless_registration in
   snd result = None /\
   live_factories (query_results_formats (fst result)) = [csv_factory]).
Proof.
  split.
  - assert (Hfails : fst (failing_registration factory_calloc) <> 0 \/
                     missing_names_or_label
                       (desc (snd (failing_registration factory_calloc))) = true)
      by (left; discriminate).
    destruct (failed_registration_outcome
                {| query_results_formats := [Live csv_factory] |}
                failing_registration Hfails) as (Hnone & _ & Hkept & _).
    split; [exact Hnone|]. apply Hkept. discriminate.
  - assert (Hfails : fst (nameless_registration factory_calloc) <> 0 \/
                     missing_names_or_label
                       (desc (snd (nameless_registration factory_calloc))) = true)
      by (right; reflexivity).
    destruct (failed_registration_outcome
                {| query_results_formats := [Live csv_factory] |}
                nameless_registration Hfails) as (Hnone & _ & _ & Hlive).
    split; [exact Hnone|]. apply Hlive. reflexivity.
Defined.

(** Not part of any contract, recorded for the reader: after a validation
    failure the sequence still holds the pointer to the released factory,
    and a later lookup of that index hands out a pointer into freed
    memory. *)
Example validation_failure_leaves_dangling_cell :
  let world := fst (rasqal_world_register_query_results_format_factory
                      {| query_results_formats := [] |} true true nameless_registration) in
  query_results_formats world = [Freed] /\
  rasqal_world_get_query_results_format_description world 0
  = Some (Crash UseAfterFree).
Proof. split; reflexivity. Qed.

(** Likewise recorded for the reader: the factory that a failed
    registration function leaves in the registry keeps the flags that the
    function wrote, which need not be the derived ones. *)
Example failed_attempt_keeps_written_flags :
  let world := fst (rasqal_world_register_query_results_format_factory
                      {| query_results_formats := [] |} true true failing_registration) in
  rasqal_world_get_query_results_format_description world 0
  = Some (Ret {| names := Some ["half"]; label := None; mime_types := None;
                 uri_strings := None; flags := 2 |}).
Proof. reflexivity. Qed.

(** A label that is present but is the empty string passes the test of
    line 82: only the pointer is tested. *)
Example empty_string_label_is_accepted :
  missing_names_or_label
    {| names := Some ["n"]; label := Some ""; mime_types := None;
       uri_strings := None; flags := 0 |} = false.
Proof. reflexivity. Qed.

Lemma derived_flags_reader (f : format_factory) :
  Z.land (derived_flags f) RASQAL_QUERY_RESULTS_FORMAT_FLAG_READER <> 0
  <-> is_Some (get_rowsource f).
Proof.
  unfold derived_flags.
  destruct (get_rowsource f), (write f); simpl; split;
    try (intros _; eexists; reflexivity); try (intros _; discriminate);
    try (intros H; contradiction H; reflexivity); intros [? [=]].
Qed.

Lemma derived_flags_writer (f : format_factory) :
  Z.land (derived_flags f) RASQAL_QUERY_RESULTS_FORMAT_FLAG_WRITER <> 0
  <-> is_Some (write f).
Proof.
  unfold derived_flags.
  destruct (get_rowsource f), (write f); simpl; split;
    try (intros _; eexists; reflexivity); try (intros _; discriminate);
    try (intros H; contradiction H; reflexivity); intros [? [=]].
Qed.

Lemma register_attempt_keeps_derived (world : rasqal_world) (a : attempt) :
  fst (register_factory a factory_calloc) = 0 ->
  registry_flags_derived (query_results_formats world) ->
  registry_flags_derived (query_results_formats (register_attempt world a)).
Proof.
  intros Hrc Hinv. unfold register_attempt.
  destruct (calloc_ok a); [|exact Hinv]. destruct (push_ok a); [|exact Hinv].
  rewrite register_cases. cbv zeta. rewrite Hrc. cbn [Z.eqb negb].
  unfold registry_flags_derived in *.
  destruct (missing_names_or_label (desc (snd (register_factory a factory_calloc))));
    cbn [fst query_results_formats]; rewrite live_factories_app.
  - cbn [live_factories]. rewrite app_nil_r. exact Hinv.
  - apply Forall_app. split; [exact Hinv|]. constructor; [reflexivity | constructor].
Qed.

Lemma register_attempts_keep_derived (attempts : list attempt) :
  Forall (fun a => fst (register_factory a factory_calloc) = 0) attempts ->
  forall world : rasqal_world,
    registry_flags_derived (query_results_formats world) ->
    registry_flags_derived (query_results_formats (register_attempts world attempts)).
Proof.
  unfold register_attempts.
  induction 1 as [|a l Ha _ IH]; intros world Hinv; cbn [fold_left]; [exact Hinv|].
  apply IH, register_attempt_keeps_derived; assumption.
Qed.

Lemma live_factories_elem (cells : list factory_cell) (f : format_factory) :
  f ∈ live_factories cells <-> Live f ∈ cells.
Proof.
  induction cells as [|[g|] cells IH]; cbn [live_factories].
  - split; intros H; inversion H.
  - rewrite !elem_of_cons, IH. split; intros [H|H]; auto; left; congruence.
  - rewrite elem_of_cons, IH. split; [auto | intros [H|H]; [discriminate | exact H]].
Qed.

(** Where the live factories of the registry come from after one attempt. *)
Lemma register_attempt_live (world : rasqal_world) (a : attempt) (f : format_factory) :
  f ∈ live_factories (query_results_formats (register_attempt world a)) ->
  f ∈ live_factories (query_results_formats world) \/
  flags (desc f) = derived_flags f \/
  (fst (register_factory a factory_calloc) <> 0 /\
   f = snd (register_factory a factory_calloc)).
Proof.
  unfold register_attempt.
  destruct (calloc_ok a); [|left; assumption]. destruct (push_ok a); [|left; assumption].
  rewrite register_cases. cbv zeta.
  destruct (Z.eqb_spec (fst (register_factory a factory_calloc)) 0) as [Hz|Hnz];
    cbn [negb].
  - destruct (missing_names_or_label (desc (snd (register_factory a factory_calloc))));
      cbn [fst query_results_formats]; rewrite live_factories_app;
      cbn [live_factories]; rewrite elem_of_app.
    + intros [H|H]; [left; exact H | inversion H].
    + intros [H|H]; [left; exact H|]. apply list_elem_of_singleton in H as ->.
      right. left. reflexivity.
  - cbn [fst query_results_formats]. rewrite live_factories_app.
    cbn [live_factories]. rewrite elem_of_app.
    intros [H|H]; [left; exact H|]. apply list_elem_of_singleton in H as ->.
    right. right. split; [exact Hnz | reflexivity].
Qed.

Lemma register_attempts_live (attempts : list attempt) :
  forall (world : rasqal_world) (f : format_factory),
    f ∈ live_factories (query_results_formats (register_attempts world attempts)) ->
    f ∈ live_factories (query_results_formats world) \/
    flags (desc f) = derived_flags f \/
    left_by_failed_registration attempts f.
Proof.
  unfold register_attempts.
  induction attempts as [|a l IH]; intros world f; cbn [fold_left]; [left; assumption|].
  intros Hin. destruct (IH _ _ Hin) as [Hold | [Hder | (b & Hb & Hrc & Hf)]].
  - destruct (register_attempt_live world a f Hold) as [H | [H | [Hrc Hf]]].
    + left. exact H.
    + right. left. exact H.
    + right. right. exists a. split; [apply list_elem_of_here | split; assumption].
  - right. left. exact Hder.
  - right. right. exists b. split; [apply list_elem_of_further, Hb | split; assumption].
Qed.

(** C5 (as stated, refuted): a registration function that reports failure
    after writing WRITER into [flags] leaves its factory in the registry;
    after the next, successful, registration the registry holds a factory
    whose WRITER bit is set although it supplies no [write]. *)
Lemma leftover_factory_keeps_written_flags : ~ every_present_factory_has_derived_flags.
Proof.
  intros H.
  specialize (H [ {| calloc_ok := true; push_ok := true;
                     register_factory := failing_registration |} ]
                mislabelled_registration _ _
                (snd (failing_registration factory_calloc)) eq_refl).
  destruct H as [_ Hwriter]; [apply list_elem_of_here|].
  destruct (proj1 Hwriter) as [w Hw]; [discriminate | discriminate Hw].
Qed.

(** C5 (amended): the factory that a successful registration returns stays
    at its index of the registry through every later registration attempt,
    and in its descriptor the READER bit is set exactly when the factory
    supplies [get_rowsource] and the WRITER bit exactly when it supplies
    [write], whatever the registration function wrote into [flags]; the
    behaviours are the ones the registration function supplied.  In a
    registry built from the empty one by registration functions that report
    success, this holds of every factory present.  After any run of
    attempts, a factory present in the registry either has its flags so
    derived or was left there by a registration function that reported
    failure, and is as that function wrote it. *)
Theorem registered_flags_are_derived :
  (forall (world world' : rasqal_world) (c p : bool)
          (reg : format_factory -> Z * format_factory) (f : format_factory)
          (later : list attempt),
      rasqal_world_register_query_results_format_factory world c p reg
      = (world', Some f) ->
      query_results_formats (register_attempts world' later)
        !! length (query_results_formats world) = Some (Live f) /\
      (Z.land (flags (desc f)) RASQAL_QUERY_RESULTS_FORMAT_FLAG_READER <> 0
       <-> is_Some (get_rowsource f)) /\
      (Z.land (flags (desc f)) RASQAL_QUERY_RESULTS_FORMAT_FLAG_WRITER <> 0
       <-> is_Some (write f)) /\
      get_rowsource f = get_rowsource (snd (reg factory_calloc)) /\
      write f = write (snd (reg factory_calloc))) /\
  (forall (attempts : list attempt) (f : format_factory),
      Forall (fun a => fst (register_factory a factory_calloc) = 0) attempts ->
      f ∈ live_factories
            (query_results_formats
               (register_attempts {| query_results_formats := [] |} attempts)) ->
      (Z.land (flags (desc f)) RASQAL_QUERY_RESULTS_FORMAT_FLAG_READER <> 0
       <-> is_Some (get_rowsource f)) /\
      (Z.land (flags (desc f)) RASQAL_QUERY_RESULTS_FORMAT_FLAG_WRITER <> 0
       <-> is_Some (write f))) /\
  (forall (attempts : list attempt) (f : format_factory),
      Live f ∈ query_results_formats
                 (register_attempts {| query_results_formats := [] |} attempts) ->
      flags_tell_behaviours f \/ left_by_failed_registration attempts f).
Proof.
  split; [|split].
  - intros world world' c p reg f later Hreg.
    destruct c; [|discriminate Hreg]. destruct p; [|discriminate Hreg].
    rewrite register_cases in Hreg. simpl in Hreg.
    destruct (negb (fst (reg factory_calloc) =? 0)); [discriminate Hreg|].
    destruct (missing_names_or_label (desc (snd (reg factory_calloc))));
      [discriminate Hreg|].
    injection Hreg as <- <-.
    split; [|split; [|split; [|split]]].
    + destruct (register_attempts_extend later
                  {| query_results_formats :=
                       query_results_formats world ++
                       [Live (set_desc (snd (reg factory_calloc))
                                (set_flags (desc (snd (reg factory_calloc)))
                                   (derived_flags (snd (reg factory_calloc)))))] |})
        as [added Hadded].
      rewrite Hadded. simpl. rewrite <- app_assoc.
      rewrite lookup_app_r by lia. rewrite Nat.sub_diag. reflexivity.
    + unfold set_desc, set_flags. cbn [flags desc get_rowsource write].
      apply derived_flags_reader.
    + unfold set_desc, set_flags. cbn [flags desc get_rowsource write].
      apply derived_flags_writer.
    + reflexivity.
    + reflexivity.
  - intros attempts f Hok Hin.
    assert (Hinv : registry_flags_derived
                     (query_results_formats
                        (register_attempts {| query_results_formats := [] |} attempts))).
    { apply register_attempts_keep_derived; [exact Hok | constructor]. }
    unfold registry_flags_derived in Hinv. rewrite Forall_forall in Hinv.
    rewrite (Hinv f Hin).
    split; [apply derived_flags_reader | apply derived_flags_writer].
  - intros attempts f Hin. apply live_factories_elem in Hin.
    destruct (register_attempts_live attempts _ f Hin) as [Hold | [Hder | Hleft]].
    + inversion Hold.
    + left. unfold flags_tell_behaviours. rewrite Hder.
      split; [apply derived_flags_reader | apply derived_flags_writer].
    + right. exact Hleft.
Qed.

Lemma registered_flags_are_derived_witness :
  (exists f,
      snd (rasqal_world_register_query_results_format_factory
             {| query_results_formats := [Live csv_factory] |} true true
             mislabelled_registration) = Some f /\
      flags (desc f) = RASQAL_QUERY_RESULTS_FORMAT_FLAG_READER /\
      (Z.land (flags (desc f)) RASQAL_QUERY_RESULTS_FORMAT_FLAG_WRITER <> 0
       <-> is_Some (write f))) /\
  Forall (fun f => Z.land (flags (desc f)) RASQAL_QUERY_RESULTS_FORMAT_FLAG_READER <> 0
                   <-> is_Some (get_rowsource f))
    (live_factories
       (query_results_formats
          (register_attempts {| query_results_formats := [] |}
             [ {| calloc_ok := true; push_ok := true;
                  register_factory := mislabelled_registration |};
               {| calloc_ok := true; push_ok := true;
                  register_factory := nameless_registration |} ]))).
Proof.
  split.
  - eexists. split; [reflexivity|]. split; [reflexivity|].
    exact (proj1 (proj2 (proj2
      (proj1 registered_flags_are_derived
         {| query_results_formats := [Live csv_factory] |} _ true true
         mislabelled_registration _
         [ {| calloc_ok := true; push_ok := true;
              register_factory := failing_registration |} ]
         eq_refl)))).
  - apply Forall_forall. intros f Hin.
    refine (proj1 (proj1 (proj2 registered_flags_are_derived) _ f _ Hin)).
    constructor; [reflexivity|]. constructor; [reflexivity|]. constructor.
Defined.

(** * Facts about the sniffer *)

Lemma char_of_int_of_byte (x : byte) : char_of_int (Z.of_N (Byte.to_N x)) = x.
Proof.
  unfold char_of_int. pose proof (Byte.to_N_bounded x) as Hb.
  rewrite Z.mod_small by lia. rewrite N2Z.id, Byte.of_to_N. reflexivity.
Qed.

Lemma type_q_scan_find (es : list raptor_type_q) (t : Z) (m : string) :
  type_q_scan es t m
  = match find (fun e => bool_decide (mime_type e = m)) es with
    | Some e => q e
    | None => t
    end.
Proof.
  induction es as [|e rest IH]; simpl; [reflexivity|].
  unfold streq. destruct (String.eqb_spec m (mime_type e)) as [Heq|Hne].
  - rewrite bool_decide_eq_true_2 by congruence. reflexivity.
  - rewrite bool_decide_eq_false_2 by congruence. exact IH.
Qed.

(** The defect behind C3 in one line: when no entry carries the MIME type,
    the scan yields the quality written in the terminating entry. *)
Lemma type_q_scan_unmatched (es : list raptor_type_q) (t : Z) (m : string) :
  Forall (fun e => mime_type e <> m) es -> type_q_scan es t m = t.
Proof.
  induction 1 as [|e rest He _ IH]; simpl; [reflexivity|].
  unfold streq. destruct (String.eqb_spec m (mime_type e)); [congruence | exact IH].
Qed.

Lemma call_recognise_effect (recognise : recognise_args -> Z) (len : nat)
    (identifier suffix mime : option string) (st st' : sniff_state) (a : Z) :
  call_recognise_syntax recognise len identifier suffix mime st = Ret (a, st') ->
  buffer st' = buffer st /\
  exists args, calls st' = calls st ++ [args] /\
               arg_buffer args = cut_buffer (buffer st) len /\
               a = recognise args.
Proof.
  unfold call_recognise_syntax, cut_buffer.
  destruct st as [[b|] cs]; cbn [buffer calls].
  - destruct (Nat.ltb_spec FIRSTN len) as [Hlt|Hge].
    + assert (Hnz : (len =? 0)%nat = false) by (apply Nat.eqb_neq; lia).
      rewrite Hnz. cbn [negb andb].
      destruct (b !! FIRSTN) as [x|] eqn:Hx; cbn [bind fst snd]; [|discriminate].
      assert (Hc : (Z.of_N (Byte.to_N x) >=? 0) = true) by (apply Z.geb_le; lia).
      rewrite Hc, char_of_int_of_byte, list_insert_insert_eq, (list_insert_id _ _ _ Hx).
      intros [= <- <-]. cbn [buffer calls]. eauto.
    + rewrite andb_false_r. cbn [bind fst snd].
      intros [= <- <-]. cbn [buffer calls]. eauto.
  - cbn [bind fst snd]. intros [= <- <-]. cbn [buffer calls]. eauto.
Qed.

Lemma call_recognise_returns (recognise : recognise_args -> Z) (len : nat)
    (identifier suffix mime : option string) (st : sniff_state) :
  buffer_holds (buffer st) len ->
  exists r, call_recognise_syntax recognise len identifier suffix mime st = Ret r.
Proof.
  unfold call_recognise_syntax, buffer_holds.
  destruct st as [[b|] cs]; cbn [buffer calls]; intros Hholds.
  - destruct (Nat.ltb_spec FIRSTN len) as [Hlt|Hge].
    + assert (Hnz : (len =? 0)%nat = false) by (apply Nat.eqb_neq; lia).
      rewrite Hnz. cbn [negb andb].
      destruct (lookup_lt_is_Some_2 b FIRSTN) as [x Hx]; [lia|].
      rewrite Hx. cbn [bind]. eauto.
    + rewrite andb_false_r. cbn [bind]. eauto.
  - cbn [bind]. eauto.
Qed.

(** What a completed run of the loop leaves behind. *)
Lemma guess_loop_effect (uri mime : option string) (len : nat)
    (identifier suffix : option string) (cells : list factory_cell) :
  forall (i : nat) (scores : list syntax_score) (st : sniff_state) (x : loop_exit),
    guess_loop uri mime len identifier suffix cells i scores st = Ret x ->
    buffer (reg_state x) = buffer st /\
    (exists new, calls (reg_state x) = calls st ++ new /\
                 Forall (fun a => arg_buffer a = cut_buffer (buffer st) len) new) /\
    length (reg_scores x) = length scores /\
    (reg_factory x = None -> reg_i x = (i + length cells)%nat).
Proof.
  induction cells as [|[f|] rest IH]; intros i scores st x; cbn [guess_loop].
  - intros [= <-]. cbn. split; [reflexivity|]. split.
    + exists []. rewrite app_nil_r. split; [reflexivity | constructor].
    + split; [reflexivity | intros _; lia].
  - destruct (_ >=? 10).
    { intros [= <-]. cbn. split; [reflexivity|]. split.
      - exists []. rewrite app_nil_r. split; [reflexivity | constructor].
      - split; [reflexivity | discriminate]. }
    destruct (match uri with Some u => _ | None => _ end).
    { intros [= <-]. cbn. split; [reflexivity|]. split.
      - exists []. rewrite app_nil_r. split; [reflexivity | constructor].
      - split; [reflexivity | discriminate]. }
    destruct (recognise_syntax f) as [recognise|].
    + destruct (call_recognise_syntax recognise len identifier suffix mime st)
        as [[a st']|e] eqn:Hcall; cbn [bind fst snd]; [|discriminate].
      apply call_recognise_effect in Hcall as (Hbuf & args & Hcalls & Harg & _).
      intros Hrest. apply IH in Hrest as (Hb & (new & Hnew & Hall) & Hlen & Hi).
      rewrite length_insert in Hlen.
      split; [congruence|]. split.
      * exists (args :: new). rewrite Hnew, Hcalls, <- app_assoc. split; [reflexivity|].
        constructor; [exact Harg|]. rewrite <- Hbuf. exact Hall.
      * split; [exact Hlen|]. intros Hnone. rewrite (Hi Hnone). cbn [length]. lia.
    + cbn [bind fst snd]. intros Hrest.
      apply IH in Hrest as (Hb & Hcalls & Hlen & Hi).
      rewrite length_insert in Hlen.
      split; [exact Hb|]. split; [exact Hcalls|].
      split; [exact Hlen|]. intros Hnone. rewrite (Hi Hnone). cbn [length]. lia.
  - discriminate.
Qed.

Lemma mime_score_below_10 (uri : option string) (m : string) (f : format_factory) :
  not_chosen_directly uri m f ->
  (match mime_types (desc f) with
   | Some tbl => type_q_scan (entries tbl) (terminator_q tbl) m
   | None => -1
   end >=? 10) = false.
Proof.
  intros (_ & Hauth & Hterm).
  destruct (mime_types (desc f)) as [tbl|] eqn:Htbl; [|reflexivity].
  rewrite type_q_scan_find. fold (declared_entry tbl m).
  destruct (declared_entry tbl m) as [e|] eqn:He.
  - destruct (Z.geb_spec (q e) 10) as [Hge|Hlt]; [|reflexivity].
    exfalso. apply Hauth. exists tbl, e. auto.
  - specialize (Hterm tbl Htbl).
    destruct (Z.geb_spec (terminator_q tbl) 10); [lia | reflexivity].
Qed.

Lemma mime_score_authoritative (m : string) (f : format_factory) :
  authoritative_mime m f ->
  (match mime_types (desc f) with
   | Some tbl => type_q_scan (entries tbl) (terminator_q tbl) m
   | None => -1
   end >=? 10) = true.
Proof.
  intros (tbl & e & Htbl & He & Hq). rewrite Htbl, type_q_scan_find.
  fold (declared_entry tbl m). rewrite He. apply Z.geb_le. exact Hq.
Qed.

(** The loop runs through candidates that are not chosen directly and
    stops at the first one with an authoritative MIME match. *)
Lemma guess_loop_stops_at (uri : option string) (m : string) (len : nat)
    (identifier suffix : option string) (X : format_factory)
    (post : list factory_cell) (pre : list format_factory) :
  Forall (not_chosen_directly uri m) pre ->
  authoritative_mime m X ->
  forall (i : nat) (scores : list syntax_score) (st : sniff_state),
    buffer_holds (buffer st) len ->
    exists x,
      guess_loop uri (Some m) len identifier suffix
        (map Live pre ++ Live X :: post) i scores st = Ret x /\
      reg_factory x = Some X /\
      buffer (reg_state x) = buffer st /\
      length (calls (reg_state x))
      = (length (calls st)
         + length (List.filter (fun f => is_set (recognise_syntax f)) pre))%nat.
Proof.
  intros Hpre HX. induction Hpre as [|f pre Hf _ IH]; intros i scores st Hholds.
  - cbn [map app guess_loop]. rewrite (mime_score_authoritative m X HX).
    eexists. split; [reflexivity|]. cbn. split; [reflexivity|].
    split; [reflexivity | lia].
  - cbn [map app guess_loop List.filter]. rewrite (mime_score_below_10 uri m f Hf).
    destruct Hf as (Huri & _ & _).
    destruct (match uri with Some u => _ | None => _ end) eqn:Hu.
    { apply by_uri_true in Hu. contradiction. }
    destruct (recognise_syntax f) as [recognise|]; cbn [is_set].
    + destruct (call_recognise_returns recognise len identifier suffix (Some m) st Hholds)
        as [[a st'] Hcall].
      rewrite Hcall. cbn [bind fst snd].
      apply call_recognise_effect in Hcall as (Hbuf & args & Hcalls & _).
      edestruct (IH (S i)) as (x & Hx & Hfac & Hb & Hlen);
        [rewrite Hbuf; exact Hholds|].
      exists x. split; [exact Hx|]. split; [exact Hfac|]. split; [congruence|].
      rewrite Hlen, Hcalls, length_app. cbn [length]. lia.
    + cbn [bind fst snd].
      edestruct (IH (S i)) as (x & Hx & Hfac & Hb & Hlen); [exact Hholds|].
      exists x. split; [exact Hx|]. split; [exact Hfac|]. split; [exact Hb | exact Hlen].
Qed.

Lemma sort_scores_permutation (l : list syntax_score) : sort_scores l ≡ₚ l.
Proof. apply merge_sort_Permutation. Qed.

Lemma sort_scores_sorted (l : list syntax_score) :
  StronglySorted (fun a b => compare_syntax_score a b <= 0) (sort_scores l).
Proof.
  assert (Htrans : Transitive score_order)
    by (intros a b c; unfold score_order, compare_syntax_score; lia).
  assert (Htotal : Total score_order)
    by (intros a b; unfold score_order, compare_syntax_score; lia).
  apply (StronglySorted_merge_sort score_order).
Qed.

Lemma first_name_never_out_of_bounds (f : option format_factory) :
  first_name f <> Crash ScoresOutOfBounds.
Proof.
  destruct f as [f|]; simpl; [|discriminate].
  destruct (names (desc f)); discriminate.
Qed.

Lemma call_recognise_crash (recognise : recognise_args -> Z) (len : nat)
    (identifier suffix mime : option string) (st : sniff_state) (e : fault) :
  call_recognise_syntax recognise len identifier suffix mime st = Crash e ->
  e = BufferOutOfBounds.
Proof.
  unfold call_recognise_syntax.
  destruct (buffer st) as [b|]; [|discriminate].
  destruct (negb (len =? 0)%nat && (FIRSTN <? len)%nat); [|discriminate].
  destruct (b !! FIRSTN); [discriminate|]. cbn [bind]. congruence.
Qed.

Lemma guess_loop_crash (uri mime : option string) (len : nat)
    (identifier suffix : option string) (cells : list factory_cell) :
  forall (i : nat) (scores : list syntax_score) (st : sniff_state) (e : fault),
    guess_loop uri mime len identifier suffix cells i scores st = Crash e ->
    e <> ScoresOutOfBounds.
Proof.
  induction cells as [|[f|] rest IH]; intros i scores st e; cbn [guess_loop].
  - discriminate.
  - destruct (_ >=? 10); [discriminate|].
    destruct (match uri with Some u => _ | None => _ end); [discriminate|].
    destruct (recognise_syntax f) as [recognise|].
    + destruct (call_recognise_syntax recognise len identifier suffix mime st)
        as [[a st']|e'] eqn:Hcall; cbn [bind fst snd].
      * apply IH.
      * apply call_recognise_crash in Hcall. congruence.
    + cbn [bind fst snd]. apply IH.
  - congruence.
Qed.

Section SnifferClaims.

Variable qsort : list syntax_score -> list syntax_score.
Hypothesis qsort_permutation : forall l, qsort l ≡ₚ l.
Hypothesis qsort_sorted :
  forall l, StronglySorted (fun a b => compare_syntax_score a b <= 0) (qsort l).

(** When the loop has filled every slot and ends without a factory, the
    factory picked carries a highest recorded score, and that score is not
    negative. *)
Lemma pick_top_score_is_highest (scores : list syntax_score) (f : format_factory) :
  pick_top_score qsort (length scores) scores = Ret (Some f) ->
  exists top, top ∈ scores /\ factory top = Some f /\ 0 <= score top /\
              Forall (fun s => score s <= score top) scores.
Proof.
  unfold pick_top_score. rewrite firstn_all, drop_all, app_nil_r.
  pose proof (qsort_permutation scores) as Hperm.
  pose proof (qsort_sorted scores) as Hsorted.
  destruct (qsort scores) as [|top rest]; [discriminate|]. cbn [lookup list_lookup].
  destruct (Z.geb_spec (score top) 0) as [Hge|Hlt]; [|discriminate].
  intros [= Hfac]. exists top.
  split; [rewrite <- Hperm; apply list_elem_of_here|].
  split; [exact Hfac|]. split; [lia|].
  rewrite <- Hperm. constructor; [lia|].
  apply StronglySorted_inv in Hsorted as [_ Hrest].
  eapply Forall_impl; [exact Hrest|].
  intros s Hs. unfold compare_syntax_score in Hs. cbn beta in Hs. lia.
Qed.

Lemma pick_top_score_returns (i : nat) (scores : list syntax_score) :
  (0 < i)%nat -> (0 < length scores)%nat ->
  exists r, pick_top_score qsort i scores = Ret r.
Proof.
  intros Hi Hlen. unfold pick_top_score.
  destruct (lookup_lt_is_Some_2 (qsort (take i scores) ++ drop i scores) 0) as [top Htop].
  - rewrite length_app, (Permutation_length (qsort_permutation _)), length_take. lia.
  - rewrite Htop. eauto.
Qed.

Lemma pick_top_score_single (s : syntax_score) :
  pick_top_score qsort 1 [s] = Ret (if score s >=? 0 then factory s else None).
Proof.
  unfold pick_top_score. cbn [take drop].
  rewrite (proj1 (Permutation_singleton_r _ _) (qsort_permutation [s])). reflexivity.
Qed.

(** C3 (defect): the registry holds one factory that declares "text/csv"
    at quality 8 in a table ended by [{NULL, 0, 0}]; the caller supplies
    only the MIME type "application/json".  No entry matches, yet the
    recorded score is the 0 of the terminating entry, not -1, and the
    sniffer answers "csv" instead of the absent result. *)
Theorem unmatched_mime_type_is_scored :
  rasqal_world_guess_query_results_format_name qsort
    {| query_results_formats := [Live csv_factory] |} true true
    None (Some "application/json") None 0 None
  = Ret (Some "csv", {| buffer := None; calls := [] |}).
Proof.
  unfold rasqal_world_guess_query_results_format_name.
  cbn [negb andb suffix_is_allocated extract_suffix query_results_formats
       raptor_sequence_size length replicate].
  change (guess_loop None (Some "application/json") 0 None None [Live csv_factory] 0
            [{| score := 0; factory := None |}] {| buffer := None; calls := [] |})
    with (Ret {| reg_factory := None; reg_i := 1;
                 reg_scores := [{| score := 0; factory := Some csv_factory |}];
                 reg_state := {| buffer := None; calls := [] |} |}).
  cbn [bind reg_factory reg_i reg_scores reg_state].
  rewrite pick_top_score_single. reflexivity.
Qed.

(** The short circuit among factories whose tables end in an entry of
    quality under 10: when the supplied MIME type has, in the table of a
    registered factory X, an entry of quality 10 or more, and no factory
    registered before X is chosen directly (by an exact URI match or by
    such a MIME match of its own), the sniffer returns the first name of X.
    Nothing is sorted, and [recognise_syntax] is called once for each
    earlier factory that supplies it and never for X or a later factory,
    whatever those functions answer; the buffer is handed back as
    received. *)
Lemma authoritative_mime_short_circuit :
  forall (pre : list format_factory) (X : format_factory) (post : list factory_cell)
         (arr : list string) (uri : option string) (m : string)
         (buf : option (list byte)) (len : nat) (identifier : option string),
    Forall (not_chosen_directly uri m) pre ->
    authoritative_mime m X ->
    names (desc X) = Some arr ->
    buffer_holds buf len ->
    exists st,
      rasqal_world_guess_query_results_format_name qsort
        {| query_results_formats := map Live pre ++ Live X :: post |} true true
        uri (Some m) buf len identifier
      = Ret (arr !! 0%nat, st) /\
      buffer st = buf /\
      length (calls st)
      = length (List.filter (fun f => is_set (recognise_syntax f)) pre).
Proof.
  intros pre X post arr uri m buf len identifier Hpre HX Harr Hholds.
  unfold rasqal_world_guess_query_results_format_name.
  cbn [negb andb query_results_formats].
  rewrite andb_false_r.
  destruct (guess_loop_stops_at uri m len identifier (extract_suffix identifier)
              X post pre Hpre HX 0%nat
              (replicate (raptor_sequence_size (map Live pre ++ Live X :: post))
                         {| score := 0; factory := None |})
              {| buffer := buf; calls := [] |} Hholds)
    as (x & Hx & Hfac & Hbuf & Hcalls).
  rewrite Hx. cbn [bind]. rewrite Hfac. cbn [bind first_name]. rewrite Harr.
  cbn [bind]. exists (reg_state x). split; [reflexivity|].
  split; [exact Hbuf | exact Hcalls].
Qed.

(** C10: the sniffer allocates one score slot per element of the registry
    and, when the loop ends without a factory, reads slot 0.  On an empty
    registry that read is outside the (empty) array; on a registry with at
    least one element it never is. *)
Theorem guess_needs_a_registered_factory :
  forall (world : rasqal_world) (uri mime : option string)
         (buf : option (list byte)) (len : nat) (identifier : option string),
    (query_results_formats world = [] ->
     rasqal_world_guess_query_results_format_name qsort world true true
       uri mime buf len identifier = Crash ScoresOutOfBounds) /\
    (query_results_formats world <> [] ->
     forall scores_ok suffix_ok : bool,
       rasqal_world_guess_query_results_format_name qsort world scores_ok suffix_ok
         uri mime buf len identifier <> Crash ScoresOutOfBounds) /\
    (forall (suffix : option string) (x : loop_exit),
        guess_loop uri mime len identifier suffix (query_results_formats world) 0
          (replicate (raptor_sequence_size (query_results_formats world))
                     {| score := 0; factory := None |})
          {| buffer := buf; calls := [] |} = Ret x ->
        length (reg_scores x) = length (query_results_formats world)).
Proof.
  intros world uri mime buf len identifier. split; [|split].
  - intros Hempty. unfold rasqal_world_guess_query_results_format_name.
    rewrite Hempty. cbn [negb andb]. rewrite andb_false_r.
    cbn [guess_loop bind reg_factory reg_i reg_scores raptor_sequence_size
         length replicate].
    unfold pick_top_score. cbn [take drop].
    rewrite (proj1 (Permutation_nil_r _) (qsort_permutation [])). reflexivity.
  - intros Hne scores_ok suffix_ok.
    unfold rasqal_world_guess_query_results_format_name.
    destruct scores_ok; cbn [negb]; [|discriminate].
    destruct (suffix_is_allocated identifier && negb suffix_ok); [discriminate|].
    destruct (guess_loop uri mime len identifier (extract_suffix identifier)
                (query_results_formats world) 0
                (replicate (raptor_sequence_size (query_results_formats world))
                           {| score := 0; factory := None |})
                {| buffer := buf; calls := [] |}) as [x|e] eqn:Hloop; cbn [bind].
    + apply guess_loop_effect in Hloop as (_ & _ & Hlen & Hi).
      rewrite length_replicate in Hlen. unfold raptor_sequence_size in Hlen.
      assert (Hpos : (0 < length (query_results_formats world))%nat).
      { destruct (query_results_formats world); [contradiction | cbn; lia]. }
      destruct (reg_factory x) as [f|] eqn:Hfac; cbn [bind].
      * pose proof (first_name_never_out_of_bounds (Some f)) as Hfn.
        destruct (first_name (Some f)); cbn [bind]; congruence.
      * destruct (pick_top_score_returns (reg_i x) (reg_scores x)) as [r Hr];
          [rewrite (Hi eq_refl); lia | lia |].
        rewrite Hr. cbn [bind].
        pose proof (first_name_never_out_of_bounds r) as Hfn.
        destruct (first_name r); cbn [bind]; congruence.
    + apply guess_loop_crash in Hloop. congruence.
  - intros suffix x Hloop.
    apply guess_loop_effect in Hloop as (_ & _ & Hlen & _).
    rewrite Hlen, length_replicate. reflexivity.
Qed.

End SnifferClaims.

(** ** The sniffer at work on sample registries *)

Lemma unmatched_mime_type_is_scored_witness :
  rasqal_world_guess_query_results_format_name sort_scores
    {| query_results_formats := [Live csv_factory] |} true true
    None (Some "application/json") None 0 None
  = Ret (Some "csv", {| buffer := None; calls := [] |}).
Proof.
  exact (unmatched_mime_type_is_scored sort_scores sort_scores_permutation).
Defined.

Example authoritative_mime_short_circuit_on_samples :
  exists st,
    rasqal_world_guess_query_results_format_name sort_scores
      {| query_results_formats :=
           map Live [eager_factory; csv_factory] ++ Live json_factory
             :: [Live eager_factory] |} true true
      None (Some "application/json") (Some long_buffer) 1100 (Some "results.html")
    = Ret (Some "json", st) /\
    buffer st = Some long_buffer /\
    length (calls st) = 1%nat.
Proof.
  apply (authoritative_mime_short_circuit sort_scores
           [eager_factory; csv_factory] json_factory [Live eager_factory] ["json"]
           None "application/json" (Some long_buffer) 1100 (Some "results.html")).
  - constructor; [|constructor; [|constructor]].
    + split; [intros (u & arr & [=] & _)|]. split.
      * intros (tbl & e & [=] & _).
      * intros tbl [=].
    + split; [intros (u & arr & [=] & _)|]. split.
      * intros (tbl & e & [= <-] & He & _). discriminate He.
      * intros tbl [= <-]. reflexivity.
  - eexists _, _. split; [reflexivity|]. split; [reflexivity|]. discriminate.
  - reflexivity.
  - apply Nat.leb_le. vm_compute. reflexivity.
Qed.

Lemma guess_needs_a_registered_factory_witness :
  rasqal_world_guess_query_results_format_name sort_scores
    {| query_results_formats := [] |} true true
    None (Some "text/csv") None 0 (Some "data.csv")
  = Crash ScoresOutOfBounds /\
  rasqal_world_guess_query_results_format_name sort_scores
    {| query_results_formats := [Live csv_factory] |} true true
    None (Some "text/csv") None 0 (Some "data.csv")
  <> Crash ScoresOutOfBounds.
Proof.
  split.
  - apply (proj1 (guess_needs_a_registered_factory sort_scores sort_scores_permutation
                    {| query_results_formats := [] |}
                    None (Some "text/csv") None 0%nat (Some "data.csv"))).
    reflexivity.
  - apply (proj1 (proj2 (guess_needs_a_registered_factory sort_scores
                           sort_scores_permutation
                           {| query_results_formats := [Live csv_factory] |}
                           None (Some "text/csv") None 0%nat (Some "data.csv")))).
    discriminate.
Defined.

(** * Further facts about the selector *)

Lemma accepts_true (flags : Z) (f : format_factory) :
  accepts flags f = true <-> flags_accepted flags f.
Proof.
  unfold accepts, flags_accepted. rewrite orb_true_iff, !Z.eqb_eq. reflexivity.
Qed.

Lemma flag_test_is_not_accepts (flags : Z) (f : format_factory) :
  negb (flags =? 0) && negb (factory_flags f =? flags) = negb (accepts flags f).
Proof. unfold accepts. rewrite negb_orb. reflexivity. Qed.

Lemma examine_selected_reason (name uri mime : option string) (flags : Z)
    (f : format_factory) :
  examine_candidate name uri mime flags f = Ret Selected ->
  (name = None /\ uri = None) \/ matches_name name f \/ matches_uri uri f \/
  matches_mime_type mime f.
Proof.
  unfold examine_candidate.
  destruct (negb (flags =? 0) && negb (factory_flags f =? flags)); [discriminate|].
  destruct (negb (is_set name) && negb (is_set uri)) eqn:Hnone.
  { intros _. left. destruct name, uri; try discriminate. split; reflexivity. }
  assert (Hrest :
    match uri, uri_strings (desc f) with
    | Some u, Some arr => string_array_has arr u
    | _, _ => false
    end = true \/
    (exists m tbl, mime = Some m /\ mime_types (desc f) = Some tbl /\
                   type_q_has (entries tbl) m = true) ->
    matches_uri uri f \/ matches_mime_type mime f).
  { intros [Hu | (m & tbl & -> & Htbl & Hhas)].
    - left. apply by_uri_true. exact Hu.
    - right. apply type_q_has_true in Hhas as (e & Hin & He).
      exists m, tbl, e. auto. }
  assert (Htail :
    (if match uri, uri_strings (desc f) with
        | Some u, Some arr => string_array_has arr u
        | _, _ => false
        end
     then Ret Selected
     else match mime with
          | Some m =>
              match mime_types (desc f) with
              | Some tbl => Ret (if type_q_has (entries tbl) m then Selected else NextOne)
              | None => Crash NullMimeTypes
              end
          | None => Ret NextOne
          end) = Ret Selected ->
    matches_uri uri f \/ matches_mime_type mime f).
  { destruct (match uri, uri_strings (desc f) with
              | Some u, Some arr => string_array_has arr u
              | _, _ => false
              end) eqn:Hu.
    - intros _. apply Hrest. left. reflexivity.
    - destruct mime as [m|]; [|discriminate].
      destruct (mime_types (desc f)) as [tbl|] eqn:Htbl; [|discriminate].
      destruct (type_q_has (entries tbl) m) eqn:Hhas; [|discriminate].
      intros _. apply Hrest. right. exists m, tbl. auto. }
  destruct name as [n|]; cbn [bind].
  - destruct (names (desc f)) as [arr|] eqn:Harr; cbn [bind]; [|discriminate].
    destruct (string_array_has arr n) eqn:Hhas.
    + intros _. right. left. exists n, arr.
      apply string_array_has_true in Hhas. auto.
    + intros H. right. right. apply Htail, H.
  - intros H. right. right. apply Htail, H.
Qed.

Lemma scan_not_found (name uri mime : option string) (flags : Z)
    (cells : list factory_cell) :
  scan_factories name uri mime flags cells = Ret None ->
  Forall (fun c => exists f, c = Live f /\
                             examine_candidate name uri mime flags f = Ret NextOne) cells.
Proof.
  induction cells as [|[g|] rest IH]; cbn [scan_factories]; [constructor | | discriminate].
  destruct (examine_candidate name uri mime flags g) as [[|]|e] eqn:Hex; cbn [bind];
    try discriminate.
  intros H. constructor; [eauto | exact (IH H)].
Qed.

Lemma examine_default (mime : option string) (flags : Z) (f : format_factory) :
  examine_candidate None None mime flags f
  = Ret (if accepts flags f then Selected else NextOne).
Proof.
  unfold examine_candidate. rewrite flag_test_is_not_accepts.
  destruct (accepts flags f); reflexivity.
Qed.

Lemma examine_by_name_only (n : string) (flags : Z) (f : format_factory) :
  names_declared f ->
  examine_candidate (Some n) None None flags f
  = Ret (if accepts flags f && lists_name n f then Selected else NextOne).
Proof.
  intros [arr Harr]. unfold examine_candidate, lists_name.
  rewrite flag_test_is_not_accepts, Harr.
  destruct (accepts flags f); cbn [negb andb is_set bind]; [|reflexivity].
  destruct (string_array_has arr n); reflexivity.
Qed.

Lemma scan_by_name_only (n : string) (flags : Z) (fs : list format_factory) :
  Forall names_declared fs ->
  scan_factories (Some n) None None flags (map Live fs)
  = Ret (find (fun f => accepts flags f && lists_name n f) fs).
Proof.
  induction 1 as [|f fs Hf _ IH]; cbn [map scan_factories find]; [reflexivity|].
  rewrite (examine_by_name_only n flags f Hf).
  destruct (accepts flags f && lists_name n f); cbn [bind]; [reflexivity | exact IH].
Qed.

Lemma lists_name_true (n : string) (f : format_factory) :
  lists_name n f = true <-> matches_name (Some n) f.
Proof.
  unfold lists_name, matches_name. split.
  - destruct (names (desc f)) as [arr|]; [|discriminate].
    intros H. exists n, arr. apply string_array_has_true in H. auto.
  - intros (n' & arr & [= <-] & -> & Hin). apply string_array_has_true, Hin.
Qed.

(** X1: whatever the selector returns is an element of the registry whose
    flags pass the flag test and, unless neither a name nor a URI was
    supplied, one that matches the name, the URI or the MIME type. *)
Theorem resolve_result_matches_request :
  forall (world : rasqal_world) (name uri mime : option string) (flags : Z)
         (f : format_factory),
    rasqal_get_query_results_formatter_factory world name uri mime flags
    = Ret (Some f) ->
    Live f ∈ query_results_formats world /\
    flags_accepted flags f /\
    ((name = None /\ uri = None) \/ matches_name name f \/ matches_uri uri f \/
     matches_mime_type mime f).
Proof.
  intros world name uri mime flags f.
  unfold rasqal_get_query_results_formatter_factory.
  generalize (query_results_formats world) as cells.
  induction cells as [|[g|] rest IH]; cbn [scan_factories]; try discriminate.
  destruct (examine_candidate name uri mime flags g) as [[|]|e] eqn:Hex; cbn [bind];
    try discriminate.
  - intros [= ->]. split; [apply list_elem_of_here|].
    split; [eapply examine_selected_accepted, Hex | eapply examine_selected_reason, Hex].
  - intros H. destruct (IH H) as (Hin & Hrest).
    split; [apply list_elem_of_further, Hin | exact Hrest].
Qed.

Lemma resolve_result_matches_request_witness :
  Live json_factory ∈ [Live xml_factory; Live json_factory] /\
  flags_accepted 2 json_factory /\
  ((Some "json" = None /\ @None string = None) \/
   matches_name (Some "json") json_factory \/ matches_uri None json_factory \/
   matches_mime_type (Some "text/plain") json_factory).
Proof.
  exact (resolve_result_matches_request
           {| query_results_formats := [Live xml_factory; Live json_factory] |}
           (Some "json") None (Some "text/plain") 2 json_factory eq_refl).
Defined.

(** X2: the selector answers "not found" only when every element of the
    registry is alive and none is eligible: with a name or a URI supplied,
    no factory whose flags are accepted matches the name, the URI or the
    MIME type; with neither, no factory has accepted flags. *)
Theorem resolve_not_found_means_no_match :
  forall (world : rasqal_world) (name uri mime : option string) (flags : Z),
    rasqal_get_query_results_formatter_factory world name uri mime flags = Ret None ->
    (Freed ∉ query_results_formats world) /\
    forall f, Live f ∈ query_results_formats world ->
              flags_accepted flags f ->
              (is_Some name \/ is_Some uri) /\
              ~ matches_name name f /\ ~ matches_uri uri f /\
              ~ matches_mime_type mime f.
Proof.
  intros world name uri mime flags H. apply scan_not_found in H.
  rewrite Forall_forall in H. split.
  - intros Hin. destruct (H _ Hin) as (f & [=] & _).
  - intros f Hin Hacc. destruct (H _ Hin) as (g & [= <-] & Hex).
    assert (Hgiven : is_Some name \/ is_Some uri).
    { destruct name as [n|]; [left; eexists; reflexivity|].
      destruct uri as [u|]; [right; eexists; reflexivity|].
      rewrite examine_default in Hex. apply accepts_true in Hacc.
      rewrite Hacc in Hex. discriminate Hex. }
    split; [exact Hgiven|].
    destruct (examine_next_passed_over _ _ _ _ _ Hgiven Hex Hacc) as (Hn & Hu & Hm & _).
    auto.
Qed.

Lemma resolve_not_found_means_no_match_witness :
  ~ matches_name (Some "tsv") csv_factory /\
  ~ matches_mime_type (Some "text/tab-separated-values") csv_factory.
Proof.
  destruct (resolve_not_found_means_no_match
              {| query_results_formats := [Live xml_factory; Live csv_factory] |}
              (Some "tsv") None (Some "text/tab-separated-values") 0 eq_refl)
    as [_ H].
  destruct (H csv_factory) as (_ & Hn & _ & Hm).
  - apply list_elem_of_further, list_elem_of_here.
  - left. reflexivity.
  - split; assumption.
Defined.

(** X3: when neither a name nor a URI is supplied the selector returns the
    first registered factory whose flags pass the flag test, whatever MIME
    type is supplied: a MIME type alone selects nothing. *)
Theorem resolve_default_ignores_mime_type :
  forall (fs : list format_factory) (mime : option string) (flags : Z),
    rasqal_get_query_results_formatter_factory
      {| query_results_formats := map Live fs |} None None mime flags
    = Ret (find (accepts flags) fs).
Proof.
  intros fs mime flags. unfold rasqal_get_query_results_formatter_factory.
  cbn [query_results_formats].
  induction fs as [|f fs IH]; cbn [map scan_factories find]; [reflexivity|].
  rewrite examine_default. destruct (accepts flags f); cbn [bind]; [reflexivity | exact IH].
Qed.

(** X4: on a registry of live factories that all declare a names array, a
    lookup by name alone returns the first factory whose flags are accepted
    and whose names contain the name, and rasqal_query_results_formats_check
    says whether there is such a factory. *)
Theorem lookup_by_name_finds_first_holder :
  forall (fs : list format_factory) (n : string) (flags : Z),
    Forall names_declared fs ->
    rasqal_get_query_results_formatter_factory
      {| query_results_formats := map Live fs |} (Some n) None None flags
    = Ret (find (fun f => accepts flags f && lists_name n f) fs) /\
    exists b,
      rasqal_query_results_formats_check
        {| query_results_formats := map Live fs |} (Some n) None None flags = Ret b /\
      (b = true <->
       exists f, f ∈ fs /\ flags_accepted flags f /\ matches_name (Some n) f).
Proof.
  intros fs n flags Hdecl.
  unfold rasqal_query_results_formats_check, rasqal_get_query_results_formatter_factory.
  cbn [query_results_formats]. rewrite (scan_by_name_only n flags fs Hdecl).
  split; [reflexivity|]. cbn [bind]. eexists. split; [reflexivity|].
  destruct (find (fun f => accepts flags f && lists_name n f) fs) as [f|] eqn:Hfind;
    cbn [is_set].
  - split; [intros _ | reflexivity].
    apply find_some in Hfind as [Hin Htest]. apply andb_true_iff in Htest as [Ha Hl].
    exists f. split; [apply list_elem_of_In, Hin|].
    split; [apply accepts_true, Ha | apply lists_name_true, Hl].
  - split; [discriminate|]. intros (f & Hin & Ha & Hl). exfalso.
    apply list_elem_of_In in Hin.
    pose proof (find_none _ _ Hfind f Hin) as Hnone. cbn beta in Hnone.
    apply accepts_true in Ha. apply lists_name_true in Hl.
    rewrite Ha, Hl in Hnone. discriminate Hnone.
Qed.

Lemma lookup_by_name_finds_first_holder_witness :
  rasqal_get_query_results_formatter_factory
    {| query_results_formats := map Live [xml_factory; json_factory; csv_factory] |}
    (Some "csv") None None 0
  = Ret (Some csv_factory).
Proof.
  refine (proj1 (lookup_by_name_finds_first_holder
                   [xml_factory; json_factory; csv_factory] "csv" 0 _)).
  repeat (constructor; [eexists; reflexivity|]). constructor.
Defined.

(** * Further facts about registration *)

Lemma register_adds_at_most_one (world : rasqal_world) (c p : bool)
    (reg : format_factory -> Z * format_factory) :
  exists added,
    query_results_formats
      (fst (rasqal_world_register_query_results_format_factory world c p reg))
    = query_results_formats world ++ added /\
    (length added <= 1)%nat.
Proof.
  destruct c; [|exists []; cbn; rewrite app_nil_r; split; [reflexivity | lia]].
  destruct p; [|exists []; cbn; rewrite app_nil_r; split; [reflexivity | lia]].
  rewrite register_cases. cbv zeta.
  destruct (negb (fst (reg factory_calloc) =? 0));
    [eexists; split; [reflexivity | cbn; lia]|].
  destruct (missing_names_or_label (desc (snd (reg factory_calloc))));
    eexists; (split; [reflexivity | cbn; lia]).
Qed.

Lemma register_attempts_add_at_most (l : list attempt) (world : rasqal_world) :
  exists added,
    query_results_formats (register_attempts world l)
    = query_results_formats world ++ added /\
    (length added <= length l)%nat.
Proof.
  unfold register_attempts. revert world.
  induction l as [|a l IH]; intros world; cbn [fold_left].
  - exists []. rewrite app_nil_r. split; [reflexivity | cbn; lia].
  - destruct (IH (register_attempt world a)) as (more & Hmore & Hlen).
    destruct (register_adds_at_most_one world (calloc_ok a) (push_ok a)
                (register_factory a)) as (added & Hadded & Hone).
    rewrite Hmore. unfold register_attempt at 1. rewrite Hadded, <- app_assoc.
    eexists. split; [reflexivity|]. rewrite length_app. cbn [length]. lia.
Qed.

Lemma register_success (world world' : rasqal_world) (c p : bool)
    (reg : format_factory -> Z * format_factory) (f : format_factory) :
  rasqal_world_register_query_results_format_factory world c p reg = (world', Some f) ->
  c = true /\ p = true /\ fst (reg factory_calloc) = 0 /\
  missing_names_or_label (desc (snd (reg factory_calloc))) = false /\
  f = set_desc (snd (reg factory_calloc))
        (set_flags (desc (snd (reg factory_calloc)))
           (derived_flags (snd (reg factory_calloc)))) /\
  query_results_formats world' = query_results_formats world ++ [Live f].
Proof.
  intros Hreg.
  destruct c; [|discriminate Hreg]. destruct p; [|discriminate Hreg].
  rewrite register_cases in Hreg. cbv zeta in Hreg.
  destruct (Z.eqb_spec (fst (reg factory_calloc)) 0) as [Hz|Hnz];
    cbn [negb] in Hreg; [|discriminate Hreg].
  destruct (missing_names_or_label (desc (snd (reg factory_calloc)))) eqn:Hmiss;
    [discriminate Hreg|].
  injection Hreg as <- <-. repeat split; assumption || reflexivity.
Qed.

Lemma find_after_misses {A : Type} (test : A -> bool) (l : list A) (x : A) :
  Forall (fun y => test y = false) l ->
  find test (l ++ [x]) = if test x then Some x else None.
Proof.
  induction 1 as [|y l Hy _ IH]; cbn [app find]; [reflexivity|].
  rewrite Hy. exact IH.
Qed.

Lemma find_is_set {A : Type} (test : A -> bool) (l : list A) (x : A) :
  In x l -> test x = true -> is_set (find test l) = true.
Proof.
  intros Hin Hx. destruct (find test l) eqn:Hfind; [reflexivity|].
  pose proof (find_none _ _ Hfind x Hin). congruence.
Qed.

(** X5: registration attempts only ever append.  Through any run of
    attempts, successful or not, every element of the registry stays at its
    index unchanged, and the registry grows by at most one element per
    attempt. *)
Theorem registration_keeps_indices :
  forall (world : rasqal_world) (attempts : list attempt),
    (forall (i : nat) (c : factory_cell),
        query_results_formats world !! i = Some c ->
        query_results_formats (register_attempts world attempts) !! i = Some c) /\
    (length (query_results_formats world)
     <= length (query_results_formats (register_attempts world attempts))
     <= length (query_results_formats world) + length attempts)%nat.
Proof.
  intros world attempts.
  destruct (register_attempts_add_at_most attempts world) as (added & -> & Hlen).
  split.
  - intros i c Hi. apply lookup_app_l_Some. exact Hi.
  - rewrite length_app. lia.
Qed.

Lemma registration_keeps_indices_witness :
  query_results_formats
    (register_attempts {| query_results_formats := [Live csv_factory] |}
       [ {| calloc_ok := true; push_ok := true;
            register_factory := failing_registration |};
         {| calloc_ok := false; push_ok := true;
            register_factory := mislabelled_registration |};
         {| calloc_ok := true; push_ok := true;
            register_factory := nameless_registration |} ]) !! 0%nat
  = Some (Live csv_factory).
Proof.
  apply (proj1 (registration_keeps_indices
                  {| query_results_formats := [Live csv_factory] |} _)).
  reflexivity.
Defined.

(** X6: a registration that returns a factory has passed the validation
    of lines 81-82: the factory has a first name and a label; it is the new
    last element of the registry, and it is the object the registration
    function filled in, with only [flags] overwritten. *)
Theorem successful_registration_is_validated :
  forall (world world' : rasqal_world) (c p : bool)
         (reg : format_factory -> Z * format_factory) (f : format_factory),
    rasqal_world_register_query_results_format_factory world c p reg
    = (world', Some f) ->
    query_results_formats world' = query_results_formats world ++ [Live f] /\
    (exists n rest, names (desc f) = Some (n :: rest)) /\
    is_Some (label (desc f)) /\
    fst (reg factory_calloc) = 0 /\
    f = set_desc (snd (reg factory_calloc))
          (set_flags (desc (snd (reg factory_calloc))) (flags (desc f))).
Proof.
  intros world world' c p reg f Hreg.
  destruct (register_success _ _ _ _ _ _ Hreg) as (_ & _ & Hrc & Hmiss & Hf & Hcells).
  split; [exact Hcells|]. subst f. unfold set_desc, set_flags in *.
  cbn [desc names label flags]. unfold missing_names_or_label in Hmiss.
  destruct (names (desc (snd (reg factory_calloc)))) as [[|n rest]|]; try discriminate.
  destruct (label (desc (snd (reg factory_calloc)))) as [l|]; [|discriminate].
  split; [eauto|]. split; [eexists; reflexivity|]. split; [exact Hrc | reflexivity].
Qed.

Lemma successful_registration_is_validated_witness :
  exists f n rest,
    snd (rasqal_world_register_query_results_format_factory
           {| query_results_formats := [Freed] |} true true
           mislabelled_registration) = Some f /\
    names (desc f) = Some (n :: rest) /\ is_Some (label (desc f)).
Proof.
  destruct (successful_registration_is_validated
              {| query_results_formats := [Freed] |} _ true true
              mislabelled_registration _ eq_refl)
    as (_ & (n & rest & Hn) & Hl & _).
  eexists _, n, rest. split; [reflexivity|]. split; assumption.
Defined.

(** X7: a name is available right after its factory is registered.  On a
    registry of live factories that declare their names, after a successful
    registration of a factory that lists the name,
    rasqal_query_results_formats_check answers true for that name; if no
    factory listed the name before, the check answered false before and the
    lookup now returns the factory just registered. *)
Theorem registered_name_is_found :
  forall (fs : list format_factory) (world' : rasqal_world) (c p : bool)
         (reg : format_factory -> Z * format_factory) (f : format_factory)
         (n : string),
    rasqal_world_register_query_results_format_factory
      {| query_results_formats := map Live fs |} c p reg = (world', Some f) ->
    Forall names_declared fs ->
    matches_name (Some n) f ->
    rasqal_query_results_formats_check world' (Some n) None None 0 = Ret true /\
    (Forall (fun g => ~ matches_name (Some n) g) fs ->
     rasqal_query_results_formats_check
       {| query_results_formats := map Live fs |} (Some n) None None 0 = Ret false /\
     rasqal_get_query_results_formatter_factory world' (Some n) None None 0
     = Ret (Some f)).
Proof.
  intros fs world' c p reg f n Hreg Hdecl Hname.
  destruct (register_success _ _ _ _ _ _ Hreg) as (_ & _ & _ & _ & _ & Hcells).
  cbn [query_results_formats] in Hcells.
  assert (Hf : names_declared f).
  { destruct Hname as (? & arr & _ & Harr & _). exists arr. exact Harr. }
  assert (Hall : Forall names_declared (fs ++ [f])).
  { apply Forall_app. split; [exact Hdecl | constructor; [exact Hf | constructor]]. }
  assert (Hw : query_results_formats world' = map Live (fs ++ [f])).
  { rewrite Hcells, map_app. reflexivity. }
  assert (Htest : accepts 0 f && lists_name n f = true).
  { apply andb_true_iff. split; [reflexivity | apply lists_name_true, Hname]. }
  unfold rasqal_query_results_formats_check, rasqal_get_query_results_formatter_factory.
  rewrite Hw, (scan_by_name_only n 0 _ Hall). cbn [bind query_results_formats].
  split.
  - f_equal. apply (find_is_set _ _ f); [|exact Htest].
    apply in_or_app. right. left. reflexivity.
  - intros Hnone.
    assert (Hmiss : Forall (fun g => accepts 0 g && lists_name n g = false) fs).
    { eapply Forall_impl; [exact Hnone|]. intros g Hg. cbn beta.
      destruct (lists_name n g) eqn:Hl; [|apply andb_false_r].
      apply lists_name_true in Hl. contradiction. }
    rewrite (scan_by_name_only n 0 fs Hdecl). cbn [bind].
    rewrite (find_after_misses _ fs f Hmiss), Htest. split; [|reflexivity].
    f_equal. clear - Hmiss. induction Hmiss as [|g fs Hg _ IH]; cbn [find]; [reflexivity|].
    rewrite Hg. exact IH.
Qed.

Lemma registered_name_is_found_witness :
  rasqal_query_results_formats_check
    (fst (rasqal_world_register_query_results_format_factory
            {| query_results_formats := map Live [xml_factory; csv_factory] |}
            true true tsv_registration))
    (Some "tab-separated-values") None None 0 = Ret true /\
  rasqal_query_results_formats_check
    {| query_results_formats := map Live [xml_factory; csv_factory] |}
    (Some "tab-separated-values") None None 0 = Ret false.
Proof.
  destruct (registered_name_is_found [xml_factory; csv_factory] _ true true
              tsv_registration _ "tab-separated-values" eq_refl)
    as [Hnow Hbefore].
  - repeat (constructor; [eexists; reflexivity|]). constructor.
  - exists "tab-separated-values", ["tsv"; "tab-separated-values"].
    repeat split. apply list_elem_of_further, list_elem_of_here.
  - split; [exact Hnow|]. refine (proj1 (Hbefore _)).
    repeat (constructor;
            [intros Hm; apply lists_name_true in Hm; discriminate Hm|]).
    constructor.
Defined.

(** X8: a registration whose descriptor fails the validation leaves in the
    registry a pointer to the factory it released.  On a registry of live
    factories, once such a registration has happened, every lookup with a
    name or a URI that no earlier factory satisfies reads the freed
    factory. *)
Theorem lookup_after_failed_validation_reads_freed_factory :
  forall (fs : list format_factory) (reg : format_factory -> Z * format_factory)
         (name uri mime : option string) (flags : Z),
    fst (reg factory_calloc) = 0 ->
    missing_names_or_label (desc (snd (reg factory_calloc))) = true ->
    is_Some name \/ is_Some uri ->
    Forall (passed_over name uri mime flags) fs ->
    rasqal_get_query_results_formatter_factory
      (fst (rasqal_world_register_query_results_format_factory
              {| query_results_formats := map Live fs |} true true reg))
      name uri mime flags
    = Crash UseAfterFree.
Proof.
  intros fs reg name uri mime flags Hrc Hmiss Hgiven Hpass.
  rewrite register_cases. cbv zeta. rewrite Hrc, Hmiss. cbn [Z.eqb negb fst].
  unfold rasqal_get_query_results_formatter_factory. cbn [query_results_formats].
  rewrite scan_past; [reflexivity|].
  eapply Forall_impl; [exact Hpass|]. intros f Hf. apply examine_passed_over; assumption.
Qed.

Lemma lookup_after_failed_validation_reads_freed_factory_witness :
  rasqal_get_query_results_formatter_factory
    (fst (rasqal_world_register_query_results_format_factory
            {| query_results_formats := map Live [xml_factory; csv_factory] |}
            true true nameless_registration))
    (Some "turtle") None None 0
  = Crash UseAfterFree.
Proof.
  apply lookup_after_failed_validation_reads_freed_factory.
  - reflexivity.
  - reflexivity.
  - left. eexists. reflexivity.
  - repeat (constructor;
            [apply examine_next_passed_over; [left; eexists; reflexivity | reflexivity]|]).
    constructor.
Defined.

(** * Further facts about the sniffer *)

Lemma call_recognise_exact (recognise : recognise_args -> Z) (len : nat)
    (identifier suffix mime : option string) (st st' : sniff_state) (a : Z) :
  call_recognise_syntax recognise len identifier suffix mime st = Ret (a, st') ->
  let args := {| arg_buffer := cut_buffer (buffer st) len; arg_len := len;
                 arg_identifier := identifier; arg_suffix := suffix;
                 arg_mime_type := mime |} in
  a = recognise args /\
  st' = {| buffer := buffer st; calls := calls st ++ [args] |}.
Proof.
  unfold call_recognise_syntax, cut_buffer.
  destruct st as [[b|] cs]; cbn [buffer calls].
  - destruct (Nat.ltb_spec FIRSTN len) as [Hlt|Hge].
    + assert (Hnz : (len =? 0)%nat = false) by (apply Nat.eqb_neq; lia).
      rewrite Hnz. cbn [negb andb].
      destruct (b !! FIRSTN) as [x|] eqn:Hx; cbn [bind fst snd]; [|discriminate].
      assert (Hc : (Z.of_N (Byte.to_N x) >=? 0) = true) by (apply Z.geb_le; lia).
      rewrite Hc, char_of_int_of_byte, list_insert_insert_eq, (list_insert_id _ _ _ Hx).
      intros [= <- <-]. split; reflexivity.
    + rewrite andb_false_r. cbn [bind fst snd].
      intros [= <- <-]. split; reflexivity.
  - cbn [bind fst snd]. intros [= <- <-]. split; reflexivity.
Qed.

Lemma mime_points_is_scan (mime : option string) (f : format_factory) :
  match mime, mime_types (desc f) with
  | Some m, Some tbl => type_q_scan (entries tbl) (terminator_q tbl) m
  | _, _ => -1
  end = mime_points mime f.
Proof.
  unfold mime_points. destruct mime as [m|]; [|reflexivity].
  destruct (mime_types (desc f)) as [tbl|]; [|reflexivity].
  rewrite type_q_scan_find. reflexivity.
Qed.

Lemma clamp_is_min (sc : Z) : (if sc <? 10 then sc else 10) = Z.min 10 sc.
Proof. destruct (Z.ltb_spec sc 10); lia. Qed.

(** One turn of the loop for a factory that does not end the scan. *)
Lemma guess_loop_turn (uri mime : option string) (len : nat)
    (identifier suffix : option string) (f : format_factory)
    (rest : list factory_cell) (i : nat) (scores : list syntax_score)
    (st : sniff_state) :
  ~ stops_scan uri mime f ->
  buffer_holds (buffer st) len ->
  let args := {| arg_buffer := cut_buffer (buffer st) len; arg_len := len;
                 arg_identifier := identifier; arg_suffix := suffix;
                 arg_mime_type := mime |} in
  guess_loop uri mime len identifier suffix (Live f :: rest) i scores st
  = guess_loop uri mime len identifier suffix rest (S i)
      (<[i := score_entry mime args f]> scores)
      {| buffer := buffer st;
         calls := calls st ++ (if is_set (recognise_syntax f) then [args] else []) |}.
Proof.
  intros Hstop Hholds args. cbn [guess_loop]. rewrite mime_points_is_scan.
  destruct (Z.geb_spec (mime_points mime f) 10) as [Hge|Hlt].
  { exfalso. apply Hstop. left. lia. }
  destruct (match uri, uri_strings (desc f) with
            | Some u, Some arr => string_array_has arr u
            | _, _ => false
            end) eqn:Hu.
  { exfalso. apply Hstop. right. apply by_uri_true. exact Hu. }
  unfold score_entry, recorded_score, affinity.
  destruct (recognise_syntax f) as [recognise|]; cbn [is_set].
  - destruct (call_recognise_returns recognise len identifier suffix mime st Hholds)
      as [[a st'] Hcall].
    rewrite Hcall. cbn [bind fst snd].
    destruct (call_recognise_exact _ _ _ _ _ _ _ _ Hcall) as [-> ->].
    rewrite clamp_is_min. reflexivity.
  - cbn [bind fst snd]. rewrite clamp_is_min, Z.add_0_r, app_nil_r.
    destruct st; reflexivity.
Qed.

(** The loop over a run of factories none of which ends the scan: each
    gets its slot of the array filled with its clamped score, and each that
    supplies [recognise_syntax] is called once, all with the same
    arguments. *)
Lemma guess_loop_run (uri mime : option string) (len : nat)
    (identifier suffix : option string) (rest : list factory_cell)
    (fs : list format_factory) :
  Forall (fun f => ~ stops_scan uri mime f) fs ->
  forall (done todo : list syntax_score) (st : sniff_state),
    buffer_holds (buffer st) len ->
    length todo = length fs ->
    let args := {| arg_buffer := cut_buffer (buffer st) len; arg_len := len;
                   arg_identifier := identifier; arg_suffix := suffix;
                   arg_mime_type := mime |} in
    forall tail : list syntax_score,
      guess_loop uri mime len identifier suffix (map Live fs ++ rest)
        (length done) (done ++ todo ++ tail) st
      = guess_loop uri mime len identifier suffix rest
          (length done + length fs)
          (done ++ map (score_entry mime args) fs ++ tail)
          {| buffer := buffer st;
             calls := calls st ++ replicate (recognisers fs) args |}.
Proof.
  induction 1 as [|f fs Hf _ IH]; intros done todo st Hholds Hlen args tail.
  - destruct todo; [|discriminate Hlen]. cbn [map app length recognisers List.filter replicate].
    rewrite Nat.add_0_r, app_nil_r. destruct st; reflexivity.
  - destruct todo as [|z todo]; [discriminate Hlen|].
    cbn [map app]. rewrite (guess_loop_turn _ _ _ _ _ _ _ _ _ _ Hf Hholds).
    fold args.
    replace (<[length done := score_entry mime args f]> (done ++ z :: todo ++ tail))
      with ((done ++ [score_entry mime args f]) ++ todo ++ tail).
    2:{ rewrite insert_app_r_alt by lia. rewrite Nat.sub_diag, <- app_assoc. reflexivity. }
    replace (S (length done)) with (length (done ++ [score_entry mime args f]))
      by (rewrite length_app; cbn [length]; lia).
    rewrite (IH (done ++ [score_entry mime args f]) todo
               {| buffer := buffer st;
                  calls := calls st ++
                           (if is_set (recognise_syntax f) then [args] else []) |}
               Hholds ltac:(cbn [length] in Hlen; lia) tail).
    cbn [buffer calls]. fold args.
    rewrite length_app, <- !app_assoc. cbn [length app].
    f_equal; [lia|]. f_equal. unfold recognisers. cbn [List.filter].
    destruct (is_set (recognise_syntax f)); cbn [length replicate app]; reflexivity.
Qed.

Lemma guess_loop_stop (uri mime : option string) (len : nat)
    (identifier suffix : option string) (X : format_factory)
    (post : list factory_cell) (i : nat) (scores : list syntax_score)
    (st : sniff_state) :
  stops_scan uri mime X ->
  guess_loop uri mime len identifier suffix (Live X :: post) i scores st
  = Ret {| reg_factory := Some X; reg_i := i; reg_scores := scores; reg_state := st |}.
Proof.
  intros Hstop. cbn [guess_loop]. rewrite mime_points_is_scan.
  destruct (Z.geb_spec (mime_points mime X) 10) as [Hge|Hlt]; [reflexivity|].
  destruct Hstop as [Hmime|Huri]; [lia|].
  apply by_uri_true in Huri. rewrite Huri. reflexivity.
Qed.

Lemma stops_scan_or_not (uri mime : option string) (f : format_factory) :
  stops_scan uri mime f \/ ~ stops_scan uri mime f.
Proof.
  unfold stops_scan.
  destruct (Z.le_gt_cases 10 (mime_points mime f)) as [Hge|Hlt]; [left; left; exact Hge|].
  destruct (match uri, uri_strings (desc f) with
            | Some u, Some arr => string_array_has arr u
            | _, _ => false
            end) eqn:Hu.
  - left. right. apply by_uri_true, Hu.
  - right. intros [Hge|Hm]; [lia|]. apply by_uri_true in Hm. congruence.
Qed.

Lemma first_stop (uri mime : option string) (fs : list format_factory) :
  Forall (fun f => ~ stops_scan uri mime f) fs \/
  exists pre X post, fs = pre ++ X :: post /\
                     Forall (fun f => ~ stops_scan uri mime f) pre /\
                     stops_scan uri mime X.
Proof.
  induction fs as [|f fs IH]; [left; constructor|].
  destruct (stops_scan_or_not uri mime f) as [Hstop|Hpass].
  - right. exists [], f, fs. split; [reflexivity|]. split; [constructor | exact Hstop].
  - destruct IH as [Hall | (pre & X & post & -> & Hpre & HX)].
    + left. constructor; assumption.
    + right. exists (f :: pre), X, post. split; [reflexivity|].
      split; [constructor; assumption | exact HX].
Qed.

Lemma guess_loop_same_arguments (uri mime : option string) (len : nat)
    (identifier suffix : option string) (cells : list factory_cell) :
  forall (i : nat) (scores : list syntax_score) (st : sniff_state) (x : loop_exit),
    guess_loop uri mime len identifier suffix cells i scores st = Ret x ->
    exists k,
      (k <= length cells)%nat /\
      reg_state x
      = {| buffer := buffer st;
           calls := calls st ++
                    replicate k {| arg_buffer := cut_buffer (buffer st) len;
                                   arg_len := len; arg_identifier := identifier;
                                   arg_suffix := suffix; arg_mime_type := mime |} |}.
Proof.
  induction cells as [|[f|] rest IH]; intros i scores st x; cbn [guess_loop].
  - intros [= <-]. exists 0%nat. cbn. rewrite app_nil_r. split; [lia | destruct st; reflexivity].
  - destruct (_ >=? 10).
    { intros [= <-]. exists 0%nat. cbn. rewrite app_nil_r.
      split; [lia | destruct st; reflexivity]. }
    destruct (match uri with Some u => _ | None => _ end).
    { intros [= <-]. exists 0%nat. cbn. rewrite app_nil_r.
      split; [lia | destruct st; reflexivity]. }
    destruct (recognise_syntax f) as [recognise|].
    + destruct (call_recognise_syntax recognise len identifier suffix mime st)
        as [[a st']|e] eqn:Hcall; cbn [bind fst snd]; [|discriminate].
      destruct (call_recognise_exact _ _ _ _ _ _ _ _ Hcall) as [_ ->].
      intros Hrest. apply IH in Hrest as (k & Hk & ->). cbn [buffer calls].
      exists (S k). split; [cbn [length]; lia|].
      rewrite <- app_assoc. reflexivity.
    + cbn [bind fst snd]. intros Hrest. apply IH in Hrest as (k & Hk & ->).
      exists k. split; [cbn [length]; lia | reflexivity].
  - discriminate.
Qed.

Lemma guess_loop_direct_match (uri mime : option string) (len : nat)
    (identifier : option string) (buf : option (list byte))
    (pre : list format_factory) (X : format_factory) (post : list factory_cell) :
  Forall (fun f => ~ stops_scan uri mime f) pre ->
  stops_scan uri mime X ->
  buffer_holds buf len ->
  guess_loop uri mime len identifier (extract_suffix identifier)
    (map Live pre ++ Live X :: post) 0
    (replicate (raptor_sequence_size (map Live pre ++ Live X :: post))
               {| score := 0; factory := None |})
    {| buffer := buf; calls := [] |}
  = Ret {| reg_factory := Some X; reg_i := length pre;
           reg_scores :=
             map (score_entry mime (shown_args buf len identifier mime)) pre ++
             replicate (S (length post)) {| score := 0; factory := None |};
           reg_state :=
             {| buffer := buf;
                calls := replicate (recognisers pre)
                           (shown_args buf len identifier mime) |} |}.
Proof.
  intros Hpre HX Hholds. unfold raptor_sequence_size.
  replace (replicate (length (map Live pre ++ Live X :: post))
                     {| score := 0; factory := None |})
    with ([] ++ replicate (length pre) {| score := 0; factory := None |} ++
          replicate (S (length post)) {| score := 0; factory := None |}).
  2:{ cbn [app]. rewrite <- replicate_add, length_app, length_map. reflexivity. }
  change 0%nat with (length (@nil syntax_score)) at 1.
  rewrite (guess_loop_run uri mime len identifier (extract_suffix identifier)
             (Live X :: post) pre Hpre []
             (replicate (length pre) {| score := 0; factory := None |})
             {| buffer := buf; calls := [] |} Hholds (length_replicate _ _)).
  cbn [app length buffer calls].
  rewrite (guess_loop_stop _ _ _ _ _ X post _ _ _ HX). reflexivity.
Qed.

Lemma guess_loop_all_scored (uri mime : option string) (len : nat)
    (identifier : option string) (buf : option (list byte))
    (fs : list format_factory) :
  Forall (fun f => ~ stops_scan uri mime f) fs ->
  buffer_holds buf len ->
  guess_loop uri mime len identifier (extract_suffix identifier)
    (map Live fs) 0
    (replicate (raptor_sequence_size (map Live fs)) {| score := 0; factory := None |})
    {| buffer := buf; calls := [] |}
  = Ret {| reg_factory := None; reg_i := length fs;
           reg_scores := map (score_entry mime (shown_args buf len identifier mime)) fs;
           reg_state :=
             {| buffer := buf;
                calls := replicate (recognisers fs)
                           (shown_args buf len identifier mime) |} |}.
Proof.
  intros Hpass Hholds. unfold raptor_sequence_size. rewrite length_map.
  pose proof (guess_loop_run uri mime len identifier (extract_suffix identifier)
                [] fs Hpass []
                (replicate (length fs) {| score := 0; factory := None |})
                {| buffer := buf; calls := [] |} Hholds
                (length_replicate _ _) []) as Hrun.
  cbn [app length buffer calls guess_loop] in Hrun. rewrite !app_nil_r in Hrun.
  exact Hrun.
Qed.

Lemma guess_loop_prefix (uri mime : option string) (len : nat)
    (identifier : option string) (buf : option (list byte))
    (pre : list format_factory) (rest : list factory_cell) :
  Forall (fun f => ~ stops_scan uri mime f) pre ->
  buffer_holds buf len ->
  guess_loop uri mime len identifier (extract_suffix identifier)
    (map Live pre ++ rest) 0
    (replicate (raptor_sequence_size (map Live pre ++ rest))
               {| score := 0; factory := None |})
    {| buffer := buf; calls := [] |}
  = guess_loop uri mime len identifier (extract_suffix identifier)
      rest (length pre)
      (map (score_entry mime (shown_args buf len identifier mime)) pre ++
       replicate (length rest) {| score := 0; factory := None |})
      {| buffer := buf;
         calls := replicate (recognisers pre) (shown_args buf len identifier mime) |}.
Proof.
  intros Hpre Hholds. unfold raptor_sequence_size.
  replace (replicate (length (map Live pre ++ rest)) {| score := 0; factory := None |})
    with ([] ++ replicate (length pre) {| score := 0; factory := None |} ++
          replicate (length rest) {| score := 0; factory := None |}).
  2:{ cbn [app]. rewrite <- replicate_add, length_app, length_map. reflexivity. }
  change 0%nat with (length (@nil syntax_score)) at 1.
  rewrite (guess_loop_run uri mime len identifier (extract_suffix identifier)
             rest pre Hpre []
             (replicate (length pre) {| score := 0; factory := None |})
             {| buffer := buf; calls := [] |} Hholds (length_replicate _ _)).
  reflexivity.
Qed.

Lemma lower_of_alnum (c : ascii) :
  implb (isalnum c) (is_lower_alnum (tolower c)) = true.
Proof. destruct c as [[] [] [] [] [] [] [] []]; reflexivity. Qed.

Lemma lower_case_of_alnum (s : string) :
  all_alnum s = true ->
  all_chars is_lower_alnum (lower_case s) = true /\
  lower_case (lower_case s) = lower_case s.
Proof.
  induction s as [|c rest IH]; cbn [all_alnum lower_case all_chars]; [split; reflexivity|].
  intros H. apply andb_true_iff in H as [Hc Hrest].
  destruct (IH Hrest) as [Hall Hidem].
  pose proof (lower_of_alnum c) as Hlow. rewrite Hc in Hlow. cbn [implb] in Hlow.
  rewrite Hlow, Hall, Hidem. split; [reflexivity|]. f_equal.
  clear - Hc. destruct c as [[] [] [] [] [] [] [] []]; try reflexivity; discriminate Hc.
Qed.

(** Scores recorded from sums within the range leave the comparison
    within [int]. *)
Lemma scores_compare_within_int (mime : option string) (a : recognise_args)
    (fs : list format_factory) :
  Forall (score_within_int mime a) fs ->
  compare_within_int (map (score_entry mime a) fs).
Proof.
  intros Hint s t Hs Ht.
  apply list_elem_of_fmap in Hs as (f & -> & Hf).
  apply list_elem_of_fmap in Ht as (g & -> & Hg).
  rewrite Forall_forall in Hint.
  pose proof (Hint f Hf) as Hf'. pose proof (Hint g Hg) as Hg'.
  unfold score_within_int, INT_MIN, INT_MAX in *.
  unfold fits_int, compare_syntax_score, score_entry, recorded_score, INT_MIN, INT_MAX.
  cbn [score]. lia.
Qed.

Lemma cut_of_long_buffer (b : list byte) (len : nat) :
  (FIRSTN < len)%nat -> cut_buffer (Some b) len = Some (<[FIRSTN := x00]> b).
Proof.
  intros Hlt. unfold cut_buffer. destruct (Nat.ltb_spec FIRSTN len); [reflexivity | lia].
Qed.

(** The byte at index FIRSTN of a longer buffer has no part in what the
    loop computes: the runs on two buffers that differ there at most end
    alike. *)
Lemma guess_loop_blind_to_cut_byte (uri mime : option string) (len : nat)
    (identifier suffix : option string) (b : list byte) (x : byte) :
  (FIRSTN < len)%nat -> (len <= length b)%nat ->
  forall (cells : list factory_cell) (i : nat) (scores : list syntax_score)
         (cs : list recognise_args),
    same_exit
      (guess_loop uri mime len identifier suffix cells i scores
         {| buffer := Some b; calls := cs |})
      (guess_loop uri mime len identifier suffix cells i scores
         {| buffer := Some (<[FIRSTN := x]> b); calls := cs |}).
Proof.
  intros Hlt Hle.
  induction cells as [|[f|] rest IH]; intros i scores cs.
  - cbn [guess_loop same_exit reg_factory reg_i reg_scores reg_state calls]. auto.
  - destruct (stops_scan_or_not uri mime f) as [Hstop|Hpass].
    + rewrite !(guess_loop_stop _ _ _ _ _ f rest _ _ _ Hstop).
      cbn [same_exit reg_factory reg_i reg_scores reg_state calls]. auto.
    + rewrite (guess_loop_turn uri mime len identifier suffix f rest i scores
                 {| buffer := Some b; calls := cs |} Hpass Hle).
      rewrite (guess_loop_turn uri mime len identifier suffix f rest i scores
                 {| buffer := Some (<[FIRSTN := x]> b); calls := cs |} Hpass).
      2:{ cbn [buffer_holds buffer]. rewrite length_insert. exact Hle. }
      cbn [buffer calls].
      rewrite !cut_of_long_buffer by exact Hlt. rewrite list_insert_insert_eq.
      apply IH.
  - cbn [guess_loop same_exit]. reflexivity.
Qed.

Section SnifferFurther.

Variable qsort : list syntax_score -> list syntax_score.
Hypothesis qsort_permutation : forall l, qsort l ≡ₚ l.
Hypothesis qsort_sorted :
  forall l, StronglySorted (fun a b => compare_syntax_score a b <= 0) (qsort l).

Lemma pick_top_score_of_filled_array (scores : list syntax_score) :
  scores <> [] ->
  exists top,
    top ∈ scores /\
    Forall (fun s => score s <= score top) scores /\
    pick_top_score qsort (length scores) scores
    = Ret (if score top >=? 0 then factory top else None).
Proof.
  intros Hne. unfold pick_top_score. rewrite firstn_all, drop_all, app_nil_r.
  pose proof (qsort_permutation scores) as Hperm.
  pose proof (qsort_sorted scores) as Hsorted.
  destruct (qsort scores) as [|top rest].
  { apply Permutation_nil_l in Hperm. congruence. }
  exists top. split; [rewrite <- Hperm; apply list_elem_of_here|]. split; [|reflexivity].
  rewrite <- Hperm. constructor; [lia|].
  apply StronglySorted_inv in Hsorted as [_ Hrest].
  eapply Forall_impl; [exact Hrest|].
  intros s Hs. unfold compare_syntax_score in Hs. cbn beta in Hs. lia.
Qed.

(** C4 (defect): a factory L registered before X, whose table has no entry
    for the supplied MIME type and whose URIs do not match, is selected in
    front of X as soon as the terminating entry of its table carries a
    quality of 10 or more: the scan of lines 609-614 ends on that entry and
    line 617 scores it as if it were a match.  The factory X, whose entry
    for the MIME type has quality 10 or more, is never reached. *)
Theorem terminator_quality_preempts_mime_match :
  forall (pre : list format_factory) (L : format_factory) (tbl : type_q_table)
         (mid : list format_factory) (X : format_factory) (post : list factory_cell)
         (uri : option string) (m : string) (buf : option (list byte)) (len : nat)
         (identifier : option string),
    Forall (fun f => ~ stops_scan uri (Some m) f) pre ->
    mime_types (desc L) = Some tbl ->
    declared_entry tbl m = None ->
    10 <= terminator_q tbl ->
    ~ matches_uri uri L ->
    authoritative_mime m X ->
    names_declared L ->
    buffer_holds buf len ->
    rasqal_world_guess_query_results_format_name qsort
      {| query_results_formats := map Live pre ++ Live L :: map Live mid ++ Live X :: post |}
      true true uri (Some m) buf len identifier
    = Ret (first_name_of L,
           {| buffer := buf;
              calls := replicate (recognisers pre)
                         (shown_args buf len identifier (Some m)) |}).
Proof.
  intros pre L tbl mid X post uri m buf len identifier Hpre Htbl Hnone Hterm _ _
         [arr Harr] Hholds.
  assert (HL : stops_scan uri (Some m) L).
  { left. unfold mime_points. rewrite Htbl, Hnone. exact Hterm. }
  unfold rasqal_world_guess_query_results_format_name.
  cbn [negb andb query_results_formats]. rewrite andb_false_r.
  rewrite (guess_loop_direct_match uri (Some m) len identifier buf pre L
             (map Live mid ++ Live X :: post) Hpre HL Hholds).
  cbn [bind reg_factory reg_state first_name]. unfold first_name_of. rewrite Harr.
  reflexivity.
Qed.

(** C8: for a buffer of more than 1024 bytes, every turn of the loop that
    calls [recognise_syntax] hands it the buffer with the byte at index
    1024 set to NUL and every other byte as it was, scores what the
    function answers to that, and goes on with the buffer as it was
    before the call; so does a call taken alone.  When the sniffer
    returns, the buffer equals the one passed in and all calls made were
    shown that cut buffer.  The byte at index 1024 has no influence on the
    answer: with any other byte there, the sniffer makes the same calls and
    gives the same answer. *)
Theorem guess_leaves_buffer_intact :
  forall (world : rasqal_world) (scores_ok suffix_ok : bool)
         (uri mime : option string) (b : list byte) (len : nat)
         (identifier : option string),
    (FIRSTN < len)%nat -> (len <= length b)%nat ->
    let shown := {| arg_buffer := Some (<[FIRSTN := x00]> b); arg_len := len;
                    arg_identifier := identifier;
                    arg_suffix := extract_suffix identifier;
                    arg_mime_type := mime |} in
    ((<[FIRSTN := x00]> b) !! FIRSTN = Some x00 /\
     forall j, j <> FIRSTN -> (<[FIRSTN := x00]> b) !! j = b !! j) /\
    (forall (f : format_factory) (recognise : recognise_args -> Z)
            (rest : list factory_cell) (i : nat) (scores : list syntax_score)
            (cs : list recognise_args),
        recognise_syntax f = Some recognise ->
        ~ stops_scan uri mime f ->
        guess_loop uri mime len identifier (extract_suffix identifier)
          (Live f :: rest) i scores {| buffer := Some b; calls := cs |}
        = guess_loop uri mime len identifier (extract_suffix identifier)
            rest (S i)
            (<[i := {| score := Z.min 10 (mime_points mime f + recognise shown);
                       factory := Some f |}]> scores)
            {| buffer := Some b; calls := cs ++ [shown] |}) /\
    (forall (recognise : recognise_args -> Z) (cs : list recognise_args),
        call_recognise_syntax recognise len identifier (extract_suffix identifier) mime
          {| buffer := Some b; calls := cs |}
        = Ret (recognise shown, {| buffer := Some b; calls := cs ++ [shown] |})) /\
    (forall (name : option string) (st : sniff_state),
        rasqal_world_guess_query_results_format_name qsort world scores_ok suffix_ok
          uri mime (Some b) len identifier = Ret (name, st) ->
        buffer st = Some b /\
        exists k, (k <= length (query_results_formats world))%nat /\
                  calls st = replicate k shown) /\
    (forall x : byte,
        same_answer
          (rasqal_world_guess_query_results_format_name qsort world scores_ok suffix_ok
             uri mime (Some b) len identifier)
          (rasqal_world_guess_query_results_format_name qsort world scores_ok suffix_ok
             uri mime (Some (<[FIRSTN := x]> b)) len identifier)).
Proof.
  intros world scores_ok suffix_ok uri mime b len identifier Hlt Hle shown.
  pose proof (cut_of_long_buffer b len Hlt) as Hcut.
  split; [|split; [|split; [|split]]].
  - split; [apply list_lookup_insert_eq; lia|].
    intros j Hj. apply list_lookup_insert_ne. congruence.
  - intros f recognise rest i scores cs Hrec Hpass.
    rewrite (guess_loop_turn uri mime len identifier (extract_suffix identifier)
               f rest i scores {| buffer := Some b; calls := cs |} Hpass Hle).
    cbn [buffer calls]. rewrite Hcut. fold shown.
    unfold score_entry, recorded_score, affinity. rewrite Hrec. reflexivity.
  - intros recognise cs.
    destruct (call_recognise_returns recognise len identifier
                (extract_suffix identifier) mime
                {| buffer := Some b; calls := cs |} Hle) as [[a st'] Hcall].
    rewrite Hcall.
    destruct (call_recognise_exact _ _ _ _ _ _ _ _ Hcall) as [-> ->].
    cbn [buffer calls]. rewrite Hcut. reflexivity.
  - intros name st. unfold rasqal_world_guess_query_results_format_name.
    destruct scores_ok; cbn [negb].
    2:{ intros [= <- <-]. split; [reflexivity|]. exists 0%nat. split; [lia | reflexivity]. }
    destruct (suffix_is_allocated identifier && negb suffix_ok).
    { intros [= <- <-]. split; [reflexivity|]. exists 0%nat. split; [lia | reflexivity]. }
    destruct (guess_loop uri mime len identifier (extract_suffix identifier)
                (query_results_formats world) 0
                (replicate (raptor_sequence_size (query_results_formats world))
                           {| score := 0; factory := None |})
                {| buffer := Some b; calls := [] |}) as [x|e] eqn:Hloop;
      cbn [bind]; [|discriminate].
    apply guess_loop_same_arguments in Hloop as (k & Hk & Hst).
    cbn [buffer calls app] in Hst. rewrite Hcut in Hst. fold shown in Hst.
    destruct (match reg_factory x with
              | Some f => Ret (Some f)
              | None => pick_top_score qsort (reg_i x) (reg_scores x)
              end) as [chosen|e]; cbn [bind]; [|discriminate].
    destruct (first_name chosen) as [nm|e]; cbn [bind]; [|discriminate].
    intros [= <- <-]. rewrite Hst. cbn [buffer calls]. split; [reflexivity|].
    exists k. split; [exact Hk | reflexivity].
  - intros x. unfold rasqal_world_guess_query_results_format_name.
    destruct scores_ok; cbn [negb]; [|cbn [same_answer calls]; auto].
    destruct (suffix_is_allocated identifier && negb suffix_ok);
      [cbn [same_answer calls]; auto|].
    pose proof (guess_loop_blind_to_cut_byte uri mime len identifier
                  (extract_suffix identifier) b x Hlt Hle
                  (query_results_formats world) 0
                  (replicate (raptor_sequence_size (query_results_formats world))
                             {| score := 0; factory := None |}) []) as Hsame.
    destruct (guess_loop uri mime len identifier (extract_suffix identifier)
                (query_results_formats world) 0 _ {| buffer := Some b; calls := [] |})
      as [x1|e1];
      destruct (guess_loop uri mime len identifier (extract_suffix identifier)
                  (query_results_formats world) 0 _
                  {| buffer := Some (<[FIRSTN := x]> b); calls := [] |})
        as [x2|e2];
      cbn [same_exit] in Hsame; try contradiction.
    + destruct Hsame as (Hf & Hi & Hs & Hc). cbn [bind]. rewrite <- Hf, <- Hi, <- Hs.
      destruct (match reg_factory x1 with
                | Some f => Ret (Some f)
                | None => pick_top_score qsort (reg_i x1) (reg_scores x1)
                end) as [chosen|e]; cbn [bind same_answer]; [|reflexivity].
      destruct (first_name chosen) as [nm|e]; cbn [bind same_answer];
        [split; [reflexivity | exact Hc] | reflexivity].
    + cbn [bind same_answer]. exact Hsame.
Qed.

(** X9: the first factory, in registration order, whose MIME score
    reaches 10 or whose URIs contain the supplied URI is selected outright:
    the sniffer returns its first name, calls [recognise_syntax] only for
    the factories registered before it and ignores what they scored. *)
Theorem guess_stops_at_first_direct_match :
  forall (pre : list format_factory) (X : format_factory) (post : list factory_cell)
         (uri mime : option string) (buf : option (list byte)) (len : nat)
         (identifier : option string),
    Forall (fun f => ~ stops_scan uri mime f) pre ->
    stops_scan uri mime X ->
    names_declared X ->
    buffer_holds buf len ->
    rasqal_world_guess_query_results_format_name qsort
      {| query_results_formats := map Live pre ++ Live X :: post |} true true
      uri mime buf len identifier
    = Ret (first_name_of X,
           {| buffer := buf;
              calls := replicate (recognisers pre)
                         (shown_args buf len identifier mime) |}).
Proof.
  intros pre X post uri mime buf len identifier Hpre HX [arr Harr] Hholds.
  unfold rasqal_world_guess_query_results_format_name.
  cbn [negb andb query_results_formats]. rewrite andb_false_r.
  rewrite (guess_loop_direct_match uri mime len identifier buf pre X post Hpre HX Hholds).
  cbn [bind reg_factory reg_state first_name]. unfold first_name_of. rewrite Harr.
  reflexivity.
Qed.

(** X11: on a registry that is not empty and whose elements are all alive
    and declare a names array, with a length that does not exceed the
    buffer, the sniffer always returns, whatever the allocations do, and
    hands the buffer back as it received it. *)
Theorem guess_returns_on_sound_registry :
  forall (fs : list format_factory) (scores_ok suffix_ok : bool)
         (uri mime : option string) (buf : option (list byte)) (len : nat)
         (identifier : option string),
    fs <> [] ->
    Forall names_declared fs ->
    buffer_holds buf len ->
    exists name st,
      rasqal_world_guess_query_results_format_name qsort
        {| query_results_formats := map Live fs |} scores_ok suffix_ok
        uri mime buf len identifier = Ret (name, st) /\
      buffer st = buf.
Proof.
  intros fs scores_ok suffix_ok uri mime buf len identifier Hne Hdecl Hholds.
  unfold rasqal_world_guess_query_results_format_name.
  destruct scores_ok; cbn [negb]; [|eexists _, _; split; reflexivity].
  destruct (suffix_is_allocated identifier && negb suffix_ok);
    [eexists _, _; split; reflexivity|].
  cbn [query_results_formats].
  destruct (first_stop uri mime fs) as [Hpass | (pre & X & post & -> & Hpre & HX)].
  - rewrite (guess_loop_all_scored uri mime len identifier buf fs Hpass Hholds).
    cbn [bind reg_factory reg_i reg_scores reg_state].
    destruct (pick_top_score_of_filled_array
                (map (score_entry mime (shown_args buf len identifier mime)) fs))
      as (top & Hin & _ & Hpick).
    { destruct fs; [contradiction | discriminate]. }
    rewrite length_map in Hpick. rewrite Hpick. cbn [bind].
    apply list_elem_of_fmap in Hin as (f & -> & Hf). cbn [score_entry score factory].
    rewrite Forall_forall in Hdecl. destruct (Hdecl f Hf) as [arr Harr].
    destruct (recorded_score mime (shown_args buf len identifier mime) f >=? 0);
      cbn [bind first_name]; [rewrite Harr|]; cbn [bind];
      eexists _, _; split; reflexivity.
  - apply Forall_app in Hdecl as [_ Hdecl]. apply Forall_cons in Hdecl as [[arr Harr] _].
    rewrite map_app. cbn [map].
    rewrite (guess_loop_direct_match uri mime len identifier buf pre X (map Live post)
               Hpre HX Hholds).
    cbn [bind reg_factory reg_state first_name]. rewrite Harr. cbn [bind].
    eexists _, _. split; reflexivity.
Qed.

(** X12: whenever the sniffer returns, the buffer is the one it received
    and every call of [recognise_syntax] it made was given the same
    arguments: the buffer cut at FIRSTN when it is longer, the full length,
    the identifier as supplied, the suffix extracted from it and the MIME
    type; there is at most one call per element of the registry. *)
Theorem recognisers_are_shown_the_same_arguments :
  forall (world : rasqal_world) (scores_ok suffix_ok : bool)
         (uri mime : option string) (buf : option (list byte)) (len : nat)
         (identifier name : option string) (st : sniff_state),
    rasqal_world_guess_query_results_format_name qsort world scores_ok suffix_ok
      uri mime buf len identifier = Ret (name, st) ->
    buffer st = buf /\
    exists k, (k <= length (query_results_formats world))%nat /\
              calls st = replicate k (shown_args buf len identifier mime).
Proof.
  intros world scores_ok suffix_ok uri mime buf len identifier name st.
  unfold rasqal_world_guess_query_results_format_name.
  destruct scores_ok; cbn [negb].
  2:{ intros [= <- <-]. split; [reflexivity|]. exists 0%nat. split; [lia | reflexivity]. }
  destruct (suffix_is_allocated identifier && negb suffix_ok).
  { intros [= <- <-]. split; [reflexivity|]. exists 0%nat. split; [lia | reflexivity]. }
  destruct (guess_loop uri mime len identifier (extract_suffix identifier)
              (query_results_formats world) 0
              (replicate (raptor_sequence_size (query_results_formats world))
                         {| score := 0; factory := None |})
              {| buffer := buf; calls := [] |}) as [x|e] eqn:Hloop;
    cbn [bind]; [|discriminate].
  apply guess_loop_same_arguments in Hloop as (k & Hk & Hst).
  cbn [buffer calls app] in Hst.
  destruct (match reg_factory x with
            | Some f => Ret (Some f)
            | None => pick_top_score qsort (reg_i x) (reg_scores x)
            end) as [chosen|e]; cbn [bind]; [|discriminate].
  destruct (first_name chosen) as [nm|e]; cbn [bind]; [|discriminate].
  intros [= <- <-]. rewrite Hst. cbn [buffer calls]. split; [reflexivity|].
  exists k. split; [exact Hk | reflexivity].
Qed.

(** X13: once a registration has failed the validation, the sniffer reads
    the freed factory whenever no factory registered before it ends the
    scan. *)
Theorem guess_after_failed_validation_reads_freed_factory :
  forall (fs : list format_factory) (reg : format_factory -> Z * format_factory)
         (uri mime : option string) (buf : option (list byte)) (len : nat)
         (identifier : option string),
    fst (reg factory_calloc) = 0 ->
    missing_names_or_label (desc (snd (reg factory_calloc))) = true ->
    Forall (fun f => ~ stops_scan uri mime f) fs ->
    buffer_holds buf len ->
    rasqal_world_guess_query_results_format_name qsort
      (fst (rasqal_world_register_query_results_format_factory
              {| query_results_formats := map Live fs |} true true reg))
      true true uri mime buf len identifier
    = Crash UseAfterFree.
Proof.
  intros fs reg uri mime buf len identifier Hrc Hmiss Hpass Hholds.
  rewrite register_cases. cbv zeta. rewrite Hrc, Hmiss. cbn [Z.eqb negb fst].
  unfold rasqal_world_guess_query_results_format_name.
  cbn [negb andb query_results_formats]. rewrite andb_false_r.
  rewrite (guess_loop_prefix uri mime len identifier buf fs [Freed] Hpass Hholds).
  reflexivity.
Qed.

End SnifferFurther.

Section SnifferSorted.

(** qsort(3) is handed [compare_syntax_score], whose subtraction is the
    order of the scores only while it stays within [int]; nothing is
    assumed of the result on an array where it does not. *)
Variable qsort : list syntax_score -> list syntax_score.
Hypothesis qsort_permutation : forall l, qsort l ≡ₚ l.
Hypothesis qsort_sorted_within_int :
  forall l, compare_within_int l ->
            StronglySorted (fun a b => compare_syntax_score a b <= 0) (qsort l).

Lemma pick_top_score_within_int (scores : list syntax_score) :
  scores <> [] ->
  compare_within_int scores ->
  exists top,
    top ∈ scores /\
    Forall (fun s => score s <= score top) scores /\
    pick_top_score qsort (length scores) scores
    = Ret (if score top >=? 0 then factory top else None).
Proof.
  intros Hne Hint. unfold pick_top_score. rewrite firstn_all, drop_all, app_nil_r.
  pose proof (qsort_permutation scores) as Hperm.
  pose proof (qsort_sorted_within_int scores Hint) as Hsorted.
  destruct (qsort scores) as [|top rest].
  { apply Permutation_nil_l in Hperm. congruence. }
  exists top. split; [rewrite <- Hperm; apply list_elem_of_here|]. split; [|reflexivity].
  rewrite <- Hperm. constructor; [lia|].
  apply StronglySorted_inv in Hsorted as [_ Hrest].
  eapply Forall_impl; [exact Hrest|].
  intros s Hs. unfold compare_syntax_score in Hs. cbn beta in Hs. lia.
Qed.

(** X10: when no factory ends the scan and every score stays within [int]
    (the sum of MIME points and affinity, and with it the subtraction of
    the comparison), the sniffer answers with a factory whose recorded
    score (MIME points plus affinity, clamped to 10) is the highest of the
    registry: its first name when that score is 0 or more, nothing when it
    is negative.  Every factory that supplies [recognise_syntax] has been
    called once. *)
Theorem guess_picks_a_top_scoring_factory :
  forall (fs : list format_factory) (uri mime : option string)
         (buf : option (list byte)) (len : nat) (identifier : option string),
    fs <> [] ->
    Forall (fun f => ~ stops_scan uri mime f) fs ->
    Forall names_declared fs ->
    buffer_holds buf len ->
    Forall (score_within_int mime (shown_args buf len identifier mime)) fs ->
    let a := shown_args buf len identifier mime in
    exists f,
      f ∈ fs /\
      Forall (fun g => recorded_score mime a g <= recorded_score mime a f) fs /\
      rasqal_world_guess_query_results_format_name qsort
        {| query_results_formats := map Live fs |} true true
        uri mime buf len identifier
      = Ret (if recorded_score mime a f >=? 0 then first_name_of f else None,
             {| buffer := buf; calls := replicate (recognisers fs) a |}).
Proof.
  intros fs uri mime buf len identifier Hne Hpass Hdecl Hholds Hint a.
  destruct (pick_top_score_within_int (map (score_entry mime a) fs))
    as (top & Hin & Hmax & Hpick).
  { destruct fs; [contradiction | discriminate]. }
  { apply scores_compare_within_int. exact Hint. }
  apply list_elem_of_fmap in Hin as (f & -> & Hf).
  exists f. split; [exact Hf|]. split.
  { rewrite Forall_fmap in Hmax. exact Hmax. }
  unfold rasqal_world_guess_query_results_format_name.
  cbn [negb andb query_results_formats]. rewrite andb_false_r.
  rewrite (guess_loop_all_scored uri mime len identifier buf fs Hpass Hholds).
  cbn [bind reg_factory reg_i reg_scores reg_state].
  fold a. rewrite length_map in Hpick. rewrite Hpick. cbn [bind score_entry score factory].
  destruct (recorded_score mime a f >=? 0); cbn [bind first_name]; [|reflexivity].
  rewrite Forall_forall in Hdecl. destruct (Hdecl f Hf) as [arr Harr].
  unfold first_name_of. rewrite Harr. reflexivity.
Qed.

End SnifferSorted.


(** X14: a suffix, when the sniffer extracts one, consists of digits and
    lower-case letters only and is unchanged by lower-casing; an identifier
    that ends in a dot gives the empty suffix, not the absent one. *)
Theorem suffix_is_lower_case_alphanumeric :
  (forall (identifier : option string) (s : string),
      extract_suffix identifier = Some s ->
      all_chars is_lower_alnum s = true /\ lower_case s = s) /\
  (forall pre : string, extract_suffix (Some (pre ++ ".")%string) = Some ""%string).
Proof.
  split.
  - intros [id|] s; [|discriminate]. unfold extract_suffix.
    destruct (strrchr id ".") as [p|]; [|discriminate].
    rewrite copy_suffix_all_or_nothing.
    destruct (all_alnum (next_char p)) eqn:Hal; [|discriminate].
    intros [= <-]. apply lower_case_of_alnum, Hal.
  - intros pre. unfold extract_suffix.
    rewrite (strrchr_last "." pre ""%string eq_refl). reflexivity.
Qed.

Lemma suffix_is_lower_case_alphanumeric_witness :
  all_chars is_lower_alnum "json2" = true /\ lower_case "json2" = "json2"%string.
Proof.
  exact (proj1 suffix_is_lower_case_alphanumeric (Some "Results.V1.JSON2"%string)
           "json2"%string eq_refl).
Defined.

(** ** The further sniffer facts on sample registries *)

Lemma sample_does_not_stop (f : format_factory) :
  uri_strings (desc f) = None -> mime_types (desc f) = None ->
  forall uri mime, ~ stops_scan uri mime f.
Proof.
  intros Hu Hm uri mime [Hge|(u & arr & _ & Harr & _)]; [|congruence].
  unfold mime_points in Hge. rewrite Hm in Hge. destruct mime; lia.
Qed.

Lemma guess_stops_at_first_direct_match_witness :
  rasqal_world_guess_query_results_format_name sort_scores
    {| query_results_formats :=
         map Live [eager_factory; reader_factory] ++ Live xml_factory
           :: [Freed; Live json_factory] |} true true
    (Some "http://www.w3.org/2005/sparql-results#") None
    (Some long_buffer) 1100 (Some "x.json")
  = Ret (Some "xml",
         {| buffer := Some long_buffer;
            calls := [shown_args (Some long_buffer) 1100 (Some "x.json") None] |}).
Proof.
  apply (guess_stops_at_first_direct_match sort_scores
           [eager_factory; reader_factory] xml_factory [Freed; Live json_factory]).
  - constructor; [apply sample_does_not_stop; reflexivity|].
    constructor; [apply sample_does_not_stop; reflexivity | constructor].
  - right. eexists _, _. split; [reflexivity|]. split; [reflexivity|].
    apply list_elem_of_here.
  - eexists. reflexivity.
  - apply Nat.leb_le. vm_compute. reflexivity.
Defined.

Lemma guess_picks_a_top_scoring_factory_witness :
  exists f,
    f ∈ [reader_factory; eager_factory] /\
    rasqal_world_guess_query_results_format_name sort_scores
      {| query_results_formats := map Live [reader_factory; eager_factory] |} true true
      None None (Some long_buffer) 1100 None
    = Ret (if recorded_score None (shown_args (Some long_buffer) 1100 None None) f >=? 0
           then first_name_of f else None,
           {| buffer := Some long_buffer;
              calls := [shown_args (Some long_buffer) 1100 None None] |}).
Proof.
  destruct (guess_picks_a_top_scoring_factory sort_scores sort_scores_permutation
              (fun l _ => sort_scores_sorted l) [reader_factory; eager_factory] None None
              (Some long_buffer) 1100 None) as (f & Hf & _ & Heq).
  - discriminate.
  - constructor; [apply sample_does_not_stop; reflexivity|].
    constructor; [apply sample_does_not_stop; reflexivity | constructor].
  - constructor; [eexists; reflexivity|]. constructor; [eexists; reflexivity | constructor].
  - apply Nat.leb_le. vm_compute. reflexivity.
  - constructor; [|constructor; [|constructor]];
      (split; apply Z.leb_le; vm_compute; reflexivity).
  - exists f. split; [exact Hf | exact Heq].
Defined.

Lemma terminator_quality_preempts_mime_match_witness :
  rasqal_world_guess_query_results_format_name sort_scores
    {| query_results_formats := [Live loud_factory; Live json_factory] |} true true
    None (Some "application/json") None 0 None
  = Ret (Some "loud", {| buffer := None; calls := [] |}).
Proof.
  apply (terminator_quality_preempts_mime_match sort_scores
           [] loud_factory
           {| entries := [ {| mime_type := "text/loud"; mime_type_len := 9; q := 5 |} ];
              terminator_q := 10 |}
           [] json_factory [] None "application/json" None 0%nat None).
  - constructor.
  - reflexivity.
  - reflexivity.
  - discriminate.
  - intros (u & arr & [=] & _).
  - eexists _, _. split; [reflexivity|]. split; [reflexivity|]. discriminate.
  - eexists. reflexivity.
  - exact I.
Defined.

Lemma guess_leaves_buffer_intact_witness :
  exists st,
    rasqal_world_guess_query_results_format_name sort_scores
      {| query_results_formats := [Live eager_factory; Live steady_factory] |} true true
      None None (Some long_buffer) 1100 (Some "page.HTML")
    = Ret (Some "html", st) /\
    buffer st = Some long_buffer /\
    exists k, (k <= 2)%nat /\
              calls st
              = replicate k {| arg_buffer := Some (<[FIRSTN := x00]> long_buffer);
                               arg_len := 1100;
                               arg_identifier := Some "page.HTML"%string;
                               arg_suffix := extract_suffix (Some "page.HTML"%string);
                               arg_mime_type := None |}.
Proof.
  eexists. split; [vm_compute; reflexivity|].
  assert (Hlt : (FIRSTN < 1100)%nat) by (apply Nat.ltb_lt; vm_compute; reflexivity).
  assert (Hle : (1100 <= length long_buffer)%nat)
    by (apply Nat.leb_le; vm_compute; reflexivity).
  destruct (guess_leaves_buffer_intact sort_scores
              {| query_results_formats := [Live eager_factory; Live steady_factory] |}
              true true None None long_buffer 1100 (Some "page.HTML"%string) Hlt Hle)
    as (_ & _ & _ & Hret & _).
  eapply Hret. vm_compute. reflexivity.
Defined.

Lemma guess_returns_on_sound_registry_witness :
  exists name st,
    rasqal_world_guess_query_results_format_name sort_scores
      {| query_results_formats := map Live [csv_factory; eager_factory; xml_factory] |}
      true false None (Some "text/csv") None 0 (Some "README")
    = Ret (name, st) /\ buffer st = None.
Proof.
  apply (guess_returns_on_sound_registry sort_scores sort_scores_permutation
           sort_scores_sorted [csv_factory; eager_factory; xml_factory]).
  - discriminate.
  - repeat (constructor; [eexists; reflexivity|]). constructor.
  - exact I.
Defined.

Lemma recognisers_are_shown_the_same_arguments_witness :
  exists k st,
    rasqal_world_guess_query_results_format_name sort_scores
      {| query_results_formats := [Live eager_factory; Live eager_factory] |}
      true true None None (Some [x41; x42]) 2 (Some "a.B")
    = Ret (Some "html", st) /\
    calls st = replicate k (shown_args (Some [x41; x42]) 2 (Some "a.B") None).
Proof.
  destruct (recognisers_are_shown_the_same_arguments sort_scores
              {| query_results_formats := [Live eager_factory; Live eager_factory] |}
              true true None None (Some [x41; x42]) 2%nat (Some "a.B"%string)
              (Some "html"%string) _ eq_refl) as (_ & k & _ & Hk).
  eexists k, _. split; [reflexivity | exact Hk].
Defined.

Lemma guess_after_failed_validation_reads_freed_factory_witness :
  rasqal_world_guess_query_results_format_name sort_scores
    (fst (rasqal_world_register_query_results_format_factory
            {| query_results_formats := map Live [reader_factory; eager_factory] |}
            true true nameless_registration))
    true true None None None 0 (Some "x.csv")
  = Crash UseAfterFree.
Proof.
  apply (guess_after_failed_validation_reads_freed_factory sort_scores).
  - reflexivity.
  - reflexivity.
  - constructor; [apply sample_does_not_stop; reflexivity|].
    constructor; [apply sample_does_not_stop; reflexivity | constructor].
  - exact I.
Defined.

(** * Facts about formatters *)

Section FormatterFacts.

Variable run_init :
  code_ptr -> rasqal_query_results_formatter -> option string -> Z * option (list byte).

(** X15: rasqal_new_query_results_formatter returns a formatter only for
    the factory that the selector picks with no flag requirement, and only
    after [init], when the factory supplies it, was called once with the
    requested name on the zero-filled context and returned 0; [finish] has
    not been called then.  When a factory was found and the formatter
    allocated but nothing is returned, [finish], when supplied, was called
    exactly once; if the context could not be allocated that is the only
    call: [finish] runs although [init] never did. *)
Theorem formatter_construction_outcome :
  forall (world : rasqal_world) (formatter_ok context_ok : bool)
         (name mime uri : option string)
         (r : option rasqal_query_results_formatter) (trace : list callback),
    rasqal_new_query_results_formatter run_init world formatter_ok context_ok
      name mime uri = Ret (r, trace) ->
    match r with
    | Some fm =>
        rasqal_get_query_results_formatter_factory world name uri mime 0
        = Ret (Some (formatter_factory fm)) /\
        finish_calls trace = 0%nat /\
        match init (formatter_factory fm) with
        | Some p =>
            trace = [CalledInit p (fresh_formatter (formatter_factory fm)) name] /\
            run_init p (fresh_formatter (formatter_factory fm)) name = (0, context fm)
        | None => trace = [] /\ fm = fresh_formatter (formatter_factory fm)
        end
    | None =>
        forall f,
          rasqal_get_query_results_formatter_factory world name uri mime 0
          = Ret (Some f) ->
          formatter_ok = true ->
          finish_calls trace = (if is_set (finish f) then 1 else 0)%nat /\
          (context_length f <> 0 -> context_ok = false ->
           trace = rasqal_free_query_results_formatter
                     (Some {| formatter_factory := f; context := None |}))
    end.
Proof.
  intros world formatter_ok context_ok name mime uri r trace.
  unfold rasqal_new_query_results_formatter. cbv zeta.
  destruct (rasqal_get_query_results_formatter_factory world name uri mime 0)
    as [[f|]|e]; cbn [bind]; [| |discriminate].
  2:{ intros [= <- <-]. intros f [=]. }
  destruct formatter_ok; cbn [negb].
  2:{ intros [= <- <-]. intros g _ [=]. }
  destruct (Z.eqb_spec (context_length f) 0) as [Hz|Hnz]; cbn [negb andb].
  - (* no context wanted *)
    destruct (init f) as [p|] eqn:Hinit.
    + destruct (run_init p {| formatter_factory := f; context := None |} name)
        as [rc ctx] eqn:Hrun. cbn [fst snd].
      destruct (Z.eqb_spec rc 0) as [->|Hrc]; cbn [negb].
      * intros [= <- <-]. cbn [formatter_factory context]. rewrite Hinit.
        unfold fresh_formatter. rewrite Hz. cbn [Z.eqb].
        split; [reflexivity|]. split; [reflexivity|]. split; [reflexivity | exact Hrun].
      * intros [= <- <-]. intros g [= <-] _. split; [|contradiction].
        unfold finish_calls. cbn. destruct (finish f); reflexivity.
    + intros [= <- <-]. cbn [formatter_factory]. rewrite Hinit.
      split; [reflexivity|]. split; [reflexivity|]. split; [reflexivity|].
      unfold fresh_formatter. rewrite Hz. reflexivity.
  - destruct context_ok; cbn [negb].
    + destruct (init f) as [p|] eqn:Hinit.
      * destruct (run_init p
                    {| formatter_factory := f;
                       context := Some (replicate (Z.to_nat (context_length f)) x00) |}
                    name) as [rc ctx] eqn:Hrun. cbn [fst snd].
        assert (Hfresh : fresh_formatter f
                         = {| formatter_factory := f;
                              context := Some (replicate (Z.to_nat (context_length f)) x00) |}).
        { unfold fresh_formatter. destruct (Z.eqb_spec (context_length f) 0); congruence. }
        destruct (Z.eqb_spec rc 0) as [->|Hrc]; cbn [negb].
        -- intros [= <- <-]. cbn [formatter_factory context]. rewrite Hinit, Hfresh.
           split; [reflexivity|]. split; [reflexivity|]. split; [reflexivity | exact Hrun].
        -- intros [= <- <-]. intros g [= <-] _. split; [|discriminate].
           unfold finish_calls. cbn. destruct (finish f); reflexivity.
      * intros [= <- <-]. cbn [formatter_factory]. rewrite Hinit.
        split; [reflexivity|]. split; [reflexivity|]. split; [reflexivity|].
        unfold fresh_formatter. destruct (Z.eqb_spec (context_length f) 0); congruence.
    + intros [= <- <-]. intros g [= <-] _. split; [|reflexivity].
      unfold finish_calls. cbn. destruct (finish f); reflexivity.
Qed.

Variable qsort : list syntax_score -> list syntax_score.

(** X16: the formatter that rasqal_new_query_results_formatter_for_content
    returns is bound to the first registered factory that lists the name
    the sniffer answered: the sniffer's choice is handed over as a name, and
    the name is looked up again from the start of the registry. *)
Theorem formatter_for_content_is_bound_by_name :
  forall (fs : list format_factory)
         (scores_ok suffix_ok formatter_ok context_ok : bool)
         (uri mime : option string) (buf : option (list byte)) (len : nat)
         (identifier : option string)
         (fm : rasqal_query_results_formatter) (trace : list callback)
         (st : sniff_state),
    Forall names_declared fs ->
    rasqal_new_query_results_formatter_for_content run_init qsort
      {| query_results_formats := map Live fs |}
      scores_ok suffix_ok formatter_ok context_ok uri mime buf len identifier
    = Ret (Some fm, trace, st) ->
    exists n,
      rasqal_world_guess_query_results_format_name qsort
        {| query_results_formats := map Live fs |} scores_ok suffix_ok
        uri mime buf len identifier = Ret (Some n, st) /\
      find (lists_name n) fs = Some (formatter_factory fm).
Proof.
  intros fs scores_ok suffix_ok formatter_ok context_ok uri mime buf len identifier
         fm trace st Hdecl.
  unfold rasqal_new_query_results_formatter_for_content.
  destruct (rasqal_world_guess_query_results_format_name qsort
              {| query_results_formats := map Live fs |} scores_ok suffix_ok
              uri mime buf len identifier) as [[[n|] st']|e]; cbn [bind fst snd];
    [| discriminate | discriminate].
  destruct (rasqal_new_query_results_formatter run_init
              {| query_results_formats := map Live fs |} formatter_ok context_ok
              (Some n) None None) as [[r tr]|e] eqn:Hnew; cbn [bind]; [|discriminate].
  intros [= -> -> ->]. exists n. split; [reflexivity|].
  revert Hnew. unfold rasqal_new_query_results_formatter,
                 rasqal_get_query_results_formatter_factory.
  cbn [query_results_formats]. cbv zeta.
  rewrite (scan_by_name_only n 0 fs Hdecl). cbn [bind].
  change (fun f => accepts 0 f && lists_name n f) with (lists_name n).
  destruct (find (lists_name n) fs) as [f|]; [|discriminate].
  destruct formatter_ok; cbn [negb]; [|discriminate].
  destruct (negb (context_length f =? 0) && negb context_ok); [discriminate|].
  destruct (init f) as [p|].
  - destruct (negb (fst (run_init p _ (Some n)) =? 0)); [discriminate|].
    intros [= <- _]. reflexivity.
  - intros [= <- _]. destruct (context_length f =? 0); reflexivity.
Qed.

Variable row : Type.
Variable iostream : Type.
Variable run_get_rowsource :
  code_ptr -> rasqal_query_results_formatter -> iostream -> option string ->
  option (list row).

Lemma drain_rowsource_appends (rowsource results : list row) :
  drain_rowsource row rowsource results = results ++ rowsource.
Proof.
  revert results. induction rowsource as [|r rest IH]; intros results; cbn [drain_rowsource].
  - rewrite app_nil_r. reflexivity.
  - rewrite IH, <- app_assoc. reflexivity.
Qed.

(** X17: rasqal_query_results_formatter_read returns 0 exactly when the
    factory supplies [get_rowsource] and it builds a row source; the result
    set then keeps the rows it had and gains every row of the source, in the
    order the source yields them.  Otherwise it returns 1 and the result set
    is untouched. *)
Theorem formatter_read_appends_rows :
  forall (iostr : iostream) (fm : rasqal_query_results_formatter)
         (results : list row) (base_uri : string),
    let r := rasqal_query_results_formatter_read row iostream run_get_rowsource
               iostr fm results base_uri in
    (fst r = 0 \/ fst r = 1) /\
    (fst r = 0 <->
     exists p rows, get_rowsource (formatter_factory fm) = Some p /\
                    run_get_rowsource p fm iostr (Some base_uri) = Some rows) /\
    (forall p rows, get_rowsource (formatter_factory fm) = Some p ->
                    run_get_rowsource p fm iostr (Some base_uri) = Some rows ->
                    snd r = results ++ rows) /\
    (fst r = 1 -> snd r = results).
Proof.
  intros iostr fm results base_uri r. subst r.
  unfold rasqal_query_results_formatter_read.
  destruct (get_rowsource (formatter_factory fm)) as [p|].
  - destruct (run_get_rowsource p fm iostr (Some base_uri)) as [rows|] eqn:Hrun;
      cbn [fst snd].
    + split; [left; reflexivity|]. split; [split; [eauto | reflexivity]|].
      split; [|discriminate].
      intros p' rows' [= <-] Hrows. rewrite Hrun in Hrows. injection Hrows as <-.
      apply drain_rowsource_appends.
    + split; [right; reflexivity|]. split.
      * split; [discriminate|]. intros (p' & rows & [= <-] & Hrows). congruence.
      * split; [|reflexivity]. intros p' rows' [= <-] Hrows. congruence.
  - cbn [fst snd]. split; [right; reflexivity|]. split.
    + split; [discriminate | intros (p & rows & [=] & _)].
    + split; [intros p rows [=] | reflexivity].
Qed.

End FormatterFacts.

Lemma formatter_construction_outcome_witness :
  rasqal_new_query_results_formatter refusing_init
    {| query_results_formats := [Live alias_factory] |} true true
    (Some "rs") None None
  = Ret (None,
         [CalledInit 11%positive (fresh_formatter alias_factory) (Some "rs");
          CalledFinish 12%positive (fresh_formatter alias_factory)]) /\
  finish_calls
    [CalledInit 11%positive (fresh_formatter alias_factory) (Some "rs");
     CalledFinish 12%positive (fresh_formatter alias_factory)] = 1%nat.
Proof.
  split; [reflexivity|].
  exact (proj1 (formatter_construction_outcome refusing_init
                  {| query_results_formats := [Live alias_factory] |} true true
                  (Some "rs") None None None _ eq_refl alias_factory eq_refl eq_refl)).
Defined.

Lemma formatter_for_content_is_bound_by_name_witness :
  exists n st,
    rasqal_world_guess_query_results_format_name sort_scores
      {| query_results_formats := map Live [alias_factory; xml_factory] |} true true
      (Some "http://www.w3.org/2005/sparql-results#") None None 0 None
    = Ret (Some n, st) /\
    find (lists_name n) [alias_factory; xml_factory] = Some alias_factory.
Proof.
  destruct (formatter_for_content_is_bound_by_name sample_init sort_scores
              [alias_factory; xml_factory] true true true true
              (Some "http://www.w3.org/2005/sparql-results#"%string) None None 0%nat None
              _ _ _
              ltac:(repeat (constructor; [eexists; reflexivity|]); constructor)
              eq_refl) as (n & Hguess & Hfind).
  exists n. eexists. split; [exact Hguess | exact Hfind].
Defined.

Lemma formatter_read_appends_rows_witness :
  snd (rasqal_query_results_formatter_read nat unit
         (fun _ _ _ _ => Some [3; 4]%nat) tt
         (fresh_formatter reader_factory) [1; 2]%nat "http://example.org/")
  = [1; 2; 3; 4]%nat.
Proof.
  exact (proj1 (proj2 (proj2
           (formatter_read_appends_rows nat unit (fun _ _ _ _ => Some [3; 4]%nat) tt
              (fresh_formatter reader_factory) [1; 2]%nat "http://example.org/")))
           5%positive [3; 4]%nat eq_refl eq_refl).
Defined.

(** * Facts about XSD lexical forms *)

Lemma append_cons (c : ascii) (s r : string) :
  (String c s ++ r)%string = String c (s ++ r)%string.
Proof. reflexivity. Qed.

Lemma append_empty_r (s : string) : (s ++ "")%string = s.
Proof. induction s as [|c s IH]; [reflexivity|]. rewrite append_cons, IH. reflexivity. Qed.

Lemma skip_digits_app (ds r : string) :
  all_digits ds = true -> skip_digits (ds ++ r)%string = skip_digits r.
Proof.
  unfold all_digits. induction ds as [|c ds IH]; [reflexivity|].
  rewrite append_cons. cbn [all_chars skip_digits].
  intros H. apply andb_true_iff in H as [Hc Hds]. rewrite Hc. exact (IH Hds).
Qed.

Lemma skip_digits_split (s : string) :
  exists ds, s = (ds ++ skip_digits s)%string /\ all_digits ds = true.
Proof.
  induction s as [|c s IH]; cbn [skip_digits].
  - exists ""%string. split; reflexivity.
  - destruct (isdigit c) eqn:Hc.
    + destruct IH as (ds & Hs & Hds). exists (String c ds). split.
      * rewrite append_cons, <- Hs. reflexivity.
      * unfold all_digits in *. cbn [all_chars]. rewrite Hc, Hds. reflexivity.
    + exists ""%string. split; reflexivity.
Qed.

Lemma skip_digits_all (s : string) : skip_digits s = ""%string -> all_digits s = true.
Proof.
  intros H. destruct (skip_digits_split s) as (ds & Hs & Hds).
  rewrite H, append_empty_r in Hs. subst ds. exact Hds.
Qed.

Lemma all_digits_skipped (s : string) : all_digits s = true -> skip_digits s = ""%string.
Proof.
  unfold all_digits. induction s as [|c s IH]; cbn [all_chars skip_digits]; [reflexivity|].
  intros H. apply andb_true_iff in H as [Hc Hs]. rewrite Hc. exact (IH Hs).
Qed.

Lemma decimal_body_accepts (p : string) :
  decimal_body p = 1 <->
  exists whole rest : string,
    p = (whole ++ rest)%string /\ all_digits whole = true /\
    (rest = ""%string \/ exists frac, rest = String "." frac /\ all_digits frac = true).
Proof.
  unfold decimal_body. split.
  - destruct (skip_digits_split p) as (ds & Hp & Hds).
    destruct (skip_digits p) as [|c rest] eqn:Hskip.
    + intros _. exists ds, ""%string. auto.
    + destruct (Ascii.eqb_spec c ".") as [->|Hne]; cbn [negb]; [|discriminate].
      destruct (skip_digits rest) eqn:Hrest; [|discriminate].
      intros _. exists ds, (String "." rest). split; [exact Hp|]. split; [exact Hds|].
      right. exists rest. split; [reflexivity | apply skip_digits_all, Hrest].
  - intros (whole & rest & -> & Hwhole & [-> | (frac & -> & Hfrac)]).
    + rewrite skip_digits_app by exact Hwhole. reflexivity.
    + rewrite skip_digits_app by exact Hwhole. cbn [skip_digits].
      change (isdigit ".") with false. cbn [Ascii.eqb Bool.eqb negb].
      rewrite (all_digits_skipped frac Hfrac). reflexivity.
Qed.

Lemma decimal_check_unfold (s : string) (flags : Z) :
  rasqal_xsd_check_decimal_format s flags
  = match s with
    | String c rest =>
        if Ascii.eqb c "+" || Ascii.eqb c "-"
        then match rest with
             | EmptyString => 0
             | String _ _ => decimal_body rest
             end
        else decimal_body s
    | EmptyString => 1
    end.
Proof.
  unfold rasqal_xsd_check_decimal_format, decimal_body.
  destruct s as [|c rest]; [reflexivity|].
  destruct (Ascii.eqb c "+" || Ascii.eqb c "-"); [|reflexivity].
  destruct rest; reflexivity.
Qed.

Lemma digits_have_no_sign (whole rest : string) (c : ascii) (tail : string) :
  all_digits whole = true ->
  (rest = ""%string \/ exists frac, rest = String "." frac /\ all_digits frac = true) ->
  (whole ++ rest)%string = String c tail ->
  Ascii.eqb c "+" || Ascii.eqb c "-" = false.
Proof.
  intros Hwhole Hrest Heq. destruct whole as [|d whole].
  - change (rest = String c tail) in Heq.
    destruct Hrest as [-> | (frac & -> & _)]; [discriminate|].
    injection Heq as <- _. reflexivity.
  - rewrite append_cons in Heq. injection Heq as <- _.
    unfold all_digits in Hwhole. cbn [all_chars] in Hwhole.
    apply andb_true_iff in Hwhole as [Hd _].
    destruct d as [[] [] [] [] [] [] [] []]; try reflexivity; discriminate Hd.
Qed.

(** X18: rasqal_xsd_check_decimal_format answers 1 exactly for the strings
    made of an optional sign, digits, and optionally a dot followed by
    digits, where a sign must be followed by at least one more character;
    every other string gets 0.  Both digit runs may be empty: the empty
    string and a lone dot are accepted, a lone sign is not. *)
Theorem decimal_check_accepts_decimal_shape :
  forall (s : string) (flags : Z),
    (rasqal_xsd_check_decimal_format s flags = 1 <-> decimal_shape s) /\
    (rasqal_xsd_check_decimal_format s flags = 0 <-> ~ decimal_shape s).
Proof.
  intros s flags.
  assert (Hbit : rasqal_xsd_check_decimal_format s flags = 1 \/
                 rasqal_xsd_check_decimal_format s flags = 0).
  { unfold rasqal_xsd_check_decimal_format.
    repeat match goal with
           | |- context [match ?x with _ => _ end] => destruct x
           end; auto. }
  assert (Hiff : rasqal_xsd_check_decimal_format s flags = 1 <-> decimal_shape s).
  { rewrite decimal_check_unfold. unfold decimal_shape.
    destruct s as [|c tail].
    - split; [intros _ | reflexivity].
      exists ""%string, ""%string, ""%string. repeat split; auto; congruence.
    - destruct (Ascii.eqb c "+" || Ascii.eqb c "-") eqn:Hsign.
      + assert (Hc : String c ""%string = "+"%string \/ String c ""%string = "-"%string).
        { apply orb_true_iff in Hsign as [H|H]; apply Ascii.eqb_eq in H; subst; auto. }
        split.
        * destruct tail as [|d tail]; [discriminate|].
          intros Hbody. apply decimal_body_accepts in Hbody as (whole & rest & Heq & Hw & Hr).
          exists (String c ""%string), whole, rest.
          split; [rewrite append_cons, <- Heq; reflexivity|].
          split; [right; exact Hc|]. split; [exact Hw|]. split; [exact Hr|].
          intros _. rewrite <- Heq. discriminate.
        * intros (sign & whole & rest & Heq & Hsg & Hw & Hr & Hgo).
          destruct Hsg as [-> | Hsg].
          { change (String c tail = (whole ++ rest)%string) in Heq. symmetry in Heq.
            rewrite (digits_have_no_sign whole rest c tail Hw Hr Heq) in Hsign.
            discriminate Hsign. }
          assert (Htail : tail = (whole ++ rest)%string).
          { destruct Hsg as [-> | ->]; rewrite append_cons in Heq;
              change (""%string ++ (whole ++ rest))%string with (whole ++ rest)%string in Heq;
              congruence. }
          assert (Hne : (whole ++ rest)%string <> ""%string).
          { apply Hgo. destruct Hsg as [-> | ->]; discriminate. }
          rewrite <- Htail in Hne. destruct tail as [|d tail]; [contradiction|].
          apply decimal_body_accepts. exists whole, rest. auto.
      + split.
        * intros Hbody. apply decimal_body_accepts in Hbody as (whole & rest & Heq & Hw & Hr).
          exists ""%string, whole, rest. repeat split; auto; congruence.
        * intros (sign & whole & rest & Heq & Hsg & Hw & Hr & _).
          destruct Hsg as [-> | [-> | ->]].
          -- apply decimal_body_accepts. exists whole, rest. auto.
          -- rewrite append_cons in Heq. injection Heq as -> _. discriminate Hsign.
          -- rewrite append_cons in Heq. injection Heq as -> _. discriminate Hsign. }
  split; [exact Hiff|]. rewrite <- Hiff. destruct Hbit as [H|H]; rewrite H; split; congruence.
Qed.

Lemma decimal_check_accepts_decimal_shape_witness :
  decimal_shape "-12.50" /\ ~ decimal_shape "1e5" /\ ~ decimal_shape "+" /\
  decimal_shape "." /\ decimal_shape "".
Proof.
  split; [|split; [|split; [|split]]].
  - apply (proj1 (decimal_check_accepts_decimal_shape "-12.50" 0)). reflexivity.
  - apply (proj2 (decimal_check_accepts_decimal_shape "1e5" 0)). reflexivity.
  - apply (proj2 (decimal_check_accepts_decimal_shape "+" 0)). reflexivity.
  - apply (proj1 (decimal_check_accepts_decimal_shape "." 0)). reflexivity.
  - apply (proj1 (decimal_check_accepts_decimal_shape "" 0)). reflexivity.
Defined.

Lemma all_digits_of_uint (d : Decimal.uint) :
  all_digits (NilEmpty.string_of_uint d) = true.
Proof.
  unfold all_digits. induction d; cbn [NilEmpty.string_of_uint all_chars];
    [reflexivity | exact IHd ..].
Qed.

Lemma decimal_digits_present (d : Decimal.uint) :
  exists c rest, NilZero.string_of_uint d = String c rest /\
                 all_digits (String c rest) = true.
Proof.
  pose proof (all_digits_of_uint d) as H.
  destruct d; cbn [NilZero.string_of_uint NilEmpty.string_of_uint] in *;
    eexists _, _; (split; [reflexivity|]); first [exact H | reflexivity].
Qed.

Lemma all_digits_prefix (n : nat) (s : string) :
  all_digits s = true -> all_digits (substring 0 n s) = true.
Proof.
  unfold all_digits. revert s. induction n as [|n IH]; intros s H.
  - destruct s; reflexivity.
  - destruct s as [|c s]; [reflexivity|]. cbn [substring all_chars] in *.
    apply andb_true_iff in H as [Hc Hs]. rewrite Hc. exact (IH s Hs).
Qed.

Lemma digits_pass_decimal_body (s : string) :
  all_digits s = true -> decimal_body s = 1.
Proof.
  intros H. apply decimal_body_accepts. exists s, ""%string.
  rewrite append_empty_r. auto.
Qed.

Lemma digit_is_no_sign (c : ascii) :
  isdigit c = true -> Ascii.eqb c "+" || Ascii.eqb c "-" = false.
Proof. destruct c as [[] [] [] [] [] [] [] []]; try reflexivity; discriminate. Qed.

Lemma substring_cons (n : nat) (c : ascii) (s : string) :
  substring 0 (S n) (String c s) = String c (substring 0 n s).
Proof. reflexivity. Qed.

Lemma length_substring_le (n : nat) (s : string) :
  (String.length (substring 0 n s) <= n)%nat.
Proof.
  revert s. induction n as [|n IH]; intros s; destruct s as [|c s]; cbn; try lia.
  specialize (IH s). lia.
Qed.

(** X19: every string that rasqal_xsd_format_integer produces is accepted
    by rasqal_xsd_check_decimal_format; it is not empty, fits the buffer of
    INTEGER_BUFFER_SIZE characters, and the length reported is its length.
    Nothing is produced only when the allocation fails. *)
Theorem formatted_integer_is_a_decimal :
  forall (malloc_ok : bool) (i : Z),
    match rasqal_xsd_format_integer malloc_ok i with
    | Some (str, n) =>
        rasqal_xsd_check_decimal_format str 0 = 1 /\
        n = String.length str /\ (1 <= n <= INTEGER_BUFFER_SIZE)%nat
    | None => malloc_ok = false
    end.
Proof.
  intros malloc_ok i. unfold rasqal_xsd_format_integer.
  destruct malloc_ok; cbn [negb]; [|reflexivity].
  unfold snprintf_d. change (INTEGER_BUFFER_SIZE + 1 - 1)%nat with 20%nat.
  split; [|split; [reflexivity|]].
  - rewrite decimal_check_unfold.
    destruct i as [|p|p]; cbn [Z.to_int NilZero.string_of_int].
    + reflexivity.
    + destruct (decimal_digits_present (Pos.to_uint p)) as (c & rest & -> & Hd).
      rewrite substring_cons.
      assert (Hc : isdigit c = true).
      { unfold all_digits in Hd. cbn [all_chars] in Hd.
        apply andb_true_iff in Hd as [Hc _]. exact Hc. }
      rewrite (digit_is_no_sign c Hc). apply digits_pass_decimal_body.
      rewrite <- substring_cons. apply all_digits_prefix, Hd.
    + destruct (decimal_digits_present (Pos.to_uint p)) as (c & rest & -> & Hd).
      rewrite !substring_cons. cbn [Ascii.eqb Bool.eqb orb].
      apply digits_pass_decimal_body.
      rewrite <- substring_cons. apply all_digits_prefix, Hd.
  - split; [|apply length_substring_le].
    destruct i as [|p|p]; cbn [Z.to_int NilZero.string_of_int].
    + cbn. lia.
    + destruct (decimal_digits_present (Pos.to_uint p)) as (c & rest & -> & _).
      rewrite substring_cons. cbn [String.length]. lia.
    + rewrite substring_cons. cbn [String.length]. lia.
Qed.

(** * Facts about the XSD type tables *)

Lemma eqb_append_prefix (ns a b : string) :
  String.eqb (ns ++ a)%string (ns ++ b)%string = String.eqb a b.
Proof.
  induction ns as [|c ns IH]; [reflexivity|].
  rewrite !append_cons. cbn [String.eqb]. rewrite Ascii.eqb_refl. exact IH.
Qed.

Section XsdTypeFacts.

Variable RASQAL_LITERAL_INTEGER_SUBTYPE : Z.
Hypothesis subtype_is_a_later_enumerator :
  RASQAL_LITERAL_VARIABLE < RASQAL_LITERAL_INTEGER_SUBTYPE.

#[local] Abbreviation parent :=
  (rasqal_xsd_datatype_parent_type RASQAL_LITERAL_INTEGER_SUBTYPE).
#[local] Abbreviation numeric :=
  (rasqal_xsd_datatype_is_numeric RASQAL_LITERAL_INTEGER_SUBTYPE).

Lemma parent_of_unknown : parent RASQAL_LITERAL_UNKNOWN = RASQAL_LITERAL_UNKNOWN.
Proof.
  unfold rasqal_xsd_datatype_parent_type.
  destruct (Z.eqb_spec RASQAL_LITERAL_UNKNOWN RASQAL_LITERAL_INTEGER_SUBTYPE) as [H|_];
    [|reflexivity].
  unfold RASQAL_LITERAL_VARIABLE, RASQAL_LITERAL_UNKNOWN in *. lia.
Qed.

Lemma iter_parent_of_unknown (n : nat) :
  Nat.iter n parent RASQAL_LITERAL_UNKNOWN = RASQAL_LITERAL_UNKNOWN.
Proof.
  induction n as [|n IH]; [reflexivity|]. rewrite Nat.iter_succ, IH. apply parent_of_unknown.
Qed.

(** The types split three ways. *)
Lemma type_cases (type : Z) :
  type = RASQAL_LITERAL_INTEGER_SUBTYPE \/
  (type <> RASQAL_LITERAL_INTEGER_SUBTYPE /\
   (type = 5 \/ type = 6 \/ type = 7 \/ type = 8 \/ type = 9)) \/
  (type <> RASQAL_LITERAL_INTEGER_SUBTYPE /\ (type < 5 \/ 9 < type)).
Proof.
  destruct (Z.eq_dec type RASQAL_LITERAL_INTEGER_SUBTYPE); [left; assumption|].
  right. destruct (Z_lt_le_dec type 5); [right; split; [assumption | lia]|].
  destruct (Z_lt_le_dec 9 type); [right; split; [assumption | lia]|].
  left. split; [assumption | lia].
Qed.

Lemma parent_of_other (type : Z) :
  type <> RASQAL_LITERAL_INTEGER_SUBTYPE -> type < 5 \/ 9 < type ->
  parent type = RASQAL_LITERAL_UNKNOWN /\ numeric type = false.
Proof.
  intros Hne Hrange. unfold rasqal_xsd_datatype_parent_type,
                       rasqal_xsd_datatype_is_numeric.
  destruct (Z.eqb_spec type RASQAL_LITERAL_INTEGER_SUBTYPE) as [|_]; [contradiction|].
  rewrite orb_false_r.
  unfold RASQAL_LITERAL_FIRST_XSD, RASQAL_LITERAL_LAST_XSD, RASQAL_LITERAL_XSD_STRING,
    RASQAL_LITERAL_DATETIME, RASQAL_LITERAL_BOOLEAN, RASQAL_LITERAL_DECIMAL.
  split.
  - destruct (Z.leb_spec 4 type), (Z.leb_spec type 10); cbn [andb]; try reflexivity.
    assert (Hcase : type = 4 \/ type = 10) by lia.
    destruct Hcase as [-> | ->]; reflexivity.
  - destruct (Z.leb_spec 5 type), (Z.leb_spec type 9); cbn [andb]; try reflexivity. lia.
Qed.

(** X20: type promotion ends.  From every type, at most six steps of
    rasqal_xsd_datatype_parent_type lead to RASQAL_LITERAL_UNKNOWN, where
    the chain stays; and the numeric types of
    rasqal_xsd_datatype_is_numeric are exactly the types whose chain passes
    through xsd:decimal (boolean among them, dateTime and string not). *)
Theorem promotion_chain_ends_and_marks_numeric_types :
  forall type : Z,
    Nat.iter 6 parent type = RASQAL_LITERAL_UNKNOWN /\
    (numeric type = true <->
     exists n, Nat.iter n parent type = RASQAL_LITERAL_DECIMAL).
Proof.
  intros type.
  assert (Hsub : forall t, t = RASQAL_LITERAL_INTEGER_SUBTYPE ->
                           parent t = RASQAL_LITERAL_INTEGER /\ numeric t = true).
  { intros t ->. unfold rasqal_xsd_datatype_parent_type,
                   rasqal_xsd_datatype_is_numeric.
    rewrite Z.eqb_refl, orb_true_r. split; reflexivity. }
  assert (Hmid : forall t, t <> RASQAL_LITERAL_INTEGER_SUBTYPE ->
                           parent t = rasqal_xsd_datatype_parent_type (-1) t /\
                           numeric t = rasqal_xsd_datatype_is_numeric (-1) t \/
                           t = -1).
  { intros t Hne. destruct (Z.eq_dec t (-1)) as [|Hm]; [right; assumption|]. left.
    unfold rasqal_xsd_datatype_parent_type, rasqal_xsd_datatype_is_numeric.
    destruct (Z.eqb_spec t RASQAL_LITERAL_INTEGER_SUBTYPE); [contradiction|].
    destruct (Z.eqb_spec t (-1)); [contradiction|]. split; reflexivity. }
  assert (Hconst : forall k, (5 <= k <= 9) -> k <> RASQAL_LITERAL_INTEGER_SUBTYPE).
  { intros k Hk. unfold RASQAL_LITERAL_VARIABLE in *. lia. }
  assert (Hstep : forall k, (5 <= k <= 9) ->
                            parent k = rasqal_xsd_datatype_parent_type (-1) k /\
                            numeric k = true).
  { intros k Hk. destruct (Hmid k (Hconst k Hk)) as [[Hp Hn] | ->]; [|lia].
    split; [exact Hp|]. rewrite Hn.
    assert (Hcase : k = 5 \/ k = 6 \/ k = 7 \/ k = 8 \/ k = 9) by lia.
    destruct Hcase as [-> | [-> | [-> | [-> | ->]]]]; reflexivity. }
  assert (H5 : parent 5 = 6) by (rewrite (proj1 (Hstep 5 ltac:(lia))); reflexivity).
  assert (H6 : parent 6 = 7) by (rewrite (proj1 (Hstep 6 ltac:(lia))); reflexivity).
  assert (H7 : parent 7 = 8) by (rewrite (proj1 (Hstep 7 ltac:(lia))); reflexivity).
  assert (H8 : parent 8 = 9) by (rewrite (proj1 (Hstep 8 ltac:(lia))); reflexivity).
  assert (H9 : parent 9 = 0) by (rewrite (proj1 (Hstep 9 ltac:(lia))); reflexivity).
  assert (H0 : parent 0 = 0) by exact parent_of_unknown.
  destruct (type_cases type) as [Hs | [[Hne Hcase] | [Hne Hout]]].
  - destruct (Hsub type Hs) as [Hp Hn]. change RASQAL_LITERAL_INTEGER with 6 in Hp.
    split.
    + change (Nat.iter 6 parent type)
        with (parent (parent (parent (parent (parent (parent type)))))).
      rewrite Hp, H6, H7, H8, H9. exact H0.
    + split; [|intros _; exact Hn]. intros _. exists 4%nat.
      change (Nat.iter 4 parent type) with (parent (parent (parent (parent type)))).
      rewrite Hp, H6, H7, H8. reflexivity.
  - assert (Hn : numeric type = true) by (apply Hstep; lia).
    split.
    + change (Nat.iter 6 parent type)
        with (parent (parent (parent (parent (parent (parent type)))))).
      destruct Hcase as [-> | [-> | [-> | [-> | ->]]]];
        rewrite ?H5, ?H6, ?H7, ?H8, ?H9, ?H0; reflexivity.
    + split; [|intros _; exact Hn]. intros _.
      destruct Hcase as [-> | [-> | [-> | [-> | ->]]]].
      * exists 4%nat.
        change (Nat.iter 4 parent 5) with (parent (parent (parent (parent 5)))).
        rewrite H5, H6, H7, H8. reflexivity.
      * exists 3%nat. change (Nat.iter 3 parent 6) with (parent (parent (parent 6))).
        rewrite H6, H7, H8. reflexivity.
      * exists 2%nat. change (Nat.iter 2 parent 7) with (parent (parent 7)).
        rewrite H7, H8. reflexivity.
      * exists 1%nat. change (Nat.iter 1 parent 8) with (parent 8). exact H8.
      * exists 0%nat. reflexivity.
  - destruct (parent_of_other type Hne Hout) as [Hp Hn]. split.
    + change (Nat.iter 6 parent type) with (Nat.iter 5 parent (parent type)).
      rewrite Hp. apply iter_parent_of_unknown.
    + rewrite Hn. split; [discriminate|]. intros [n Hiter]. exfalso.
      destruct n as [|n].
      * change (type = RASQAL_LITERAL_DECIMAL) in Hiter.
        unfold RASQAL_LITERAL_DECIMAL in Hiter. lia.
      * rewrite Nat.iter_succ_r, Hp, iter_parent_of_unknown in Hiter.
        discriminate Hiter.
Qed.

End XsdTypeFacts.

Lemma promotion_chain_ends_and_marks_numeric_types_witness :
  Nat.iter 6 (rasqal_xsd_datatype_parent_type 15) RASQAL_LITERAL_BOOLEAN
  = RASQAL_LITERAL_UNKNOWN /\
  (rasqal_xsd_datatype_is_numeric 15 RASQAL_LITERAL_BOOLEAN = true <->
   exists n, Nat.iter n (rasqal_xsd_datatype_parent_type 15) RASQAL_LITERAL_BOOLEAN
             = RASQAL_LITERAL_DECIMAL).
Proof.
  apply (promotion_chain_ends_and_marks_numeric_types 15). reflexivity.
Defined.

Lemma fill_datatype_uris_done (ns : string) (uri_ok : nat -> bool) (indices : list nat) :
  forall uris : list (option string),
    Forall (fun i => uri_ok i = true /\ is_Some (nth i sparql_xsd_names None)) indices ->
    fill_datatype_uris ns uri_ok indices uris
    = (0, fold_left
            (fun u i => <[i := option_map (String.append ns) (nth i sparql_xsd_names None)]> u)
            indices uris).
Proof.
  induction indices as [|i rest IH]; intros uris Hall; cbn [fill_datatype_uris fold_left];
    [reflexivity|].
  apply Forall_cons in Hall as [[Hok [name Hname]] Hrest].
  rewrite Hok, Hname. cbn [option_map]. apply IH, Hrest.
Qed.

Lemma fill_datatype_uris_fails (ns : string) (uri_ok : nat -> bool) (indices : list nat) :
  forall uris : list (option string),
    fst (fill_datatype_uris ns uri_ok indices uris) = 0 \/
    fst (fill_datatype_uris ns uri_ok indices uris) = 1.
Proof.
  induction indices as [|i rest IH]; intros uris; cbn [fill_datatype_uris]; [left; reflexivity|].
  destruct (if uri_ok i then _ else None); [apply IH | right; reflexivity].
Qed.

Lemma fill_datatype_uris_needs (ns : string) (uri_ok : nat -> bool) (indices : list nat) :
  forall uris : list (option string),
    fst (fill_datatype_uris ns uri_ok indices uris) = 0 ->
    Forall (fun i => uri_ok i = true) indices.
Proof.
  induction indices as [|i rest IH]; intros uris; cbn [fill_datatype_uris]; [constructor|].
  destruct (uri_ok i) eqn:Hok; [|discriminate].
  destruct (option_map _ _); [|discriminate].
  intros H. constructor; [exact Hok | exact (IH _ H)].
Qed.

Lemma uri_equals_append_prefix (ns n : string) (x : option string) :
  raptor_uri_equals (Some (ns ++ n)%string) (option_map (String.append ns) x)
  = raptor_uri_equals (Some n) x.
Proof.
  destruct x as [y|]; [|reflexivity]. cbn [option_map raptor_uri_equals].
  unfold streq. apply eqb_append_prefix.
Qed.

Lemma scan_datatype_uris_append_prefix (subtype : Z) (ns n : string)
    (l : list (option string)) (steps : nat) :
  forall i : Z,
    scan_datatype_uris subtype (map (option_map (String.append ns)) l)
      (ns ++ n)%string i steps
    = scan_datatype_uris subtype l n i steps.
Proof.
  induction steps as [|k IH]; intros i; cbn [scan_datatype_uris]; [reflexivity|].
  change (@None string) with (option_map (String.append ns) None) at 1.
  rewrite map_nth, uri_equals_append_prefix, IH. reflexivity.
Qed.

Lemma xsd_init_table (ns : string) (uri_ok : nat -> bool) :
  (forall i, (4 <= i <= 22)%nat -> uri_ok i = true) ->
  rasqal_xsd_init ns true true uri_ok
  = (0, {| xsd_namespace_uri := Some ns;
           xsd_datatype_uris :=
             Some (map (option_map (String.append ns)) sparql_xsd_names) |}).
Proof.
  intros Hok. unfold rasqal_xsd_init. cbn [negb].
  rewrite fill_datatype_uris_done.
  - reflexivity.
  - change (seq (Z.to_nat RASQAL_LITERAL_FIRST_XSD)
              (Z.to_nat (SPARQL_XSD_NAMES_COUNT - RASQAL_LITERAL_FIRST_XSD)))
      with [4; 5; 6; 7; 8; 9; 10; 11; 12; 13; 14; 15; 16; 17; 18; 19; 20; 21; 22]%nat.
    repeat (constructor; [split; [apply Hok; lia | eexists; reflexivity]|]).
    constructor.
Qed.

Section XsdUriFacts.

Variable RASQAL_LITERAL_INTEGER_SUBTYPE : Z.

#[local] Abbreviation uri_to_type :=
  (rasqal_xsd_datatype_uri_to_type RASQAL_LITERAL_INTEGER_SUBTYPE).

Lemma uri_to_type_of_name (ns n : string) :
  uri_to_type
    {| xsd_namespace_uri := Some ns;
       xsd_datatype_uris := Some (map (option_map (String.append ns)) sparql_xsd_names) |}
    (Some (ns ++ n)%string)
  = scan_datatype_uris RASQAL_LITERAL_INTEGER_SUBTYPE sparql_xsd_names n
      RASQAL_LITERAL_FIRST_XSD
      (Z.to_nat (XSD_INTEGER_DERIVED_LAST - RASQAL_LITERAL_FIRST_XSD + 1)).
Proof.
  unfold rasqal_xsd_datatype_uri_to_type. cbn [xsd_datatype_uris].
  apply scan_datatype_uris_append_prefix.
Qed.

(** X21: rasqal_xsd_init returns 0 exactly when every allocation succeeds;
    in the world it then leaves, rasqal_xsd_datatype_type_to_uri gives every
    XSD type (xsd:string to xsd:dateTime) a URI and
    rasqal_xsd_datatype_uri_to_type maps that URI back to the type. *)
Theorem datatype_uri_round_trip :
  forall (ns : string) (ns_ok table_ok : bool) (uri_ok : nat -> bool),
    (fst (rasqal_xsd_init ns ns_ok table_ok uri_ok) = 0 <->
     ns_ok = true /\ table_ok = true /\
     forall i, (4 <= i <= 22)%nat -> uri_ok i = true) /\
    (fst (rasqal_xsd_init ns ns_ok table_ok uri_ok) = 0 ->
     forall type,
       RASQAL_LITERAL_FIRST_XSD <= type <= RASQAL_LITERAL_LAST_XSD ->
       exists u,
         rasqal_xsd_datatype_type_to_uri
           (snd (rasqal_xsd_init ns ns_ok table_ok uri_ok)) type = Some u /\
         uri_to_type (snd (rasqal_xsd_init ns ns_ok table_ok uri_ok)) (Some u) = type).
Proof.
  intros ns ns_ok table_ok uri_ok.
  assert (Hiff : fst (rasqal_xsd_init ns ns_ok table_ok uri_ok) = 0 <->
                 ns_ok = true /\ table_ok = true /\
                 forall i, (4 <= i <= 22)%nat -> uri_ok i = true).
  { split.
    - unfold rasqal_xsd_init. destruct ns_ok; cbn [negb fst]; [|discriminate].
      destruct table_ok; cbn [negb fst]; [|discriminate].
      intros H. apply fill_datatype_uris_needs in H.
      change (seq (Z.to_nat RASQAL_LITERAL_FIRST_XSD)
                (Z.to_nat (SPARQL_XSD_NAMES_COUNT - RASQAL_LITERAL_FIRST_XSD)))
        with (seq 4 19) in H.
      split; [reflexivity|]. split; [reflexivity|]. intros i Hi.
      rewrite Forall_forall in H. apply H, list_elem_of_In, in_seq. lia.
    - intros (-> & -> & Hok). rewrite (xsd_init_table ns uri_ok Hok). reflexivity. }
  split; [exact Hiff|]. intros H0. apply Hiff in H0 as (-> & -> & Hok).
  rewrite (xsd_init_table ns uri_ok Hok). cbn [snd].
  intros type Htype.
  unfold RASQAL_LITERAL_FIRST_XSD, RASQAL_LITERAL_LAST_XSD, RASQAL_LITERAL_XSD_STRING,
    RASQAL_LITERAL_DATETIME in Htype.
  assert (Hcase : type = 4 \/ type = 5 \/ type = 6 \/ type = 7 \/ type = 8 \/
                  type = 9 \/ type = 10) by lia.
  destruct Hcase as [-> | [-> | [-> | [-> | [-> | [-> | ->]]]]]];
    (eexists; split; [reflexivity|]; rewrite uri_to_type_of_name; reflexivity).
Qed.

(** X22: of the twelve types derived from xsd:integer whose URIs
    rasqal_xsd_init stores, rasqal_xsd_datatype_uri_to_type recognises the
    eleven at indices 11 to 21 as RASQAL_LITERAL_INTEGER_SUBTYPE; its loop
    ends at XSD_INTEGER_DERIVED_LAST, one index short of the table, so the
    URI stored last (index 22) is answered with RASQAL_LITERAL_UNKNOWN and
    is no datatype URI for rasqal_xsd_is_datatype_uri, which accepts the
    other eleven. *)
Theorem derived_integer_uris_are_recognised_but_the_last :
  forall (ns : string) (uri_ok : nat -> bool) (i : nat) (name : string),
    RASQAL_LITERAL_INTEGER_SUBTYPE <> RASQAL_LITERAL_UNKNOWN ->
    (forall k, (4 <= k <= 22)%nat -> uri_ok k = true) ->
    (11 <= i <= 22)%nat ->
    nth i sparql_xsd_names None = Some name ->
    xsd_datatype_uris (snd (rasqal_xsd_init ns true true uri_ok))
    = Some (map (option_map (String.append ns)) sparql_xsd_names) /\
    uri_to_type (snd (rasqal_xsd_init ns true true uri_ok)) (Some (ns ++ name)%string)
    = (if (i <=? 21)%nat then RASQAL_LITERAL_INTEGER_SUBTYPE
       else RASQAL_LITERAL_UNKNOWN) /\
    rasqal_xsd_is_datatype_uri RASQAL_LITERAL_INTEGER_SUBTYPE
      (snd (rasqal_xsd_init ns true true uri_ok)) (Some (ns ++ name)%string)
    = (i <=? 21)%nat.
Proof.
  intros ns uri_ok i name Hsub Hok Hi Hname.
  assert (Huri :
            uri_to_type (snd (rasqal_xsd_init ns true true uri_ok))
              (Some (ns ++ name)%string)
            = (if (i <=? 21)%nat then RASQAL_LITERAL_INTEGER_SUBTYPE
               else RASQAL_LITERAL_UNKNOWN)).
  { rewrite (xsd_init_table ns uri_ok Hok). cbn [snd].
    rewrite uri_to_type_of_name.
    assert (Hcase : (i = 11 \/ i = 12 \/ i = 13 \/ i = 14 \/ i = 15 \/ i = 16 \/
                     i = 17 \/ i = 18 \/ i = 19 \/ i = 20 \/ i = 21 \/ i = 22)%nat)
      by lia.
    destruct Hcase as
      [-> | [-> | [-> | [-> | [-> | [-> | [-> | [-> | [-> | [-> | [-> | ->]]]]]]]]]]];
      injection Hname as <-; reflexivity. }
  split; [|split].
  - rewrite (xsd_init_table ns uri_ok Hok). reflexivity.
  - exact Huri.
  - unfold rasqal_xsd_is_datatype_uri. rewrite Huri.
    destruct (i <=? 21)%nat.
    + apply negb_true_iff, Z.eqb_neq, Hsub.
    + reflexivity.
Qed.

End XsdUriFacts.

Lemma datatype_uri_round_trip_witness :
  exists u,
    rasqal_xsd_datatype_type_to_uri
      (snd (rasqal_xsd_init "http://www.w3.org/2001/XMLSchema#" true true (fun _ => true)))
      RASQAL_LITERAL_DECIMAL = Some u /\
    rasqal_xsd_datatype_uri_to_type 15
      (snd (rasqal_xsd_init "http://www.w3.org/2001/XMLSchema#" true true (fun _ => true)))
      (Some u) = RASQAL_LITERAL_DECIMAL.
Proof.
  apply (proj2 (datatype_uri_round_trip 15 "http://www.w3.org/2001/XMLSchema#"
                  true true (fun _ => true))).
  - reflexivity.
  - split; discriminate.
Defined.

Lemma derived_integer_uris_are_recognised_but_the_last_witness :
  rasqal_xsd_datatype_uri_to_type 15
    (snd (rasqal_xsd_init "http://www.w3.org/2001/XMLSchema#" true true (fun _ => true)))
    (Some "http://www.w3.org/2001/XMLSchema#unsignedByte")
  = RASQAL_LITERAL_UNKNOWN /\
  rasqal_xsd_is_datatype_uri 15
    (snd (rasqal_xsd_init "http://www.w3.org/2001/XMLSchema#" true true (fun _ => true)))
    (Some "http://www.w3.org/2001/XMLSchema#unsignedShort")
  = true.
Proof.
  split.
  - exact (proj1 (proj2 (derived_integer_uris_are_recognised_but_the_last 15
                           "http://www.w3.org/2001/XMLSchema#" (fun _ => true) 22%nat
                           "unsignedByte" ltac:(discriminate) (fun _ _ => eq_refl)
                           ltac:(lia) eq_refl))).
  - exact (proj2 (proj2 (derived_integer_uris_are_recognised_but_the_last 15
                           "http://www.w3.org/2001/XMLSchema#" (fun _ => true) 21%nat
                           "unsignedShort" ltac:(discriminate) (fun _ _ => eq_refl)
                           ltac:(lia) eq_refl))).
Defined.

(** * Facts about the lexical check dispatch *)

(** X23: rasqal_xsd_datatype_check only ever rejects a string for the six
    types boolean .. dateTime that have a check function: for every other
    type value (xsd:string, whose table slot is NULL, the types below it,
    the types past dateTime such as an integer subtype, and values outside
    the enumeration altogether) the answer is 1 whatever the string. *)
Theorem datatype_check_passes_unchecked_types :
  forall (check_integer check_double check_float check_dateTime : string -> Z -> Z)
         (native_type : Z) (s : string) (flags : Z),
    native_type <= RASQAL_LITERAL_XSD_STRING \/ RASQAL_LITERAL_DATETIME < native_type ->
    rasqal_xsd_datatype_check check_integer check_double check_float check_dateTime
      native_type s flags = 1.
Proof.
  intros ci cd cf ct t s flags Ht.
  unfold rasqal_xsd_datatype_check, RASQAL_LITERAL_FIRST_XSD,
    RASQAL_LITERAL_XSD_STRING, RASQAL_LITERAL_DATETIME in *.
  cbn [length sparql_xsd_checkfns].
  destruct (t - 4 <? 0) eqn:Hneg; [reflexivity|].
  destruct (t - 4 >=? Z.of_nat 7) eqn:Hbig; [reflexivity|].
  cbn [orb]. apply Z.ltb_ge in Hneg. rewrite Z.geb_leb in Hbig.
  apply Z.leb_gt in Hbig.
  assert (Hzero : t - 4 = 0) by lia.
  rewrite Hzero. reflexivity.
Qed.

Lemma datatype_check_passes_unchecked_types_witness :
  rasqal_xsd_datatype_check (fun _ _ => 0) (fun _ _ => 0) (fun _ _ => 0) (fun _ _ => 0)
    15 "not a number" 0 = 1.
Proof.
  apply (datatype_check_passes_unchecked_types
           (fun _ _ => 0) (fun _ _ => 0) (fun _ _ => 0) (fun _ _ => 0) 15 "not a number" 0).
  right. reflexivity.
Defined.
